(** * Stock-Analysis: [utils.py], [stock_analyzer.py] and the session of [app.py]

    A shallow embedding of the symbol validator, the formatters, the
    dictionary cleaner, the summary statistics and the technical indicators,
    of the fetch routines that talk to the market-data provider, and of the
    session state that [main] and [analyze_stock] keep across reruns.

    Numeric model.  A Python [float] is an IEEE 754 binary64 value.  Here a
    float is either a finite rational, the negative zero, one of the two
    infinities, or NaN.  Arithmetic on finite values is exact; the special
    values follow IEEE 754: division by a zero yields an infinity or NaN and
    never raises (NumPy and pandas emit at most a warning), and every
    comparison with NaN is false.  The square root is a parameter of the
    definitions that need it.  The rounding to 53 bits is modelled where a
    statement turns on it, in the Bollinger bands; everywhere else the
    statements are kept to what rounding does not change: orders and signs,
    the places of NaN, the shape of a text, a threshold met with a margin.
    An int is converted to a float as it is, which the code does within the
    binary64 range only: the statements take ints of at most 10^300 in
    magnitude and a [periods] of machine size.

    Effects.  A call that may raise returns a [result]; the provider is a
    function from symbols to tickers whose every query may raise; the
    messages sent to the UI are returned next to the value, and the session
    state is passed in and out of a run.

    Layout: the model of the library operations (floats, strings, pandas,
    regular expressions), then the source files, then the notions the
    statements are phrased in, then the proofs. *)

From Stdlib Require Import ZArith QArith Qabs Qpower Lqa Lia Bool.
From Stdlib Require Import Ascii String DecimalString.
From stdpp Require Import base option list strings gmap.

Set Default Proof Using "Type".
Local Open Scope Q_scope.

(** ** IEEE 754 values *)

Module Float.

Inductive float64 : Type :=
| Fin (q : Q)      (* a finite value; the positive zero when [q == 0] *)
| NegZero          (* -0.0 *)
| PInf             (* +inf *)
| NInf             (* -inf *)
| NaN.

Definition Qeqb (a b : Q) : bool := Qeq_bool a b.
Definition Qltb (a b : Q) : bool := negb (Qle_bool b a).
Definition Qleb (a b : Q) : bool := Qle_bool a b.

Definition isnan (x : float64) : bool :=
  match x with NaN => true | _ => false end.

Definition isinf (x : float64) : bool :=
  match x with PInf | NInf => true | _ => false end.

Definition isfinite (x : float64) : bool :=
  match x with Fin _ | NegZero => true | _ => false end.

(** The rational a finite float stands for. *)
Definition value (x : float64) : option Q :=
  match x with
  | Fin q => Some q
  | NegZero => Some 0
  | _ => None
  end.

(** Sign bit: [true] for negative values and for -0.0. *)
Definition signbit (x : float64) : bool :=
  match x with
  | Fin q => Qltb q 0
  | NegZero | NInf => true
  | PInf | NaN => false
  end.

Definition is_zero (x : float64) : bool :=
  match x with
  | Fin q => Qeqb q 0
  | NegZero => true
  | _ => false
  end.

(** A zero or an infinity carrying the given sign bit. *)
Definition zero_of_sign (neg : bool) : float64 := if neg then NegZero else Fin 0.
Definition inf_of_sign (neg : bool) : float64 := if neg then NInf else PInf.

Definition fneg (x : float64) : float64 :=
  match x with
  | Fin q => if Qeqb q 0 then NegZero else Fin (- q)
  | NegZero => Fin 0
  | PInf => NInf
  | NInf => PInf
  | NaN => NaN
  end.

Definition fabs (x : float64) : float64 :=
  match x with
  | Fin q => Fin (Qabs q)
  | NegZero => Fin 0
  | PInf | NInf => PInf
  | NaN => NaN
  end.

(** [x + y]: an exact zero sum is +0.0 unless both operands are -0.0. *)
Definition fadd (x y : float64) : float64 :=
  match x, y with
  | NaN, _ | _, NaN => NaN
  | PInf, NInf | NInf, PInf => NaN
  | PInf, _ | _, PInf => PInf
  | NInf, _ | _, NInf => NInf
  | NegZero, NegZero => NegZero
  | NegZero, Fin b => Fin b
  | Fin a, NegZero => Fin a
  | Fin a, Fin b => Fin (a + b)
  end.

Definition fsub (x y : float64) : float64 := fadd x (fneg y).

(** [x * y]: the sign of a zero or infinite product is the xor of the signs. *)
Definition fmul (x y : float64) : float64 :=
  match x, y with
  | NaN, _ | _, NaN => NaN
  | (PInf | NInf), _ =>
      if is_zero y then NaN else inf_of_sign (xorb (signbit x) (signbit y))
  | _, (PInf | NInf) =>
      if is_zero x then NaN else inf_of_sign (xorb (signbit x) (signbit y))
  | Fin a, Fin b =>
      if Qeqb a 0 || Qeqb b 0
      then zero_of_sign (xorb (signbit x) (signbit y))
      else Fin (a * b)
  | _, _ => zero_of_sign (xorb (signbit x) (signbit y))
  end.

(** [x / y]: a nonzero finite value over a zero is an infinity, 0/0 and
    inf/inf are NaN; nothing raises. *)
Definition fdiv (x y : float64) : float64 :=
  match x, y with
  | NaN, _ | _, NaN => NaN
  | (PInf | NInf), (PInf | NInf) => NaN
  | (PInf | NInf), _ => inf_of_sign (xorb (signbit x) (signbit y))
  | _, (PInf | NInf) => zero_of_sign (xorb (signbit x) (signbit y))
  | _, _ =>
      if is_zero y
      then if is_zero x then NaN
           else inf_of_sign (xorb (signbit x) (signbit y))
      else
        match x, y with
        | Fin a, Fin b =>
            if Qeqb a 0 then zero_of_sign (xorb (signbit x) (signbit y))
            else Fin (a / b)
        | _, _ => zero_of_sign (xorb (signbit x) (signbit y))
        end
  end.

(** Comparisons; all false when an operand is NaN, and -0.0 = +0.0. *)
Definition flt (x y : float64) : bool :=
  match x, y with
  | NaN, _ | _, NaN => false
  | _, NInf => false
  | NInf, _ => true
  | PInf, _ => false
  | _, PInf => true
  | _, _ =>
      match value x, value y with
      | Some a, Some b => Qltb a b
      | _, _ => false
      end
  end.

Definition fle (x y : float64) : bool :=
  match x, y with
  | NaN, _ | _, NaN => false
  | NInf, _ => true
  | _, PInf => true
  | _, NInf => false
  | PInf, _ => false
  | _, _ =>
      match value x, value y with
      | Some a, Some b => Qleb a b
      | _, _ => false
      end
  end.

Definition fgt (x y : float64) : bool := flt y x.
Definition fge (x y : float64) : bool := fle y x.
Definition feqb (x y : float64) : bool := fle x y && fle y x.

(** [float(z)] for a Python [int] within the binary64 range. *)
Definition of_Z (z : Z) : float64 := Fin (inject_Z z).
Definition of_nat (n : nat) : float64 := Fin (inject_Z (Z.of_nat n)).

End Float.
Export Float.

(** ** Python strings and results *)

Module PyStr.

(** A Python [str] is a sequence of Unicode code points. *)
Abbreviation str := (list N).

(** The [str] of an ASCII literal of the program text. *)
Definition py (s : string) : str :=
  map N_of_ascii (list_ascii_of_string s).

(** [c.isspace()]: the characters [str.strip()] removes. *)
Definition isspace (c : N) : bool :=
  (((9 <=? c) && (c <=? 13)) || ((28 <=? c) && (c <=? 32))
   || (c =? 133) || (c =? 160) || (c =? 5760)
   || ((8192 <=? c) && (c <=? 8202))
   || (c =? 8232) || (c =? 8233) || (c =? 8239) || (c =? 8287)
   || (c =? 12288))%N.

Fixpoint lstrip (s : str) : str :=
  match s with
  | c :: rest => if isspace c then lstrip rest else s
  | [] => []
  end.

Definition rstrip (s : str) : str := rev (lstrip (rev s)).

(** [s.strip()] *)
Definition strip (s : str) : str := rstrip (lstrip s).

Section Upper.
(** The full upper-case mapping of a code point above 127, as the Unicode
    character database gives it (one code point may map to several). *)
Variable unicode_upper : N -> list N.

Definition upper_char (c : N) : list N :=
  (if c <? 128
   then [if (97 <=? c) && (c <=? 122) then c - 32 else c]
   else unicode_upper c)%N.

(** [s.upper()] *)
Definition upper (s : str) : str := concat (map upper_char s).
End Upper.

End PyStr.
Export PyStr.

(** Exceptions: the ones the modelled code can raise itself, and whatever the
    market-data provider raises (network failure, timeout, unknown symbol). *)
Inductive exn : Type :=
| IndexError
| ZeroDivisionError
| ProviderError (msg : str).

(** [str(e)] *)
Definition exn_message (e : exn) : str :=
  match e with
  | IndexError => py "single positional indexer is out-of-bounds"
  | ZeroDivisionError => py "float division by zero"
  | ProviderError msg => msg
  end.

(** A call either returns a value or raises. *)
Inductive result (A : Type) : Type :=
| Ok (a : A)
| Raise (e : exn).
Arguments Ok {A} a.
Arguments Raise {A} e.

Definition bind {A B : Type} (r : result A) (k : A -> result B) : result B :=
  match r with
  | Ok a => k a
  | Raise e => Raise e
  end.

Notation "'let*' x := r 'in' k" := (bind r (fun x => k))
  (at level 10, x name, r at level 100, k at level 200).

(** ** The pandas operations the program calls *)

Module Pandas.

(** A [pd.Series] of dtype float64, positions 0 .. len-1. *)
Abbreviation Series := (list float64).

(** [s.empty] *)
Definition empty (s : Series) : bool :=
  match s with [] => true | _ => false end.

(** [pd.isna]: NaN is missing, the infinities are not. *)
Definition isna (x : float64) : bool := isnan x.

(** [s.dropna()] *)
Definition dropna (s : Series) : Series := filter (fun x => isna x = false) s.

(** [s.shift(1)]: every value moves one position down, NaN enters first. *)
Definition shift1 (s : Series) : Series :=
  match s with
  | [] => []
  | _ => NaN :: removelast s
  end.

(** [s.diff()] is [s - s.shift(1)]. *)
Definition diff (s : Series) : Series := zip_with fsub s (shift1 s).

(** [s.pct_change()] is [s / s.shift(1) - 1] (no forward fill of gaps, the
    behaviour of [fill_method=None]). *)
Definition pct_change (s : Series) : Series :=
  zip_with (fun x p => fsub (fdiv x p) (Fin 1)) s (shift1 s).

(** [s.where(cond, other)]: keep the entries where [cond] holds. *)
Definition where_ (s : Series) (cond : float64 -> bool) (other : float64) : Series :=
  map (fun x => if cond x then x else other) s.

Definition fsum (xs : list float64) : float64 := foldl fadd (Fin 0) xs.

(** The observations a window function sees at position [i] for window
    length [w]: the entries at positions [i-w+1 .. i] that exist, without
    NaN; the infinities are turned into NaN before any window function
    runs. *)
Definition window_slice (w : nat) (s : Series) (i : nat) : list float64 :=
  drop (S i - w) (take (S i) s).

Definition observations (win : list float64) : list float64 :=
  filter (fun x => isfinite x = true) win.

Definition positions (s : Series) : list nat := seq 0 (length s).

(** Mean and sample variance (ddof = 1) of a list of finite observations. *)
Definition mean_of (obs : list float64) : float64 :=
  fdiv (fsum obs) (of_nat (length obs)).

Definition fsquare (x : float64) : float64 := fmul x x.

Definition var_of (obs : list float64) : float64 :=
  let m := mean_of obs in
  fdiv (fsum (map (fun x => fsquare (fsub x m)) obs)) (of_nat (length obs - 1)).

(** [s.rolling(window=w).mean()]: [min_periods] defaults to [w]; a position
    with fewer than [w] observations in its window is NaN. *)
Definition rolling_mean (w : nat) (s : Series) : Series :=
  map (fun i =>
         let obs := observations (window_slice w s i) in
         if (w <=? length obs)%nat && (0 <? length obs)%nat
         then mean_of obs else NaN)
      (positions s).

(** Maximum of a non-empty list of finite observations. *)
Definition fmax (x y : float64) : float64 := if flt x y then y else x.
Definition fmin (x y : float64) : float64 := if flt y x then y else x.

Definition max_of (obs : list float64) : float64 :=
  match obs with
  | [] => NaN
  | x :: rest => foldl fmax x rest
  end.

Definition min_of (obs : list float64) : float64 :=
  match obs with
  | [] => NaN
  | x :: rest => foldl fmin x rest
  end.

(** [s.expanding().max()]: [min_periods] is 1 and the window is the whole
    prefix up to the position. *)
Definition expanding_max (s : Series) : Series :=
  map (fun i => max_of (observations (take (S i) s))) (positions s).

(** [s.min()], [s.mean()] with [skipna=True]: NaN when nothing is left. *)
Definition series_min (s : Series) : float64 := min_of (dropna s).

Definition series_mean (s : Series) : float64 :=
  match dropna s with
  | [] => NaN
  | v => mean_of v
  end.

(** [s.iloc[k]]: a negative [k] counts from the end; out of range raises. *)
Definition iloc (s : Series) (k : Z) : result float64 :=
  let idx := (if k <? 0 then Z.of_nat (length s) + k else k)%Z in
  if ((0 <=? idx) && (idx <? Z.of_nat (length s)))%Z
  then match s !! Z.to_nat idx with
       | Some x => Ok x
       | None => Raise IndexError
       end
  else Raise IndexError.

Section WithSqrt.
(** [np.sqrt] on a non-negative finite value.  The square root is the one
    operation that leaves the rationals, so it is a parameter. *)
Variable sqrtQ : Q -> Q.

Definition fsqrt (x : float64) : float64 :=
  match x with
  | Fin q => if Qltb q 0 then NaN else Fin (sqrtQ q)
  | NegZero => NegZero
  | PInf => PInf
  | NInf | NaN => NaN
  end.

(** [s.rolling(window=w).std()]: sample standard deviation (ddof = 1) of
    the window; NaN with fewer than [w] or fewer than two observations. *)
Definition rolling_std (w : nat) (s : Series) : Series :=
  map (fun i =>
         let obs := observations (window_slice w s i) in
         if (w <=? length obs)%nat && (1 <? length obs)%nat
         then fsqrt (var_of obs) else NaN)
      (positions s).

(** [s.std()] with [skipna=True] and ddof = 1. *)
Definition series_std (s : Series) : float64 :=
  let v := dropna s in
  if (length v <=? 1)%nat then NaN else fsqrt (var_of v).
End WithSqrt.

End Pandas.
Export Pandas.

(** ** Regular expressions, as [re.match] runs them *)

Module Re.

Inductive regex : Type :=
| Bol                                  (* ^ *)
| Eol                                  (* $ *)
| Range (lo hi : N)                    (* [lo-hi] *)
| Char (c : N)                         (* one literal character *)
| Seq (r1 r2 : regex)
| Repeat (r : regex) (lo hi : nat)     (* r{lo,hi} *)
| Optional (r : regex).                (* (r)? *)

(** A matching position: how many characters were consumed, and the rest. *)
Abbreviation cursor := (nat * list N)%type.

(** All cursors reachable by applying [step] between [lo] and [hi] times. *)
Definition repeat_run (step : cursor -> list cursor) : nat -> nat -> cursor -> list cursor :=
  fix rep (lo hi : nat) (c : cursor) {struct hi} : list cursor :=
    (match lo with O => [c] | S _ => [] end)
    ++ match hi with
       | O => []
       | S hi' => concat (map (rep (pred lo) hi') (step c))
       end.

(** Every cursor at which a match of [r] starting at [c] can end.  [$]
    matches at the end of the string and just before a final newline. *)
Fixpoint run (r : regex) (c : cursor) : list cursor :=
  match r with
  | Bol => match c.1 with O => [c] | S _ => [] end
  | Eol => match c.2 with
           | [] => [c]
           | [nl] => if (nl =? 10)%N then [c] else []
           | _ => []
           end
  | Range lo hi =>
      match c.2 with
      | x :: rest => if ((lo <=? x) && (x <=? hi))%N then [(S c.1, rest)] else []
      | [] => []
      end
  | Char a =>
      match c.2 with
      | x :: rest => if (x =? a)%N then [(S c.1, rest)] else []
      | [] => []
      end
  | Seq r1 r2 => concat (map (run r2) (run r1 c))
  | Repeat r' lo hi => repeat_run (run r') lo hi c
  | Optional r' => run r' c ++ [c]
  end.

(** [bool(re.match(r, s))]: some match starts at the beginning of [s]. *)
Definition re_match (r : regex) (s : str) : bool :=
  match run r (O, s) with
  | [] => false
  | _ => true
  end.

End Re.
Export Re.

(** ** utils.py *)

Module Utils.

(** The Python values a caller may hand to [validate_symbol]. *)
Inductive pyvalue : Type :=
| PyNone
| PyInt (z : Z)
| PyFloat (x : float64)
| PyStr (s : str).

(** A numeric argument: a Python [int] or [float]. *)
Inductive pynumber : Type :=
| NumInt (z : Z)
| NumFloat (x : float64).

(** [float(value)], for a float or an int within the binary64 range (beyond
    it the conversion raises an OverflowError that no caller catches). *)
Definition to_float (v : pynumber) : float64 :=
  match v with
  | NumInt z => of_Z z
  | NumFloat x => x
  end.

(** *** validate_symbol *)

(** [r'^[A-Z]{1,5}(\.[A-Z]{1,2})?$'] *)
Definition pattern : regex :=
  Seq Bol
    (Seq (Repeat (Range 65 90) 1 5)
       (Seq (Optional (Seq (Char 46) (Repeat (Range 65 90) 1 2)))
          Eol)).

Section ValidateSymbol.
Variable unicode_upper : N -> list N.

Definition validate_symbol (symbol : pyvalue) : bool :=
  match symbol with
  | PyStr [] => false                       (* not symbol *)
  | PyStr s =>
      let symbol := upper unicode_upper (strip s) in
      re_match pattern symbol && (1 <=? length symbol)%nat
  | _ => false                              (* falsy, or not a str *)
  end.
End ValidateSymbol.

(** *** format_currency *)

Definition digit (d : Z) : ascii := ascii_of_N (48 + Z.to_N d).

Definition decimal (z : Z) : string :=
  NilZero.string_of_uint (N.to_uint (Z.to_N z)).

(** Nearest integer to a non-negative rational, ties to even. *)
Definition round_half_even (q : Q) : Z :=
  let n := Qnum q in
  let d := Zpos (Qden q) in
  let fl := (n / d)%Z in
  let r2 := (2 * (n mod d))%Z in
  if (r2 <? d)%Z then fl
  else if (d <? r2)%Z then (fl + 1)%Z
  else if Z.even fl then fl else (fl + 1)%Z.

(** [f"{q:.2f}"] for a finite [q]. *)
Definition format_fixed2 (q : Q) : string :=
  let n := round_half_even (Qabs q * 100) in
  ((if Qltb q 0 then "-" else "")
   +:+ decimal (n / 100) +:+ "."
   +:+ String (digit (n mod 100 / 10)) (String (digit (n mod 10)) ""))%string.

(** [f"{x:.2f}"] *)
Definition format_2f (x : float64) : string :=
  match x with
  | Fin q => format_fixed2 q
  | NegZero => "-0.00"
  | PInf => "inf"
  | NInf => "-inf"
  | NaN => "nan"
  end.

(** The [currency] argument of the source is never read, and [float(value)]
    does not fail on a float or an int within the binary64 range, so the
    [except] branch is not reached. *)
Definition format_currency (value : option pynumber) : string :=
  match value with
  | None => "N/A"
  | Some v =>
      if isna (to_float v) then "N/A"
      else
        let value := to_float v in
        if fge (fabs value) (Fin 1000000000)
        then "$" +:+ format_2f (fdiv value (Fin 1000000000)) +:+ "B"
        else if fge (fabs value) (Fin 1000000)
        then "$" +:+ format_2f (fdiv value (Fin 1000000)) +:+ "M"
        else if fge (fabs value) (Fin 1000)
        then "$" +:+ format_2f (fdiv value (Fin 1000)) +:+ "K"
        else "$" +:+ format_2f value
  end.

(** *** Summary statistics *)

Definition calculate_returns (prices : Series) : Series :=
  if empty prices then []
  else dropna (pct_change prices).

(** Python's [x / y] on two scalars raises on a zero divisor. *)
Definition py_div (x y : float64) : result float64 :=
  if is_zero y then Raise ZeroDivisionError else Ok (fdiv x y).

Section WithSqrt.
Variable sqrtQ : Q -> Q.

(** [periods] is an int of machine size, as the default 252: on a larger
    one [np.sqrt] and the division by it raise, which is not modelled. *)
Definition calculate_volatility (returns : Series) (periods : Z) : float64 :=
  if empty returns then NaN
  else fmul (series_std sqrtQ returns) (fsqrt sqrtQ (of_Z periods)).

Definition calculate_sharpe_ratio
    (returns : Series) (risk_free_rate : float64) (periods : Z) : result float64 :=
  if empty returns then Ok NaN
  else
    let* daily := py_div risk_free_rate (of_Z periods) in
    let excess_returns := map (fun r => fsub r daily) returns in
    Ok (fmul (fdiv (series_mean excess_returns) (series_std sqrtQ returns))
             (fsqrt sqrtQ (of_Z periods))).
End WithSqrt.

Definition calculate_max_drawdown (prices : Series) : float64 :=
  if empty prices then NaN
  else
    let running_max := expanding_max prices in
    let drawdown :=
      zip_with fdiv (zip_with fsub prices running_max) running_max in
    series_min drawdown.

(** *** determine_trend *)

Definition determine_trend (prices : Series) (window : nat) : result string :=
  if (length prices <? window)%nat then Ok "Insufficient Data"%string
  else
    let ma := rolling_mean window prices in
    let* current_ma := iloc ma (-1) in
    let* previous_ma := iloc ma ((- Z.of_nat window) / 2)%Z in
    if isna current_ma || isna previous_ma then Ok "Insufficient Data"%string
    else
      let change_pct :=
        fmul (fdiv (fsub current_ma previous_ma) previous_ma) (Fin 100) in
      if fgt change_pct (Fin 2) then Ok "Upward"%string
      else if flt change_pct (Fin (-2)) then Ok "Downward"%string
      else Ok "Sideways"%string.

End Utils.
Export Utils.

(** ** Rounding to binary64 *)

Module Binary64.

(** The exponent [e] with [2^e <= q < 2^(e+1)], for a positive [q]. *)
Definition binade (q : Q) : Z :=
  let guess := (Z.log2 (Qnum q) - Z.log2 (Zpos (Qden q)))%Z in
  if Qleb (2 ^ guess) q then guess else (guess - 1)%Z.

(** The binary64 value nearest to a positive rational, ties to the even
    significand: 53 bits above the smallest normal exponent -1022, the
    fixed spacing [2^-1074] below it, and infinity from [2^1024] on. *)
Definition round_pos (q : Q) : float64 :=
  let e := Z.max (binade q) (-1022) in
  let ulp := 2 ^ (e - 52) in
  let n := round_half_even (q / ulp) in
  if Qleb (2 ^ 1024) (inject_Z n * ulp) then PInf
  else if (n =? 0)%Z then Fin 0
  else Fin (inject_Z n * ulp).

Definition round64 (q : Q) : float64 :=
  if Qeqb q 0 then Fin 0
  else if Qltb 0 q then round_pos q
  else fneg (round_pos (- q)).

(** What a float64 cell holds of an exactly computed value. *)
Definition rnd (x : float64) : float64 :=
  match x with
  | Fin q => round64 q
  | other => other
  end.

(** The IEEE operations: the exact result, rounded. *)
Definition add64 (x y : float64) : float64 := rnd (fadd x y).
Definition sub64 (x y : float64) : float64 := rnd (fsub x y).
Definition mul64 (x y : float64) : float64 := rnd (fmul x y).

End Binary64.
Export Binary64.

(** ** pandas: exponentially weighted means *)

Module Ewm.

(** What a window function is handed: the infinities count as missing. *)
Definition prep_values (s : Series) : Series :=
  map (fun x => if isinf x then NaN else x) s.

(** The running state of [ewm(...).mean()]: the weighted average so far and
    the total weight behind it. *)
Record ewm_state : Type := {
  weighted : float64;
  old_wt : float64
}.

(** One step of the recursion with [adjust=True] and [ignore_na=False]:
    the old weight decays at every position, a missing value leaves the
    average as it is, and an observation equal to the average is not mixed
    in. *)
Definition ewm_step (old_wt_factor : float64) (st : ewm_state) (cur : float64)
  : ewm_state :=
  let new_wt := Fin 1 in
  if isnan (weighted st)
  then if isnan cur then st
       else {| weighted := cur; old_wt := old_wt st |}
  else
    let decayed := fmul (old_wt st) old_wt_factor in
    if isnan cur
    then {| weighted := weighted st; old_wt := decayed |}
    else
      {| weighted :=
           if feqb (weighted st) cur then weighted st
           else fdiv (fadd (fmul decayed (weighted st)) (fmul new_wt cur))
                     (fadd decayed new_wt);
         old_wt := fadd decayed new_wt |}.

Fixpoint ewm_scan (old_wt_factor : float64) (st : ewm_state) (vals : list float64)
  : list float64 :=
  match vals with
  | [] => []
  | cur :: rest =>
      let st' := ewm_step old_wt_factor st cur in
      weighted st' :: ewm_scan old_wt_factor st' rest
  end.

(** [s.ewm(span=span).mean()] for [span >= 1]: the centre of mass is
    [(span - 1) / 2], [alpha = 1 / (1 + com)], and with [min_periods=0] an
    entry is NaN only before the first observation. *)
Definition ewm_mean (span : Z) (s : Series) : Series :=
  let com := fdiv (fsub (of_Z span) (Fin 1)) (Fin 2) in
  let alpha := fdiv (Fin 1) (fadd (Fin 1) com) in
  let old_wt_factor := fsub (Fin 1) alpha in
  match prep_values s with
  | [] => []
  | first :: rest =>
      first :: ewm_scan old_wt_factor {| weighted := first; old_wt := Fin 1 |} rest
  end.

End Ewm.
Export Ewm.

(** ** utils.py: the remaining formatters and the cleaner *)

Module UtilsRest.

(** The [k] low decimal digits of [m], most significant first. *)
Fixpoint fraction_digits (k : nat) (m : Z) : string :=
  match k with
  | O => ""
  | S k' => String (digit (m / 10 ^ Z.of_nat k' mod 10)) (fraction_digits k' m)
  end.

(** [f"{q:.{places}f}"] for a finite [q]: no point when [places] is 0. *)
Definition format_fixed (places : nat) (q : Q) : string :=
  let scale := (10 ^ Z.of_nat places)%Z in
  let n := round_half_even (Qabs q * inject_Z scale) in
  ((if Qltb q 0 then "-" else "")
   +:+ decimal (n / scale)
   +:+ match places with
       | O => ""
       | S _ => "." +:+ fraction_digits places (n mod scale)
       end)%string.

(** [f"{x:.{places}f}"] *)
Definition format_f (places : nat) (x : float64) : string :=
  match x with
  | Fin q => format_fixed places q
  | NegZero => String "-"%char (format_fixed places 0)
  | PInf => "inf"
  | NInf => "-inf"
  | NaN => "nan"
  end.

(** A negative precision makes the format specification invalid, and a
    precision of 2^31 or more is refused as too big: either [ValueError] is
    caught and the result is "N/A". *)
Definition format_percentage (value : option pynumber) (decimal_places : Z) : string :=
  match value with
  | None => "N/A"
  | Some v =>
      if isna (to_float v) then "N/A"
      else if (decimal_places <? 0)%Z || (2 ^ 31 <=? decimal_places)%Z then "N/A"
      else format_f (Z.to_nat decimal_places) (to_float v) +:+ "%"
  end.

Definition format_large_number (value : option pynumber) : string :=
  match value with
  | None => "N/A"
  | Some v =>
      if isna (to_float v) then "N/A"
      else
        let value := to_float v in
        if fge (fabs value) (Fin 1000000000000)
        then format_2f (fdiv value (Fin 1000000000000)) +:+ "T"
        else if fge (fabs value) (Fin 1000000000)
        then format_2f (fdiv value (Fin 1000000000)) +:+ "B"
        else if fge (fabs value) (Fin 1000000)
        then format_2f (fdiv value (Fin 1000000)) +:+ "M"
        else if fge (fabs value) (Fin 1000)
        then format_2f (fdiv value (Fin 1000)) +:+ "K"
        else format_f 0 value
  end.

Section CleanFinancialData.
(** [np.isinf] takes the Python ints that fit one of numpy's integer types
    and answers False; on any other int it raises a TypeError.  Which ints
    fit is numpy's business: a parameter. *)
Variable numpy_int : Z -> bool.

(** One entry of [clean_financial_data]: a float that is NaN or infinite
    becomes [PyNone]; every other value is kept.  The result [None] stands
    for the TypeError of [np.isinf]. *)
Definition clean_value (value : pyvalue) : option pyvalue :=
  match value with
  | PyInt z => if numpy_int z then Some (PyInt z) else None
  | PyFloat x => Some (if isna x || isinf x then PyNone else PyFloat x)
  | other => Some other
  end.

(** The loop over the items: the first entry that raises ends the call. *)
Definition clean_financial_data (data : gmap string pyvalue)
  : option (gmap string pyvalue) :=
  if decide (map_Forall (fun _ v => is_Some (clean_value v)) data)
  then Some (omap clean_value data)
  else None.
End CleanFinancialData.

End UtilsRest.
Export UtilsRest.

(** ** stock_analyzer.py *)

Module StockAnalyzer.

(** One row of [ticker.history(...)]. *)
Record PricePoint : Type := {
  Open : float64;
  High : float64;
  Low : float64;
  Close : float64;
  Volume : float64
}.

(** The history frame: its rows in time order.  [history['Close']] is the
    column of closes. *)
Abbreviation DataFrame := (list PricePoint).

Definition df_empty (df : DataFrame) : bool :=
  match df with [] => true | _ => false end.

Definition close_column (df : DataFrame) : Series := map Close df.

(** A financial-statement table: labelled rows of values. *)
Abbreviation Table := (list (string * list float64)).

Definition table_empty (t : Table) : bool :=
  match t with
  | [] => true
  | (_, vals) :: _ => empty vals
  end.

(** What [yf.Ticker(symbol)] exposes; every attribute access is a query to
    the provider and may raise. *)
Record Ticker : Type := {
  info : result (option (gmap string pyvalue));
  history : str -> result DataFrame;
  quarterly_financials : result Table;
  balance_sheet : result Table;
  cashflow : result Table
}.

(** The market-data provider: [yf.Ticker]. *)
Definition YFinance : Type := str -> result Ticker.

(** Messages shown through the UI framework. *)
Inductive st_event : Type :=
| StError (msg : str)
| StWarning (msg : str).

Record StockBundle : Type := {
  bundle_info : gmap string pyvalue;
  bundle_history : DataFrame;
  bundle_financials : gmap string Table;
  bundle_symbol : str
}.

(** The three statements are read in order inside one [try]; the first
    query that raises ends the collection with what was stored so far. *)
Definition _get_financial_data (ticker : Ticker) : gmap string Table :=
  let store (key : string) (t : Table) (d : gmap string Table) :=
    if table_empty t then d else <[key := t]> d in
  match quarterly_financials ticker with
  | Raise _ => ∅
  | Ok qf =>
      let d1 := store "quarterly_financials"%string qf ∅ in
      match balance_sheet ticker with
      | Raise _ => d1
      | Ok bs =>
          let d2 := store "balance_sheet"%string bs d1 in
          match cashflow ticker with
          | Raise _ => d2
          | Ok cf => store "cashflow"%string cf d2
          end
      end
  end.

Section GetStockData.
Variable unicode_upper : N -> list N.

(** The body of the [try] block: [Ok None] is an early [return None]. *)
Definition fetch_bundle (yf : YFinance) (symbol period : str)
  : result (option StockBundle) :=
  let* ticker := yf symbol in
  let* info := info ticker in
  match info with
  | None => Ok None
  | Some d =>
      if (size d =? 0)%nat || negb (bool_decide (is_Some (d !! "symbol"%string)))
      then Ok None
      else
        let* history := history ticker period in
        if df_empty history then Ok None
        else
          let financials := _get_financial_data ticker in
          Ok (Some {| bundle_info := d;
                      bundle_history := history;
                      bundle_financials := financials;
                      bundle_symbol := upper unicode_upper symbol |})
  end.

(** Returns the bundle or [None], and the UI messages emitted. *)
Definition get_stock_data (yf : YFinance) (symbol period : str)
  : option StockBundle * list st_event :=
  match fetch_bundle yf symbol period with
  | Ok r => (r, [])
  | Raise e =>
      (None,
       [StError (py "Error fetching data for " ++ symbol ++ py ": "
                 ++ exn_message e)])
  end.
End GetStockData.

(** *** Technical indicators *)

(** [rs = gain / loss] and [100 - (100 / (1 + rs))] at one position. *)
Definition relative_strength (gain loss : float64) : float64 := fdiv gain loss.

Definition rsi_of_rs (rs : float64) : float64 :=
  fsub (Fin 100) (fdiv (Fin 100) (fadd (Fin 1) rs)).

Definition rsi_gain (close : Series) : Series :=
  let delta := diff close in
  rolling_mean 14 (where_ delta (fun d => fgt d (Fin 0)) (Fin 0)).

Definition rsi_loss (close : Series) : Series :=
  let delta := diff close in
  rolling_mean 14 (map fneg (where_ delta (fun d => flt d (Fin 0)) (Fin 0))).

Definition rsi (close : Series) : Series :=
  let rs := zip_with relative_strength (rsi_gain close) (rsi_loss close) in
  map rsi_of_rs rs.

(** The exponential averages and MACD. *)
Definition ema_12 (close : Series) : Series := ewm_mean 12 close.

Definition ema_26 (close : Series) : Series := ewm_mean 26 close.

Definition macd (close : Series) : Series :=
  zip_with fsub (ema_12 close) (ema_26 close).

Definition macd_signal (close : Series) : Series := ewm_mean 9 (macd close).

(** One position of a band.  The two series hold binary64 values: the
    window statistics are rounded when they are stored, and the sum and
    the product are the IEEE operations. *)
Definition band_upper (sma std : float64) : float64 :=
  add64 (rnd sma) (mul64 (rnd std) (Fin 2)).

Definition band_lower (sma std : float64) : float64 :=
  sub64 (rnd sma) (mul64 (rnd std) (Fin 2)).

Section WithSqrt.
Variable sqrtQ : Q -> Q.

Definition bollinger_upper (close : Series) : Series :=
  let sma_20 := rolling_mean 20 close in
  let std_20 := rolling_std sqrtQ 20 close in
  zip_with band_upper sma_20 std_20.

Definition bollinger_lower (close : Series) : Series :=
  let sma_20 := rolling_mean 20 close in
  let std_20 := rolling_std sqrtQ 20 close in
  zip_with band_lower sma_20 std_20.

(** The indicator dictionary: nothing in the [try] block raises on a
    column of floats, so all ten entries are stored. *)
Definition calculate_technical_indicators (history : DataFrame)
  : gmap string Series :=
  if df_empty history then ∅
  else
    let close := close_column history in
    <["Bollinger_Lower"%string := bollinger_lower close]>
    (<["Bollinger_Upper"%string := bollinger_upper close]>
    (<["RSI"%string := rsi close]>
    (<["MACD_Signal"%string := macd_signal close]>
    (<["MACD"%string := macd close]>
    (<["EMA_26"%string := ema_26 close]>
    (<["EMA_12"%string := ema_12 close]>
    (<["SMA_200"%string := rolling_mean 200 close]>
    (<["SMA_50"%string := rolling_mean 50 close]>
    (<["SMA_20"%string := rolling_mean 20 close]> ∅))))))))).
End WithSqrt.

(** *** Market summary *)

Definition indices : list (string * str) :=
  [ ("S&P 500"%string, py "^GSPC");
    ("Dow Jones"%string, py "^DJI");
    ("NASDAQ"%string, py "^IXIC");
    ("Russell 2000"%string, py "^RUT") ].

Record IndexQuote : Type := {
  current : float64;
  change : float64;
  change_pct : float64
}.

(** One iteration's [try] body: [Ok None] when the history is empty and
    nothing is stored. *)
Definition index_quote (yf : YFinance) (symbol : str) : result (option IndexQuote) :=
  let* ticker := yf symbol in
  let* hist := history ticker (py "2d") in
  if df_empty hist then Ok None
  else
    let close := close_column hist in
    let* current := iloc close (-1) in
    let* previous :=
      (if (1 <? length hist)%nat then iloc close (-2) else Ok current) in
    let change := fsub current previous in
    let change_pct := fmul (fdiv change previous) (Fin 100) in
    Ok (Some {| current := current; change := change; change_pct := change_pct |}).

(** A raising iteration is skipped ([except: continue]). *)
Definition get_market_summary (yf : YFinance) : gmap string IndexQuote :=
  foldl (fun market_data '(name, symbol) =>
           match index_quote yf symbol with
           | Ok (Some q) => <[name := q]> market_data
           | Ok None | Raise _ => market_data
           end)
        ∅ indices.

End StockAnalyzer.
Export StockAnalyzer.

(** ** stock_analyzer.py: the other fetches *)

Module Fetches.

(** The dictionary [get_real_time_price] returns. *)
Record Quote : Type := {
  current_price : float64;
  open_price : float64;
  high_price : float64;
  low_price : float64;
  volume : float64
}.

(** The [try] body; the five [iloc[-1]] reads run in the order of the keys. *)
Definition real_time_quote (yf : YFinance) (symbol : str) : result (option Quote) :=
  let* ticker := yf symbol in
  let* todays_data := history ticker (py "1d") in
  if negb (df_empty todays_data)
  then
    let* c := iloc (map Close todays_data) (-1) in
    let* o := iloc (map Open todays_data) (-1) in
    let* h := iloc (map High todays_data) (-1) in
    let* l := iloc (map Low todays_data) (-1) in
    let* v := iloc (map Volume todays_data) (-1) in
    Ok (Some {| current_price := c; open_price := o; high_price := h;
                low_price := l; volume := v |})
  else Ok None.

Definition get_real_time_price (yf : YFinance) (symbol : str)
  : option Quote * list st_event :=
  match real_time_quote yf symbol with
  | Ok r => (r, [])
  | Raise e =>
      (None,
       [StError (py "Error fetching real-time data for " ++ symbol ++ py ": "
                 ++ exn_message e)])
  end.

Section News.
(** A news item is whatever the provider returns; [ticker.news] is one more
    query of the ticker, [None] or a list. *)
Context {Item : Type}.
Variable news : Ticker -> result (option (list Item)).

Definition get_company_news (yf : YFinance) (symbol : str)
  : list Item * list st_event :=
  match (let* ticker := yf symbol in news ticker) with
  | Ok (Some (item :: items)) => (take 5 (item :: items), [])
  | Ok (Some []) | Ok None => ([], [])
  | Raise e =>
      ([], [StWarning (py "Error fetching news for " ++ symbol ++ py ": "
                       ++ exn_message e)])
  end.
End News.

Section CompareStocks.
Variable unicode_upper : N -> list N.

(** The loop of [compare_stocks]: the dictionary is keyed by the symbols as
    given, and the messages of the single fetches add up. *)
Definition compare_stocks (yf : YFinance) (symbols : list str) (period : str)
  : gmap str StockBundle * list st_event :=
  foldl (fun '(comparison_data, shown) symbol =>
           let '(stock_data, events) :=
             get_stock_data unicode_upper yf symbol period in
           (match stock_data with
            | Some bundle => <[symbol := bundle]> comparison_data
            | None => comparison_data
            end,
            shown ++ events))
        (∅, []) symbols.
End CompareStocks.

End Fetches.
Export Fetches.

(** ** app.py: the session state across reruns *)

Module App.

(** [st.session_state]: the cached bundle and the symbol last accepted. *)
Record SessionState : Type := {
  stock_data : option StockBundle;
  current_symbol : str
}.

Definition initial_state : SessionState :=
  {| stock_data := None; current_symbol := [] |}.

Inductive chart : Type := LineChart | CandlestickChart.

Inductive timeframe : Type :=
| Month1 | Month3 | Month6 | Year1 | Year2 | Year5.

(** [timeframe_options] *)
Definition timeframe_period (t : timeframe) : str :=
  match t with
  | Month1 => py "1mo"
  | Month3 => py "3mo"
  | Month6 => py "6mo"
  | Year1 => py "1y"
  | Year2 => py "2y"
  | Year5 => py "5y"
  end.

(** What the widgets return in one run of the script. *)
Record Inputs : Type := {
  text : str;                       (* st.text_input *)
  selected_timeframe : timeframe;   (* st.selectbox *)
  chart_type : chart;               (* st.selectbox *)
  analyze_button : bool;            (* st.button *)
  popular_button : str -> bool      (* the buttons of the welcome screen *)
}.

(** What a run puts on the page.  A download holds the CSV made from the
    cached bundle under a file name made from the current symbol. *)
Inductive app_event : Type :=
| Shown (e : st_event)
| Info (msg : str)
| Download (file_symbol : str) (bundle : StockBundle)
| Analysis (bundle : StockBundle) (c : chart)
| Uncaught (e : exn).

Definition cross_mark : str := [10060%N].
Definition pointing_up : str := [128070%N].

Definition popular_stocks : list str :=
  [py "AAPL"; py "MSFT"; py "GOOGL"; py "TSLA"; py "AMZN"; py "META"; py "NVDA";
   py "NFLX"].

Section Script.
Variable unicode_upper : N -> list N.
Variable yf : YFinance.
(** [display_analysis] draws the page from a bundle; it writes no state and
    may raise. *)
Variable display_analysis : StockBundle -> chart -> result unit.

Definition analyze_stock (symbol period : str) (c : chart) (st : SessionState)
  : SessionState * list app_event :=
  let '(fetched, shown) := get_stock_data unicode_upper yf symbol period in
  match fetched with
  | None =>
      (st,
       map Shown shown ++
       [Shown (StError (cross_mark ++ py " Unable to fetch data for symbol '"
                        ++ symbol ++ py "'. Please verify the symbol is correct."))])
  | Some bundle =>
      let st' := {| stock_data := Some bundle;
                    current_symbol := current_symbol st |} in
      match display_analysis bundle c with
      | Ok _ => (st', map Shown shown ++ [Analysis bundle c])
      | Raise e =>
          (st',
           map Shown shown ++
           [Shown (StError (cross_mark ++ py " Error analyzing stock: "
                            ++ exn_message e))])
      end
  end.

(** The welcome screen: every popular button that is down sets the symbol
    and analyses it. *)
Definition welcome (inp : Inputs) (st : SessionState)
  : SessionState * list app_event :=
  foldl (fun '(st, events) stock =>
           if popular_button inp stock
           then
             let '(st', more) :=
               analyze_stock stock (py "1y") LineChart
                 {| stock_data := stock_data st; current_symbol := stock |} in
             (st', events ++ more)
           else (st, events))
        (st, [Info (pointing_up
                    ++ py " Enter a stock symbol in the sidebar to begin analysis")])
        popular_stocks.

(** One run of [main]: the sidebar first, then the main content. *)
Definition main (inp : Inputs) (st : SessionState)
  : SessionState * list app_event :=
  let symbol := upper unicode_upper (text inp) in
  let sidebar :=
    match stock_data st with
    | Some bundle => [Download (current_symbol st) bundle]
    | None => []
    end in
  let '(st', content) :=
    if analyze_button inp && negb (bool_decide (symbol = []))
    then
      if validate_symbol unicode_upper (PyStr symbol)
      then analyze_stock symbol (timeframe_period (selected_timeframe inp))
             (chart_type inp)
             {| stock_data := stock_data st; current_symbol := symbol |}
      else
        (st,
         [Shown (StError (cross_mark ++ py " Please enter a valid stock symbol "
                          ++ py "(e.g., AAPL, MSFT, GOOGL)"))])
    else
      match stock_data st with
      | Some bundle =>
          match display_analysis bundle (chart_type inp) with
          | Ok _ => (st, [Analysis bundle (chart_type inp)])
          | Raise e => (st, [Uncaught e])
          end
      | None => welcome inp st
      end in
  (st', sidebar ++ content).
End Script.

End App.
Export App.

(** ** Specification-side notions *)

Module Spec.

(** [represents x q]: the float [x] is finite and stands for the rational
    [q] (both zeros stand for 0). *)
Definition represents (x : float64) (q : Q) : Prop :=
  match value x with
  | Some q' => q' == q
  | None => False
  end.

Definition finite (x : float64) : Prop := isfinite x = true.

(** A price: a finite float above zero. *)
Definition positive_price (x : float64) : Prop :=
  isfinite x = true /\ flt (Fin 0) x = true.

(** A series that never falls: an earlier entry is at most a later one. *)
Definition nondecreasing (s : Series) : Prop :=
  forall (i j : nat) (x y : float64),
    (i <= j)%nat -> s !! i = Some x -> s !! j = Some y -> fle x y = true.

Definition Qsum (qs : list Q) : Q := foldl Qplus 0 qs.

(** The trend rule in the specification's words: the percentage change from
    the earlier moving average to the most recent one, against +/-2. *)
Definition trend_label (current_ma previous_ma : float64) : string :=
  if isnan current_ma || isnan previous_ma then "Insufficient Data"
  else
    let change := fmul (fdiv (fsub current_ma previous_ma) previous_ma) (Fin 100) in
    if flt (Fin 2) change then "Upward"
    else if flt change (Fin (-2)) then "Downward"
    else "Sideways".

(** Synthetic series: [n] prices starting at [p] and rising by 1 a day, and
    [n] equal prices. *)
Definition rising_values (p : Q) (n : nat) : list Q :=
  map (fun k => p + inject_Z (Z.of_nat k)) (seq 0 n).

Definition rising (p : Q) (n : nat) : Series := map Fin (rising_values p n).

Definition flat (c : Q) (n : nat) : Series := map Fin (repeat c n).

(** The numbers [float(value)] converts without overflow: every float, and
    the ints of at most 10^300 in magnitude. *)
Definition converts (v : pynumber) : Prop :=
  match v with
  | NumInt z => (Z.abs z <= 10 ^ 300)%Z
  | NumFloat _ => True
  end.

(** A result that is never a negative number: NaN or at least zero. *)
Definition nan_or_nonneg (x : float64) : Prop :=
  isnan x = true \/ fle (Fin 0) x = true.

(** The simple moving averages of the indicator dictionary and their
    windows. *)
Definition sma_windows : list (string * nat) :=
  [("SMA_20"%string, 20%nat); ("SMA_50"%string, 50%nat);
   ("SMA_200"%string, 200%nat)].

(** The exact mean of the [w] values that end at position [i]. *)
Definition window_mean (w : nat) (qs : list Q) (i : nat) : Q :=
  Qsum (drop (S i - w) (take (S i) qs)) / inject_Z (Z.of_nat w).

(** Prices of ordinary size: at most a million of them, within a factor
    1000 of one another and far from both ends of the binary64 range. *)
Definition ordinary_prices (qs : list Q) : Prop :=
  (Z.of_nat (length qs) <= 1000000)%Z /\
  exists lo : Q,
    1 / 10 ^ 300 <= lo /\ lo <= 10 ^ 297 /\
    Forall (fun q => lo <= q /\ q <= 1000 * lo) qs.

(** Nineteen closes of 1e17, then the next binary64 number above it. *)
Definition closes_one_step : Series :=
  repeat (Fin 100000000000000000) 19 ++ [Fin 100000000000000016].

(** The ways a fetch comes back empty-handed: the source has no descriptive
    info, or info without a symbol field, or an empty history, or one of
    the queries raises. *)
Inductive not_found_cause (yf : YFinance) (symbol period : str) : Prop :=
| NoInfo (t : Ticker) :
    yf symbol = Ok t -> info t = Ok None -> not_found_cause yf symbol period
| InfoWithoutSymbol (t : Ticker) (d : gmap string pyvalue) :
    yf symbol = Ok t -> info t = Ok (Some d) -> d !! "symbol"%string = None ->
    not_found_cause yf symbol period
| EmptyHistory (t : Ticker) (d : gmap string pyvalue) :
    yf symbol = Ok t -> info t = Ok (Some d) -> history t period = Ok [] ->
    not_found_cause yf symbol period
| TickerRaises (e : exn) :
    yf symbol = Raise e -> not_found_cause yf symbol period
| InfoRaises (t : Ticker) (e : exn) :
    yf symbol = Ok t -> info t = Raise e -> not_found_cause yf symbol period
| HistoryRaises (t : Ticker) (d : gmap string pyvalue) (e : exn) :
    yf symbol = Ok t -> info t = Ok (Some d) -> history t period = Raise e ->
    not_found_cause yf symbol period.


(** Sample providers: every symbol answers with the same history. *)
Definition sample_row (c : float64) : PricePoint :=
  {| Open := c; High := c; Low := c; Close := c; Volume := Fin 0 |}.

Definition sample_ticker (h : result DataFrame) : Ticker :=
  {| info := Ok (Some {[ "symbol"%string := PyStr (py "X") ]});
     history := fun _ => h;
     quarterly_financials := Ok [];
     balance_sheet := Ok [];
     cashflow := Ok [] |}.

Definition sample_provider (h : result DataFrame) : YFinance :=
  fun _ => Ok (sample_ticker h).

(** The symbol syntax in the specification's words: one to five upper-case
    letters, optionally followed by a dot and one or two upper-case letters. *)
Definition is_upper_letter (c : N) : Prop := (65 <= c /\ c <= 90)%N.

Definition symbol_syntax (s : str) : Prop :=
  exists base suffix : list N,
    s = base ++ suffix /\
    (1 <= length base)%nat /\ (length base <= 5)%nat /\
    Forall is_upper_letter base /\
    (suffix = [] \/
     exists ext : list N,
       suffix = 46%N :: ext /\
       (1 <= length ext)%nat /\ (length ext <= 2)%nat /\
       Forall is_upper_letter ext).

(** The upper-case mapping of the Latin-1 code points above 127, a sample of
    the Unicode table: sharp s becomes SS, the micro sign and y with
    diaeresis leave Latin-1, the other lower-case letters move down by 32. *)
Definition latin1_upper (c : N) : list N :=
  (if c =? 223 then [83; 83]
   else if c =? 181 then [924]
   else if c =? 255 then [376]
   else if (224 <=? c) && (c <=? 254) && negb (c =? 247) then [c - 32]
   else [c])%N.

(** The shape of a rendered amount: a dollar sign, an optional minus sign,
    at least one digit, a point, exactly two digits, and the suffix. *)
Definition is_digit (a : ascii) : bool :=
  ((48 <=? N_of_ascii a) && (N_of_ascii a <=? 57))%N.

Fixpoint skip_digits (s : list ascii) : list ascii :=
  match s with
  | a :: rest => if is_digit a then skip_digits rest else s
  | [] => []
  end.

Definition two_decimals_then (suffix body : list ascii) : bool :=
  let unsigned :=
    match body with
    | a :: rest => if bool_decide (a = "-"%char) then rest else body
    | [] => body
    end in
  match unsigned with
  | d :: _ =>
      is_digit d &&
      match skip_digits unsigned with
      | point :: a :: b :: rest =>
          bool_decide (point = "."%char) && is_digit a && is_digit b
          && bool_decide (rest = suffix)
      | _ => false
      end
  | [] => false
  end.

Definition money_shape (suffix s : string) : bool :=
  match list_ascii_of_string s with
  | a :: body =>
      bool_decide (a = "$"%char)
      && two_decimals_then (list_ascii_of_string suffix) body
  | [] => false
  end.

(** The scale ladder in the specification's words. *)
Definition currency_suffix (x : float64) : string :=
  if fle (Fin 1000000000) (fabs x) then "B"
  else if fle (Fin 1000000) (fabs x) then "M"
  else if fle (Fin 1000) (fabs x) then "K"
  else "".

Definition currency_scaled (x : float64) : float64 :=
  if fle (Fin 1000000000) (fabs x) then fdiv x (Fin 1000000000)
  else if fle (Fin 1000000) (fabs x) then fdiv x (Fin 1000000)
  else if fle (Fin 1000) (fabs x) then fdiv x (Fin 1000)
  else x.

(** A square root on the rationals, rounded up to a multiple of the
    argument's own denominator: a sample instance of the [sqrtQ] parameter. *)
Definition Qsqrt_up (q : Q) : Q :=
  Z.sqrt_up (Qnum q * Zpos (Qden q)) # Qden q.

(** An entry that is non-negative whenever it is a finite number. *)
Definition nonneg_if_finite (x : float64) : Prop :=
  isfinite x = true -> exists q, represents x q /\ 0 <= q.

(** The shape of a number rendered with a fixed count of decimals: an
    optional minus sign, at least one digit, then nothing more when the
    count is 0, otherwise a point and exactly that many digits; the suffix
    follows. *)
Fixpoint take_digits (k : nat) (s : list ascii) : option (list ascii) :=
  match k with
  | O => Some s
  | S k' =>
      match s with
      | a :: rest => if is_digit a then take_digits k' rest else None
      | [] => None
      end
  end.

Definition fixed_shape (places : nat) (suffix body : list ascii) : bool :=
  let unsigned :=
    match body with
    | a :: rest => if bool_decide (a = "-"%char) then rest else body
    | [] => body
    end in
  match unsigned with
  | d :: _ =>
      is_digit d &&
      match places with
      | O => bool_decide (skip_digits unsigned = suffix)
      | S _ =>
          match skip_digits unsigned with
          | point :: rest =>
              bool_decide (point = "."%char) &&
              match take_digits places rest with
              | Some r => bool_decide (r = suffix)
              | None => false
              end
          | [] => false
          end
      end
  | [] => false
  end.

Definition no_leading_digit (suffix : string) : Prop :=
  match list_ascii_of_string suffix with
  | a :: _ => is_digit a = false
  | [] => True
  end.

(** The scale letter of [format_large_number]. *)
Definition large_number_suffix (x : float64) : string :=
  if fle (Fin 1000000000000) (fabs x) then "T"
  else if fle (Fin 1000000000) (fabs x) then "B"
  else if fle (Fin 1000000) (fabs x) then "M"
  else if fle (Fin 1000) (fabs x) then "K"
  else "".

(** A dictionary value read as the argument of a formatter. *)
Definition number_of (v : pyvalue) : option pynumber :=
  match v with
  | PyInt z => Some (NumInt z)
  | PyFloat x => Some (NumFloat x)
  | PyNone | PyStr _ => None
  end.

(** A cached bundle that [display_analysis] can read: it has a symbol in
    its info and a history with rows. *)
Definition cached_ok (st : SessionState) : Prop :=
  match stock_data st with
  | Some bundle =>
      bundle_history bundle <> [] /\
      is_Some (bundle_info bundle !! "symbol"%string)
  | None => True
  end.

(** A sample of the ints numpy takes: those of its 64-bit types. *)
Definition fits_64_bits (z : Z) : bool := ((- 2 ^ 63 <=? z) && (z <? 2 ^ 64))%Z.

(** Sample widgets, page and cached bundle. *)
Definition sample_inputs (typed : str) : Inputs :=
  {| text := typed; selected_timeframe := Year1; chart_type := LineChart;
     analyze_button := true; popular_button := fun _ => false |}.

Definition sample_display (bundle : StockBundle) (c : chart) : result unit := Ok tt.

Definition sample_bundle : StockBundle :=
  {| bundle_info := {[ "symbol"%string := PyStr (py "X") ]};
     bundle_history := [sample_row (Fin 100)];
     bundle_financials := ∅;
     bundle_symbol := py "X" |}.

End Spec.
Export Spec.

(** * Proofs *)

(** ** Finite floats behave as the rationals they stand for *)

Section FloatFacts.

Lemma Qeqb_true a b : Qeqb a b = true <-> a == b.
Proof. apply Qeq_bool_iff. Qed.

Lemma Qeqb_false a b : Qeqb a b = false <-> ~ a == b.
Proof.
  rewrite <- Qeqb_true. destruct (Qeqb a b); split; congruence.
Qed.

Lemma Qleb_true a b : Qleb a b = true <-> a <= b.
Proof. apply Qle_bool_iff. Qed.

Lemma Qleb_false a b : Qleb a b = false <-> b < a.
Proof.
  unfold Qleb. split; intros H.
  - apply Qnot_le_lt. intros Hle. apply Qle_bool_iff in Hle. congruence.
  - destruct (Qle_bool a b) eqn:E; [|reflexivity].
    apply Qle_bool_iff in E. lra.
Qed.

Lemma Qltb_true a b : Qltb a b = true <-> a < b.
Proof.
  unfold Qltb. rewrite negb_true_iff. apply (Qleb_false b a).
Qed.

Lemma Qltb_false a b : Qltb a b = false <-> b <= a.
Proof.
  unfold Qltb. rewrite negb_false_iff. apply (Qleb_true b a).
Qed.

End FloatFacts.

(** Turns every boolean test on rationals in the context and the goal into
    the order fact it decides. *)
Ltac q_tests :=
  repeat match goal with
    | H : Qeqb _ _ = true |- _ => apply Qeqb_true in H
    | H : Qeqb _ _ = false |- _ => apply Qeqb_false in H
    | H : Qltb _ _ = true |- _ => apply Qltb_true in H
    | H : Qltb _ _ = false |- _ => apply Qltb_false in H
    | H : Qleb _ _ = true |- _ => apply Qleb_true in H
    | H : Qleb _ _ = false |- _ => apply Qleb_false in H
    | |- Qeqb _ _ = true => apply Qeqb_true
    | |- Qeqb _ _ = false => apply Qeqb_false
    | |- Qltb _ _ = true => apply Qltb_true
    | |- Qltb _ _ = false => apply Qltb_false
    | |- Qleb _ _ = true => apply Qleb_true
    | |- Qleb _ _ = false => apply Qleb_false
    end.

(** Case analysis on every rational test a float operation branches on. *)
Ltac q_branch :=
  repeat match goal with
    | |- context [if Qeqb ?a ?b then _ else _] => destruct (Qeqb a b) eqn:?
    | |- context [if Qltb ?a ?b then _ else _] => destruct (Qltb a b) eqn:?
    | |- context [if Qleb ?a ?b then _ else _] => destruct (Qleb a b) eqn:?
    | |- context [Qeqb ?a ?b || _] => destruct (Qeqb a b) eqn:?
    | |- context [_ || Qeqb ?a ?b] => destruct (Qeqb a b) eqn:?
    | |- context [xorb (Qltb ?a ?b) _] => destruct (Qltb a b) eqn:?
    | |- context [xorb _ (Qltb ?a ?b)] => destruct (Qltb a b) eqn:?
    | H : context [if Qeqb ?a ?b then _ else _] |- _ => destruct (Qeqb a b) eqn:?
    | H : context [if Qltb ?a ?b then _ else _] |- _ => destruct (Qltb a b) eqn:?
    | H : context [if Qleb ?a ?b then _ else _] |- _ => destruct (Qleb a b) eqn:?
    end.

Ltac float_solve :=
  unfold represents in *; simpl in *; q_branch; simpl in *; q_tests;
  try contradiction; try discriminate; try lra.

Section Represents.

Lemma represents_Fin q : represents (Fin q) q.
Proof. unfold represents; simpl. reflexivity. Qed.

Lemma represents_finite x q : represents x q -> isfinite x = true.
Proof. destruct x; unfold represents; simpl; intros; try contradiction; reflexivity. Qed.

Lemma finite_represents x : isfinite x = true -> exists q, represents x q.
Proof.
  destruct x; simpl; intros; try discriminate.
  - exists q. apply represents_Fin.
  - exists 0. unfold represents; simpl. reflexivity.
Qed.

Lemma represents_eq x a b : represents x a -> a == b -> represents x b.
Proof. unfold represents. destruct (value x); [|tauto]. intros. lra. Qed.

Lemma represents_add x y a b :
  represents x a -> represents y b -> represents (fadd x y) (a + b).
Proof. destruct x, y; float_solve. Qed.

Lemma represents_neg x a : represents x a -> represents (fneg x) (- a).
Proof. destruct x; float_solve. Qed.

Lemma represents_sub x y a b :
  represents x a -> represents y b -> represents (fsub x y) (a - b).
Proof.
  intros Hx Hy. unfold fsub.
  apply represents_eq with (a + - b); [|lra].
  apply represents_add; [assumption|]. now apply represents_neg.
Qed.

Lemma represents_mul x y a b :
  represents x a -> represents y b -> represents (fmul x y) (a * b).
Proof.
  destruct x, y; float_solve;
    try (unfold zero_of_sign; simpl; q_branch; simpl; q_tests; nra).
Qed.

End Represents.
Section Represents2.

Lemma represents_div x y a b :
  represents x a -> represents y b -> ~ b == 0 ->
  represents (fdiv x y) (a / b).
Proof.
  intros Hx Hy Hb.
  assert (Hz : forall s, represents (zero_of_sign s) 0)
    by (intros []; unfold represents; simpl; reflexivity).
  assert (Hq : forall q, q == 0 -> 0 == q / b)
    by (intros q Hq0; rewrite Hq0; unfold Qdiv; lra).
  destruct x, y; unfold represents in Hx, Hy; simpl in Hx, Hy;
    try contradiction; simpl.
  - destruct (Qeqb q0 0) eqn:E0; simpl; q_tests; [lra|].
    destruct (Qeqb q 0) eqn:E; q_tests.
    + apply represents_eq with 0; [apply Hz|]. apply Hq. lra.
    + unfold represents; simpl. rewrite Hx, Hy. reflexivity.
  - lra.
  - destruct (Qeqb q 0) eqn:E0; simpl; q_tests; [lra|].
    apply represents_eq with 0; [apply Hz|]. apply Hq. lra.
  - lra.
Qed.

Lemma flt_represents x y a b :
  represents x a -> represents y b -> (flt x y = true <-> a < b).
Proof.
  destruct x, y; unfold represents; simpl; intros Hx Hy; try contradiction;
    rewrite Qltb_true; lra.
Qed.

Lemma fle_represents x y a b :
  represents x a -> represents y b -> (fle x y = true <-> a <= b).
Proof.
  destruct x, y; unfold represents; simpl; intros Hx Hy; try contradiction;
    rewrite Qleb_true; lra.
Qed.

Lemma feqb_represents x y a b :
  represents x a -> represents y b -> (feqb x y = true <-> a == b).
Proof.
  intros Hx Hy. unfold feqb. rewrite andb_true_iff.
  rewrite (fle_represents x y a b), (fle_represents y x b a) by assumption.
  lra.
Qed.

Lemma is_zero_represents x a : represents x a -> (is_zero x = true <-> a == 0).
Proof.
  destruct x; unfold represents; simpl; intros Hx; try contradiction.
  - rewrite Qeqb_true. lra.
  - split; [lra|reflexivity].
Qed.

Lemma represents_not_nan x a : represents x a -> isnan x = false.
Proof. destruct x; unfold represents; simpl; intros; try contradiction; reflexivity. Qed.

End Represents2.

(** ** Lists of finite observations *)

Section Observations.

Lemma map_fmap {A B} (f : A -> B) (l : list A) : map f l = f <$> l.
Proof. reflexivity. Qed.

Lemma observations_finite (l : list float64) :
  Forall finite l -> observations l = l.
Proof.
  unfold observations. induction 1 as [|x l Hx _ IH]; [reflexivity|].
  rewrite filter_cons_True by exact Hx. now rewrite IH.
Qed.

Lemma observations_are_finite (l : list float64) : Forall finite (observations l).
Proof.
  unfold observations. apply Forall_forall. intros x Hx.
  apply list_elem_of_filter in Hx. tauto.
Qed.

Lemma dropna_no_nan (s : Series) :
  Forall (fun x => isnan x = false) s -> dropna s = s.
Proof.
  unfold dropna. induction 1 as [|x l Hx _ IH]; [reflexivity|].
  rewrite filter_cons_True by exact Hx. now rewrite IH.
Qed.

Lemma finite_not_nan x : finite x -> isnan x = false.
Proof. destruct x; simpl; unfold finite; simpl; congruence. Qed.

Lemma fle_refl x : finite x -> fle x x = true.
Proof. destruct x; unfold finite; simpl; intros; try discriminate; q_tests; lra. Qed.

Lemma fle_trans x y z :
  finite x -> finite y -> finite z ->
  fle x y = true -> fle y z = true -> fle x z = true.
Proof.
  intros [a Ha]%finite_represents [b Hb]%finite_represents [c Hc]%finite_represents.
  rewrite (fle_represents x y a b), (fle_represents y z b c),
    (fle_represents x z a c) by assumption.
  lra.
Qed.

Lemma fmax_cases x y : fmax x y = x \/ fmax x y = y.
Proof. unfold fmax. destruct (flt x y); auto. Qed.

Lemma fmin_cases x y : fmin x y = x \/ fmin x y = y.
Proof. unfold fmin. destruct (flt y x); auto. Qed.

Lemma fmax_upper x y :
  finite x -> finite y -> fle x (fmax x y) = true /\ fle y (fmax x y) = true.
Proof.
  intros Hx Hy.
  destruct (finite_represents x Hx) as [a Ha].
  destruct (finite_represents y Hy) as [b Hb].
  unfold fmax. destruct (flt x y) eqn:E.
  - apply (flt_represents x y a b Ha Hb) in E.
    rewrite (fle_represents x y a b), (fle_represents y y b b) by assumption. lra.
  - assert (~ a < b) by (rewrite <- (flt_represents x y a b Ha Hb); congruence).
    rewrite (fle_represents x x a a), (fle_represents y x b a) by assumption. lra.
Qed.

Lemma fmin_lower x y :
  finite x -> finite y -> fle (fmin x y) x = true /\ fle (fmin x y) y = true.
Proof.
  intros Hx Hy.
  destruct (finite_represents x Hx) as [a Ha].
  destruct (finite_represents y Hy) as [b Hb].
  unfold fmin. destruct (flt y x) eqn:E.
  - apply (flt_represents y x b a Hb Ha) in E.
    rewrite (fle_represents y x b a), (fle_represents y y b b) by assumption. lra.
  - assert (~ b < a) by (rewrite <- (flt_represents y x b a Hb Ha); congruence).
    rewrite (fle_represents x x a a), (fle_represents x y a b) by assumption. lra.
Qed.

Lemma foldl_fmax_spec (l : list float64) : forall x,
  finite x -> Forall finite l ->
  foldl fmax x l ∈ x :: l /\
  forall y, y ∈ x :: l -> fle y (foldl fmax x l) = true.
Proof.
  induction l as [|a l IH]; intros x Hx Hl; simpl.
  - split; [apply elem_of_cons; auto|].
    intros y Hy. apply list_elem_of_singleton in Hy. subst. now apply fle_refl.
  - inversion Hl as [|? ? Ha Hl']; subst.
    assert (Hm : finite (fmax x a))
      by (destruct (fmax_cases x a) as [->| ->]; assumption).
    destruct (IH (fmax x a) Hm Hl') as [Hin Hub].
    destruct (fmax_upper x a Hx Ha) as [Hxm Ham].
    assert (Hfin : finite (foldl fmax (fmax x a) l)).
    { apply elem_of_cons in Hin. destruct Hin as [->|Hin]; [assumption|].
      rewrite Forall_forall in Hl'. now apply Hl'. }
    assert (Htop : fle (fmax x a) (foldl fmax (fmax x a) l) = true)
      by (apply Hub, elem_of_cons; auto).
    split.
    + apply elem_of_cons in Hin. rewrite !elem_of_cons.
      destruct Hin as [->|Hin]; [|auto].
      destruct (fmax_cases x a) as [->| ->]; auto.
    + intros y Hy. rewrite !elem_of_cons in Hy. destruct Hy as [->|[->|Hy]].
      * apply fle_trans with (fmax x a); auto.
      * apply fle_trans with (fmax x a); auto.
      * apply Hub, elem_of_cons. auto.
Qed.

Lemma foldl_fmin_spec (l : list float64) : forall x,
  finite x -> Forall finite l ->
  foldl fmin x l ∈ x :: l /\
  forall y, y ∈ x :: l -> fle (foldl fmin x l) y = true.
Proof.
  induction l as [|a l IH]; intros x Hx Hl; simpl.
  - split; [apply elem_of_cons; auto|].
    intros y Hy. apply list_elem_of_singleton in Hy. subst. now apply fle_refl.
  - inversion Hl as [|? ? Ha Hl']; subst.
    assert (Hm : finite (fmin x a))
      by (destruct (fmin_cases x a) as [->| ->]; assumption).
    destruct (IH (fmin x a) Hm Hl') as [Hin Hlb].
    destruct (fmin_lower x a Hx Ha) as [Hxm Ham].
    assert (Hfin : finite (foldl fmin (fmin x a) l)).
    { apply elem_of_cons in Hin. destruct Hin as [->|Hin]; [assumption|].
      rewrite Forall_forall in Hl'. now apply Hl'. }
    assert (Hbot : fle (foldl fmin (fmin x a) l) (fmin x a) = true)
      by (apply Hlb, elem_of_cons; auto).
    split.
    + apply elem_of_cons in Hin. rewrite !elem_of_cons.
      destruct Hin as [->|Hin]; [|auto].
      destruct (fmin_cases x a) as [->| ->]; auto.
    + intros y Hy. rewrite !elem_of_cons in Hy. destruct Hy as [->|[->|Hy]].
      * apply fle_trans with (fmin x a); auto.
      * apply fle_trans with (fmin x a); auto.
      * apply Hlb, elem_of_cons. auto.
Qed.

Lemma max_of_spec (l : list float64) :
  l <> [] -> Forall finite l ->
  max_of l ∈ l /\ forall y, y ∈ l -> fle y (max_of l) = true.
Proof.
  destruct l as [|x l]; [congruence|]. intros _ Hl.
  inversion Hl; subst. now apply foldl_fmax_spec.
Qed.

Lemma min_of_spec (l : list float64) :
  l <> [] -> Forall finite l ->
  min_of l ∈ l /\ forall y, y ∈ l -> fle (min_of l) y = true.
Proof.
  destruct l as [|x l]; [congruence|]. intros _ Hl.
  inversion Hl; subst. now apply foldl_fmin_spec.
Qed.

End Observations.
(** ** Maximum drawdown *)

Section MaxDrawdown.

Lemma positions_lookup {A} (f : nat -> A) (s : Series) (i : nat) :
  (i < length s)%nat -> map f (positions s) !! i = Some (f i).
Proof.
  intros Hi. rewrite map_fmap, list_lookup_fmap. unfold positions.
  rewrite lookup_seq_lt by exact Hi. reflexivity.
Qed.

Lemma positions_length {A} (f : nat -> A) (s : Series) :
  length (map f (positions s)) = length s.
Proof. unfold positions. now rewrite length_map, length_seq. Qed.

Lemma positive_price_represents x :
  positive_price x -> exists a, represents x a /\ 0 < a.
Proof.
  intros [Hf Hp]. destruct (finite_represents x Hf) as [a Ha].
  exists a. split; [assumption|].
  now apply (flt_represents (Fin 0) x 0 a (represents_Fin 0) Ha).
Qed.

(** The running maximum at a position: one of the prices seen so far, and
    at least each of them. *)
Lemma expanding_max_lookup (prices : Series) (i : nat) (p : float64) :
  Forall positive_price prices -> prices !! i = Some p ->
  exists M,
    expanding_max prices !! i = Some M /\
    (exists k, (k <= i)%nat /\ prices !! k = Some M) /\
    (forall k y, (k <= i)%nat -> prices !! k = Some y -> fle y M = true).
Proof.
  intros Hpos Hp.
  assert (Hlt : (i < length prices)%nat) by (eapply lookup_lt_Some; eauto).
  assert (Hfin : Forall finite (take (S i) prices)).
  { apply Forall_take. eapply Forall_impl; [exact Hpos|]. now intros x [? _]. }
  assert (Hne : take (S i) prices <> []).
  { destruct prices; [discriminate|]. simpl. discriminate. }
  exists (max_of (observations (take (S i) prices))).
  split; [unfold expanding_max; now rewrite positions_lookup|].
  rewrite observations_finite by exact Hfin.
  destruct (max_of_spec _ Hne Hfin) as [Hin Hub]. split.
  - apply elem_of_take in Hin.
    destruct Hin as (k & Hk & Hlt'). exists k. split; [lia|assumption].
  - intros k y Hk Hy. apply Hub, elem_of_take.
    exists k. split; [assumption|lia].
Qed.

(** The drawdown at a position stands for (price - peak) / peak. *)
Lemma drawdown_lookup (prices : Series) (i : nat) (p : float64) :
  Forall positive_price prices -> prices !! i = Some p ->
  exists M a b d,
    zip_with fdiv (zip_with fsub prices (expanding_max prices))
      (expanding_max prices) !! i = Some d /\
    expanding_max prices !! i = Some M /\
    represents p a /\ represents M b /\ 0 < a /\ a <= b /\
    represents d ((a - b) / b) /\
    (exists k, (k <= i)%nat /\ prices !! k = Some M) /\
    (forall k y, (k <= i)%nat -> prices !! k = Some y -> fle y M = true).
Proof.
  intros Hpos Hp.
  destruct (expanding_max_lookup prices i p Hpos Hp) as (M & HM & Hin & Hub).
  assert (Hpp : positive_price p) by (eapply Forall_lookup_1; eauto).
  destruct (positive_price_represents p Hpp) as (a & Ha & Ha0).
  destruct Hin as (k & Hk & HkM).
  assert (HMp : positive_price M) by (eapply Forall_lookup_1; eauto).
  destruct (positive_price_represents M HMp) as (b & Hb & Hb0).
  assert (Hab : a <= b).
  { apply (fle_represents p M a b Ha Hb). apply (Hub i p); [lia|assumption]. }
  exists M, a, b, (fdiv (fsub p M) M).
  repeat split; try assumption.
  - rewrite !lookup_zip_with, Hp, HM. reflexivity.
  - apply represents_div; [now apply represents_sub|assumption|lra].
  - exists k. tauto.
Qed.

Lemma Qdiv_nonpos a b : 0 < b -> a <= b -> (a - b) / b <= 0.
Proof.
  intros Hb Hab. apply Qle_shift_div_r; [assumption|]. lra.
Qed.

Lemma Qdiv_zero_iff a b : 0 < b -> ((a - b) / b == 0 <-> a == b).
Proof.
  intros Hb. split; intros H.
  - assert (E : (a - b) / b * b == a - b) by (field; lra).
    rewrite H in E. lra.
  - rewrite H. field. lra.
Qed.

End MaxDrawdown.
Section MaxDrawdownMain.

(** C4: for a series of finite positive prices the maximum drawdown, the
    minimum over time of (price - running maximum) / running maximum, is at
    most 0, and it is 0 exactly when the series never falls; for the empty
    series it is NaN. *)
Theorem max_drawdown_nonpositive (prices : Series) :
  Forall positive_price prices ->
  match prices with
  | [] => calculate_max_drawdown prices = NaN
  | _ :: _ =>
      fle (calculate_max_drawdown prices) (Fin 0) = true /\
      (is_zero (calculate_max_drawdown prices) = true <-> nondecreasing prices)
  end.
Proof.
  intros Hpos. destruct prices as [|p0 rest] eqn:Eprices; [reflexivity|].
  rewrite <- Eprices in *.
  assert (Hempty : empty prices = false) by now rewrite Eprices.
  unfold calculate_max_drawdown. rewrite Hempty. clear Hempty.
  set (dd := zip_with fdiv (zip_with fsub prices (expanding_max prices))
               (expanding_max prices)).
  assert (Hlen : length dd = length prices).
  { unfold dd. rewrite !length_zip_with. unfold expanding_max.
    rewrite positions_length. lia. }
  (* every drawdown stands for a non-positive rational *)
  assert (Hdd : forall i d, dd !! i = Some d ->
            exists p M a b, prices !! i = Some p /\
              represents p a /\ represents M b /\ 0 < a /\ a <= b /\
              represents d ((a - b) / b) /\
              (exists k, (k <= i)%nat /\ prices !! k = Some M) /\
              (forall k y, (k <= i)%nat -> prices !! k = Some y -> fle y M = true)).
  { intros i d Hd.
    assert (Hi : (i < length prices)%nat)
      by (rewrite <- Hlen; eapply lookup_lt_Some; eauto).
    destruct (lookup_lt_is_Some_2 prices i Hi) as [p Hp].
    destruct (drawdown_lookup prices i p Hpos Hp)
      as (M & a & b & d' & Hd' & _ & Ha & Hb & Ha0 & Hab & Hrep & Hin & Hub).
    fold dd in Hd'. rewrite Hd in Hd'. injection Hd' as <-.
    exists p, M, a, b. tauto. }
  assert (Hfin : Forall finite dd).
  { apply Forall_lookup_2. intros i d Hd.
    destruct (Hdd i d Hd) as (p & M & a & b & _ & _ & _ & _ & _ & Hrep & _).
    eapply represents_finite; eauto. }
  assert (Hne : dd <> []).
  { intros E. rewrite E, Eprices in Hlen. discriminate. }
  unfold series_min. rewrite dropna_no_nan
    by (eapply Forall_impl; [exact Hfin|apply finite_not_nan]).
  destruct (min_of_spec dd Hne Hfin) as [Hin Hlb].
  apply list_elem_of_lookup in Hin. destruct Hin as [im Him].
  destruct (Hdd im _ Him)
    as (pm & Mm & am & bm & Hpm & Ham & Hbm & Ham0 & Hamb & Hrm & Hinm & Hubm).
  assert (Hbm0 : 0 < bm) by lra.
  split.
  - apply (fle_represents _ _ _ 0 Hrm (represents_Fin 0)).
    now apply Qdiv_nonpos.
  - rewrite (is_zero_represents _ _ Hrm), (Qdiv_zero_iff am bm Hbm0). split.
    + (* the minimum is zero: every price equals its running maximum *)
      intros Hzero i j x y Hij Hx Hy.
      assert (Hj : (j < length dd)%nat)
        by (rewrite Hlen; eapply lookup_lt_Some; eauto).
      destruct (lookup_lt_is_Some_2 dd j Hj) as [dj Hdj].
      destruct (Hdd j dj Hdj)
        as (pj & Mj & aj & bj & Hpj & Haj & Hbj & Haj0 & Hajb & Hrj & _ & Hubj).
      rewrite Hy in Hpj. injection Hpj as <-.
      assert (Hle : fle (min_of dd) dj = true).
      { apply Hlb. eapply list_elem_of_lookup_2; eauto. }
      apply (fle_represents _ _ _ _ Hrm Hrj) in Hle.
      assert (Hbj0 : 0 < bj) by lra.
      pose proof (Qdiv_nonpos aj bj Hbj0 Hajb) as Hnp.
      assert (Hz : (am - bm) / bm == 0) by now apply Qdiv_zero_iff.
      assert (Hzj : (aj - bj) / bj == 0) by lra.
      apply (Qdiv_zero_iff aj bj Hbj0) in Hzj.
      assert (HxM : fle x Mj = true) by (apply (Hubj i x); assumption).
      assert (Hxf : positive_price x) by (eapply Forall_lookup_1; eauto).
      destruct (positive_price_represents x Hxf) as (ax & Hax & _).
      apply (fle_represents x Mj ax bj Hax Hbj) in HxM.
      apply (fle_represents x y ax aj Hax Haj). lra.
    + (* a non-decreasing series: the running maximum is the price itself *)
      intros Hmono. destruct Hinm as (k & Hk & HkM).
      pose proof (Hmono k im Mm pm Hk HkM Hpm) as Hle.
      apply (fle_represents Mm pm bm am Hbm Ham) in Hle. lra.
Qed.

Lemma max_drawdown_nonpositive_witness :
  Forall positive_price [Fin 10; Fin 12; Fin 9] /\
  fle (calculate_max_drawdown [Fin 10; Fin 12; Fin 9]) (Fin 0) = true /\
  (is_zero (calculate_max_drawdown [Fin 10; Fin 12; Fin 9]) = true <->
   nondecreasing [Fin 10; Fin 12; Fin 9]).
Proof.
  assert (H : Forall positive_price [Fin 10; Fin 12; Fin 9])
    by (repeat constructor).
  split; [exact H|].
  exact (max_drawdown_nonpositive [Fin 10; Fin 12; Fin 9] H).
Defined.

End MaxDrawdownMain.

(** ** Sums, means and variances of finite observations *)

Section Sums.

Lemma finite_Forall2 (l : list float64) :
  Forall finite l -> exists qs, Forall2 represents l qs.
Proof.
  induction 1 as [|x l Hx _ [qs IH]].
  - exists []. constructor.
  - destruct (finite_represents x Hx) as [q Hq]. exists (q :: qs). now constructor.
Qed.

Lemma foldl_fadd_represents (l : list float64) : forall qs acc a,
  Forall2 represents l qs -> represents acc a ->
  represents (foldl fadd acc l) (foldl Qplus a qs).
Proof.
  induction l as [|x l IH]; intros qs acc a Hl Hacc; inversion Hl; subst; simpl.
  - assumption.
  - apply IH; [assumption|]. now apply represents_add.
Qed.

Lemma fsum_represents (l : list float64) (qs : list Q) :
  Forall2 represents l qs -> represents (fsum l) (Qsum qs).
Proof.
  intros H. unfold fsum, Qsum.
  apply foldl_fadd_represents; [assumption|apply represents_Fin].
Qed.

Lemma foldl_Qplus_nonneg (qs : list Q) : forall a,
  0 <= a -> Forall (fun q => 0 <= q) qs -> 0 <= foldl Qplus a qs.
Proof.
  induction qs as [|q qs IH]; intros a Ha Hqs; simpl; [assumption|].
  inversion Hqs; subst. apply IH; [lra|assumption].
Qed.

Lemma of_nat_represents (n : nat) : represents (of_nat n) (inject_Z (Z.of_nat n)).
Proof. apply represents_Fin. Qed.

Lemma inject_nat_pos (n : nat) : (0 < n)%nat -> 0 < inject_Z (Z.of_nat n).
Proof.
  intros Hn. change 0 with (inject_Z 0). rewrite <- Zlt_Qlt. lia.
Qed.

Lemma mean_of_represents (l : list float64) (qs : list Q) :
  l <> [] -> Forall2 represents l qs ->
  represents (mean_of l) (Qsum qs / inject_Z (Z.of_nat (length l))).
Proof.
  intros Hne Hl. unfold mean_of.
  apply represents_div; [now apply fsum_represents|apply of_nat_represents|].
  assert (0 < inject_Z (Z.of_nat (length l))); [|lra].
  apply inject_nat_pos. destruct l; [congruence|simpl; lia].
Qed.

Lemma Qsquare_nonneg (x : Q) : 0 <= x * x.
Proof.
  destruct (Qlt_le_dec x 0) as [Hneg|Hpos].
  - assert (E : x * x == (- x) * (- x)) by ring.
    rewrite E. apply Qmult_le_0_compat; lra.
  - apply Qmult_le_0_compat; lra.
Qed.

Lemma squares_represent (l : list float64) (qs : list Q) (m : float64) (mu : Q) :
  represents m mu -> Forall2 represents l qs ->
  Forall2 represents (map (fun x => fsquare (fsub x m)) l)
    (map (fun a => (a - mu) * (a - mu)) qs).
Proof.
  intros Hm. induction 1 as [|x q l' qs' Hx _ IH]; simpl; constructor; [|assumption].
  unfold fsquare. apply represents_mul; now apply represents_sub.
Qed.

(** The sample variance of at least two finite observations is a
    non-negative finite number. *)
Lemma var_of_nonneg (l : list float64) :
  (1 < length l)%nat -> Forall finite l ->
  exists v, represents (var_of l) v /\ 0 <= v.
Proof.
  intros Hlen Hfin. destruct (finite_Forall2 l Hfin) as [qs Hqs].
  assert (Hne : l <> []) by (destruct l; [simpl in Hlen; lia|congruence]).
  pose proof (mean_of_represents l qs Hne Hqs) as Hm.
  set (mu := Qsum qs / inject_Z (Z.of_nat (length l))) in *.
  pose proof (squares_represent l qs (mean_of l) mu Hm Hqs) as Hsq.
  assert (Hn : 0 < inject_Z (Z.of_nat (length l - 1)))
    by (apply inject_nat_pos; lia).
  exists (Qsum (map (fun a => (a - mu) * (a - mu)) qs)
          / inject_Z (Z.of_nat (length l - 1))). split.
  - unfold var_of. apply represents_div;
      [now apply fsum_represents|apply of_nat_represents|lra].
  - apply Qle_shift_div_l; [assumption|].
    assert (H0 : 0 <= Qsum (map (fun a => (a - mu) * (a - mu)) qs)); [|lra].
    apply foldl_Qplus_nonneg; [lra|].
    apply Forall_forall. intros q Hq. apply list_elem_of_fmap in Hq.
    destruct Hq as (a & -> & _). apply Qsquare_nonneg.
Qed.

End Sums.

(** ** Rounding to binary64 is monotone *)

Section Rounding64.

Lemma two_pow_pos (e : Z) : 0 < 2 ^ e.
Proof. apply Qpower_0_lt. reflexivity. Qed.

Lemma two_pow_le (e1 e2 : Z) : (e1 <= e2)%Z -> 2 ^ e1 <= 2 ^ e2.
Proof. intros H. apply Qpower_le_compat_l; [exact H|]. discriminate. Qed.

Lemma two_pow_add (a b : Z) : 2 ^ (a + b) == 2 ^ a * 2 ^ b.
Proof. apply Qpower_plus. discriminate. Qed.

Lemma two_pow_succ (e : Z) : 2 ^ (e + 1) == 2 * 2 ^ e.
Proof. rewrite two_pow_add. change (2 ^ 1) with 2. ring. Qed.

Lemma two_pow_inject (a : Z) : (0 <= a)%Z -> inject_Z (2 ^ a) == 2 ^ a.
Proof. intros H. now rewrite Zpower_Qpower. Qed.

Lemma Qmake_div (n : Z) (d : positive) : n # d == inject_Z n / inject_Z (Zpos d).
Proof. apply Qmake_Qdiv. Qed.

(** The exponent brackets its argument. *)
Lemma binade_spec (q : Q) :
  0 < q -> 2 ^ binade q <= q /\ q < 2 ^ (binade q + 1).
Proof.
  intros Hq. destruct q as [n d].
  assert (Hn : (0 < n)%Z) by (unfold Qlt in Hq; simpl in Hq; lia).
  unfold binade. cbn [Qnum Qden].
  set (a := Z.log2 n). set (b := Z.log2 (Zpos d)).
  pose proof (Z.log2_spec n Hn) as [Ha1 Ha2]. fold a in Ha1, Ha2.
  pose proof (Z.log2_spec (Zpos d) ltac:(lia)) as [Hb1 Hb2]. fold b in Hb1, Hb2.
  assert (Ha0 : (0 <= a)%Z) by apply Z.log2_nonneg.
  assert (Hb0 : (0 <= b)%Z) by apply Z.log2_nonneg.
  assert (HA1 : 2 ^ a <= inject_Z n)
    by (rewrite <- two_pow_inject by lia; now rewrite <- Zle_Qle).
  assert (HA2 : inject_Z n < 2 * 2 ^ a).
  { rewrite <- two_pow_succ, <- two_pow_inject by lia. now rewrite <- Zlt_Qlt. }
  assert (HB1 : 2 ^ b <= inject_Z (Zpos d))
    by (rewrite <- two_pow_inject by lia; now rewrite <- Zle_Qle).
  assert (HB2 : inject_Z (Zpos d) < 2 * 2 ^ b).
  { rewrite <- two_pow_succ, <- two_pow_inject by lia. now rewrite <- Zlt_Qlt. }
  assert (Eg : 2 ^ (a - b) * 2 ^ b == 2 ^ a).
  { rewrite <- two_pow_add. now replace (a - b + b)%Z with a by lia. }
  pose proof (two_pow_pos a) as PA. pose proof (two_pow_pos b) as PB.
  pose proof (two_pow_pos (a - b)) as PG.
  assert (HD : 0 < inject_Z (Zpos d)) by (rewrite Zlt_Qlt in *; reflexivity).
  assert (Eq : (n # d) * inject_Z (Zpos d) == inject_Z n).
  { rewrite Qmake_div. field. lra. }
  set (A := 2 ^ a) in *. set (B := 2 ^ b) in *. set (G := 2 ^ (a - b)) in *.
  set (N := inject_Z n) in *. set (D := inject_Z (Zpos d)) in *.
  set (x := n # d) in *.
  assert (Hup : x < 2 * G).
  { apply Qnot_le_lt. intros Hc.
    assert (H1 : 2 * G * D <= x * D) by (apply Qmult_le_compat_r; lra).
    assert (H2 : G * B <= G * D) by (apply Qmult_le_l; lra).
    lra. }
  assert (Hlo : G < 2 * x).
  { apply Qnot_le_lt. intros Hc.
    assert (H1 : 2 * x * D <= G * D) by (apply Qmult_le_compat_r; lra).
    assert (H2 : G * D < G * (2 * B)) by (apply Qmult_lt_l; lra).
    lra. }
  destruct (Qleb G x) eqn:E; q_tests.
  - split; [exact E|]. rewrite two_pow_succ. fold G. exact Hup.
  - replace (a - b - 1 + 1)%Z with (a - b)%Z by lia. fold G.
    split; [|exact E].
    assert (E2 : G == 2 * 2 ^ (a - b - 1)).
    { unfold G. rewrite <- two_pow_succ.
      now replace (a - b - 1 + 1)%Z with (a - b)%Z by lia. }
    lra.
Qed.

Lemma binade_mono (q1 q2 : Q) :
  0 < q1 -> q1 <= q2 -> (binade q1 <= binade q2)%Z.
Proof.
  intros H1 H12.
  destruct (binade_spec q1 H1) as [L1 _].
  destruct (binade_spec q2 ltac:(lra)) as [_ U2].
  destruct (Z_lt_le_dec (binade q2) (binade q1)) as [Hlt|Hle]; [|exact Hle].
  pose proof (two_pow_le (binade q2 + 1) (binade q1) ltac:(lia)). lra.
Qed.

(** Rounding to the nearest integer, ties to even, is monotone. *)
Lemma round_half_even_mono (a b : Q) :
  0 <= a -> a <= b -> (round_half_even a <= round_half_even b)%Z.
Proof.
  intros Ha Hab. destruct a as [n1 d1], b as [n2 d2].
  unfold Qle in Ha, Hab. cbn [Qnum Qden] in Ha, Hab.
  unfold round_half_even. cbn [Qnum Qden].
  assert (Hn1 : (0 <= n1)%Z) by lia.
  pose proof (Z.div_mod n1 (Zpos d1) ltac:(lia)) as E1.
  pose proof (Z.mod_pos_bound n1 (Zpos d1) ltac:(lia)) as R1.
  pose proof (Z.div_mod n2 (Zpos d2) ltac:(lia)) as E2.
  pose proof (Z.mod_pos_bound n2 (Zpos d2) ltac:(lia)) as R2.
  set (f1 := (n1 / Zpos d1)%Z) in *. set (r1 := (n1 mod Zpos d1)%Z) in *.
  set (f2 := (n2 / Zpos d2)%Z) in *. set (r2 := (n2 mod Zpos d2)%Z) in *.
  set (D1 := Zpos d1) in *. set (D2 := Zpos d2) in *.
  assert (HD1 : (0 < D1)%Z) by (unfold D1; lia).
  assert (HD2 : (0 < D2)%Z) by (unfold D2; lia).
  assert (Hf : (f1 <= f2)%Z).
  { destruct (Z_lt_le_dec f2 f1) as [Hlt|]; [|assumption]. exfalso.
    assert (H1 : (D1 * (f2 + 1) <= D1 * f1)%Z) by nia.
    assert (H2 : (n2 * D1 < (f2 + 1) * D2 * D1)%Z) by nia.
    assert (H3 : (f1 * D1 * D2 <= n1 * D2)%Z) by nia.
    nia. }
  destruct (Z.eq_dec f1 f2) as [Heq|Hne].
  - (* the same integer part: compare the fractions *)
    assert (Hr : (r1 * D2 <= r2 * D1)%Z) by nia.
    rewrite <- Heq.
    destruct (2 * r1 <? D1)%Z eqn:T1;
      [apply Z.ltb_lt in T1|apply Z.ltb_ge in T1].
    + destruct (2 * r2 <? D2)%Z; [lia|].
      destruct (D2 <? 2 * r2)%Z; [lia|]. destruct (Z.even f1); lia.
    + assert (T2 : (D2 <= 2 * r2)%Z) by nia.
      replace (2 * r2 <? D2)%Z with false by (symmetry; apply Z.ltb_ge; lia).
      destruct (D1 <? 2 * r1)%Z eqn:T3;
        [apply Z.ltb_lt in T3|apply Z.ltb_ge in T3].
      * assert (T4 : (D2 < 2 * r2)%Z) by nia.
        replace (D2 <? 2 * r2)%Z with true by (symmetry; apply Z.ltb_lt; lia).
        lia.
      * destruct (D2 <? 2 * r2)%Z; destruct (Z.even f1); lia.
  - (* a smaller integer part *)
    assert (Hlt : (f1 + 1 <= f2)%Z) by lia.
    assert (U1 : ((if (2 * r1 <? D1)%Z then f1
                   else if (D1 <? 2 * r1)%Z then f1 + 1
                   else if Z.even f1 then f1 else f1 + 1) <= f1 + 1)%Z).
    { destruct (2 * r1 <? D1)%Z; [lia|].
      destruct (D1 <? 2 * r1)%Z; [lia|]. destruct (Z.even f1); lia. }
    assert (L2 : (f2 <= (if (2 * r2 <? D2)%Z then f2
                         else if (D2 <? 2 * r2)%Z then f2 + 1
                         else if Z.even f2 then f2 else f2 + 1))%Z).
    { destruct (2 * r2 <? D2)%Z; [lia|].
      destruct (D2 <? 2 * r2)%Z; [lia|]. destruct (Z.even f2); lia. }
    lia.
Qed.

Lemma round_half_even_inject (k : Z) : round_half_even (inject_Z k) = k.
Proof.
  unfold round_half_even, inject_Z. cbn [Qnum Qden].
  rewrite Z.div_1_r, Z.mod_1_r. reflexivity.
Qed.

Lemma round_half_even_nonneg (a : Q) : 0 <= a -> (0 <= round_half_even a)%Z.
Proof.
  intros Ha. change 0%Z with (round_half_even (inject_Z 0)) at 1.
  rewrite round_half_even_inject.
  pose proof (round_half_even_mono (inject_Z 0) a ltac:(apply Qle_refl) Ha) as H.
  now rewrite round_half_even_inject in H.
Qed.

(** The value before the overflow and zero tests: the rounded significand
    times the spacing. *)
Lemma round_pos_value_mono (q1 q2 : Q) :
  0 < q1 -> q1 <= q2 ->
  inject_Z (round_half_even (q1 / 2 ^ (Z.max (binade q1) (-1022) - 52)))
    * 2 ^ (Z.max (binade q1) (-1022) - 52)
  <= inject_Z (round_half_even (q2 / 2 ^ (Z.max (binade q2) (-1022) - 52)))
    * 2 ^ (Z.max (binade q2) (-1022) - 52).
Proof.
  intros H1 H12. assert (H2 : 0 < q2) by lra.
  pose proof (binade_mono q1 q2 H1 H12) as Hb.
  set (e1 := Z.max (binade q1) (-1022)). set (e2 := Z.max (binade q2) (-1022)).
  assert (He : (e1 <= e2)%Z) by (unfold e1, e2; lia).
  pose proof (two_pow_pos (e1 - 52)) as P1. pose proof (two_pow_pos (e2 - 52)) as P2.
  destruct (Z.eq_dec e1 e2) as [Heq|Hne].
  - rewrite <- Heq. apply Qmult_le_compat_r; [|lra].
    rewrite <- Zle_Qle. apply round_half_even_mono.
    + apply Qle_shift_div_l; lra.
    + apply Qmult_le_compat_r; [exact H12|]. apply Qlt_le_weak, Qinv_lt_0_compat, P1.
  - assert (Hlt : (e1 < e2)%Z) by lia.
    apply Qle_trans with (2 ^ (e1 + 1)); [|apply Qle_trans with (2 ^ e2)].
    + (* the smaller value stays within its binade *)
      destruct (binade_spec q1 H1) as [_ U1].
      assert (Hq1 : q1 < 2 ^ (e1 + 1)).
      { eapply Qlt_le_trans; [exact U1|]. apply two_pow_le. unfold e1. lia. }
      assert (E53 : 2 ^ (e1 + 1) == inject_Z (2 ^ 53) * 2 ^ (e1 - 52)).
      { rewrite two_pow_inject by lia. rewrite <- two_pow_add.
        now replace (53 + (e1 - 52))%Z with (e1 + 1)%Z by lia. }
      rewrite E53. apply Qmult_le_compat_r; [|lra].
      rewrite <- Zle_Qle.
      assert (Hm : (round_half_even (q1 / 2 ^ (e1 - 52))
                    <= round_half_even (inject_Z (2 ^ 53)))%Z).
      { apply round_half_even_mono.
        - apply Qle_shift_div_l; lra.
        - apply Qle_shift_div_r; [exact P1|]. rewrite <- E53. lra. }
      now rewrite round_half_even_inject in Hm.
    + apply two_pow_le. lia.
    + (* the larger value is at least the start of its binade *)
      assert (Eb : e2 = binade q2) by (unfold e1, e2 in *; lia).
      destruct (binade_spec q2 H2) as [L2 _]. rewrite <- Eb in L2.
      assert (E52 : 2 ^ e2 == inject_Z (2 ^ 52) * 2 ^ (e2 - 52)).
      { rewrite two_pow_inject by lia. rewrite <- two_pow_add.
        now replace (52 + (e2 - 52))%Z with e2 by lia. }
      rewrite E52. apply Qmult_le_compat_r; [|lra].
      rewrite <- Zle_Qle.
      assert (Hm : (round_half_even (inject_Z (2 ^ 52))
                    <= round_half_even (q2 / 2 ^ (e2 - 52)))%Z).
      { apply round_half_even_mono.
        - change 0 with (inject_Z 0). rewrite <- Zle_Qle. lia.
        - apply Qle_shift_div_l; [exact P2|]. rewrite <- E52. exact L2. }
      now rewrite round_half_even_inject in Hm.
Qed.

Lemma round_pos_value_nonneg (q : Q) :
  0 < q ->
  0 <= inject_Z (round_half_even (q / 2 ^ (Z.max (binade q) (-1022) - 52)))
       * 2 ^ (Z.max (binade q) (-1022) - 52).
Proof.
  intros Hq. pose proof (two_pow_pos (Z.max (binade q) (-1022) - 52)) as P.
  apply Qmult_le_0_compat; [|lra].
  change 0 with (inject_Z 0). rewrite <- Zle_Qle.
  apply round_half_even_nonneg. apply Qle_shift_div_l; lra.
Qed.

(** A rounded positive value is a non-negative number or +inf. *)
Lemma round_pos_cases (q : Q) :
  0 < q ->
  round_pos q = PInf \/ exists v, round_pos q = Fin v /\ 0 <= v.
Proof.
  intros Hq. pose proof (round_pos_value_nonneg q Hq) as Hv. unfold round_pos.
  destruct (Qleb _ _); [now left|right].
  destruct (_ =? 0)%Z; eexists; (split; [reflexivity|]); [lra|exact Hv].
Qed.

Lemma round_pos_mono (q1 q2 : Q) :
  0 < q1 -> q1 <= q2 -> fle (round_pos q1) (round_pos q2) = true.
Proof.
  intros H1 H12. assert (H2 : 0 < q2) by lra.
  pose proof (round_pos_value_mono q1 q2 H1 H12) as Hm.
  pose proof (round_pos_value_nonneg q1 H1) as Hn1.
  pose proof (round_pos_value_nonneg q2 H2) as Hn2.
  unfold round_pos.
  set (n1 := round_half_even (q1 / 2 ^ (Z.max (binade q1) (-1022) - 52))) in *.
  set (n2 := round_half_even (q2 / 2 ^ (Z.max (binade q2) (-1022) - 52))) in *.
  set (u1 := 2 ^ (Z.max (binade q1) (-1022) - 52)) in *.
  set (u2 := 2 ^ (Z.max (binade q2) (-1022) - 52)) in *.
  destruct (Qleb (2 ^ 1024) (inject_Z n2 * u2)) eqn:O2; q_tests.
  - destruct (Qleb (2 ^ 1024) (inject_Z n1 * u1)); [reflexivity|].
    now destruct (n1 =? 0)%Z.
  - replace (Qleb (2 ^ 1024) (inject_Z n1 * u1)) with false
      by (symmetry; q_tests; lra).
    destruct (n1 =? 0)%Z eqn:Z1, (n2 =? 0)%Z eqn:Z2; simpl; q_tests; try lra.
    apply Z.eqb_eq in Z2. rewrite Z2 in Hm.
    assert (E0 : inject_Z 0 * u2 == 0) by ring. lra.
Qed.

Lemma fle_zero_neg (x : float64) :
  fle (Fin 0) x = true -> fle (fneg x) (Fin 0) = true.
Proof. destruct x; simpl; intros H; try discriminate; float_solve. Qed.

Lemma fle_fneg (x y : float64) : fle x y = true -> fle (fneg y) (fneg x) = true.
Proof. destruct x, y; simpl; intros H; try discriminate; float_solve. Qed.

Lemma round_pos_nonneg (q : Q) : 0 < q -> fle (Fin 0) (round_pos q) = true.
Proof.
  intros Hq. destruct (round_pos_cases q Hq) as [-> | (v & -> & Hv)];
    [reflexivity|]. simpl. q_tests. exact Hv.
Qed.

(** Order among the values that are not NaN. *)
Lemma fle_transitive (x y z : float64) :
  fle x y = true -> fle y z = true -> fle x z = true.
Proof. destruct x, y, z; simpl; intros H1 H2; try discriminate; float_solve. Qed.

Lemma round64_nonneg (q : Q) : 0 <= q -> fle (Fin 0) (round64 q) = true.
Proof.
  intros Hq. unfold round64.
  destruct (Qeqb q 0) eqn:E0; [reflexivity|]. q_tests.
  replace (Qltb 0 q) with true by (symmetry; q_tests; lra).
  apply round_pos_nonneg. lra.
Qed.

Lemma round64_nonpos (q : Q) : q <= 0 -> fle (round64 q) (Fin 0) = true.
Proof.
  intros Hq. unfold round64.
  destruct (Qeqb q 0) eqn:E0; [reflexivity|]. q_tests.
  replace (Qltb 0 q) with false by (symmetry; q_tests; lra).
  apply fle_zero_neg, round_pos_nonneg. lra.
Qed.

Lemma round64_mono (q1 q2 : Q) :
  q1 <= q2 -> fle (round64 q1) (round64 q2) = true.
Proof.
  intros H12.
  destruct (Qlt_le_dec 0 q1) as [P1|N1].
  - (* both positive *)
    unfold round64.
    replace (Qeqb q1 0) with false by (symmetry; q_tests; lra).
    replace (Qeqb q2 0) with false by (symmetry; q_tests; lra).
    replace (Qltb 0 q1) with true by (symmetry; q_tests; lra).
    replace (Qltb 0 q2) with true by (symmetry; q_tests; lra).
    now apply round_pos_mono.
  - destruct (Qlt_le_dec q2 0) as [N2|P2].
    + (* both negative *)
      unfold round64.
      replace (Qeqb q1 0) with false by (symmetry; q_tests; lra).
      replace (Qeqb q2 0) with false by (symmetry; q_tests; lra).
      replace (Qltb 0 q1) with false by (symmetry; q_tests; lra).
      replace (Qltb 0 q2) with false by (symmetry; q_tests; lra).
      apply fle_fneg, round_pos_mono; lra.
    + eapply fle_transitive; [now apply round64_nonpos|now apply round64_nonneg].
Qed.

Lemma round64_not_nan (q : Q) : isnan (round64 q) = false.
Proof.
  unfold round64. destruct (Qeqb q 0) eqn:E0; [reflexivity|]. q_tests.
  destruct (Qltb 0 q) eqn:E1; q_tests.
  - destruct (round_pos_cases q E1) as [-> | (v & -> & _)]; reflexivity.
  - destruct (round_pos_cases (- q) ltac:(lra)) as [-> | (v & -> & _)];
      [reflexivity|]. simpl. now destruct (Qeqb v 0).
Qed.

(** Storing preserves order: a smaller exact value is never stored as a
    larger float. *)
Lemma fle_negzero_r (z : float64) : fle z (Fin 0) = true -> fle z NegZero = true.
Proof. destruct z; simpl; intros H; try discriminate; float_solve. Qed.

Lemma fle_negzero_l (z : float64) : fle (Fin 0) z = true -> fle NegZero z = true.
Proof. destruct z; simpl; intros H; try discriminate; float_solve. Qed.

Lemma fle_pinf (z : float64) : isnan z = false -> fle z PInf = true.
Proof. now destruct z. Qed.

Lemma fle_ninf (z : float64) : isnan z = false -> fle NInf z = true.
Proof. now destruct z. Qed.

Lemma rnd_mono (x y : float64) : fle x y = true -> fle (rnd x) (rnd y) = true.
Proof.
  destruct x as [a| | | |], y as [b| | | |]; intros H; cbn [rnd];
    try discriminate; try reflexivity; simpl in H; q_tests.
  - now apply round64_mono.
  - now apply fle_negzero_r, round64_nonpos.
  - apply fle_pinf, round64_not_nan.
  - now apply fle_negzero_l, round64_nonneg.
  - apply fle_ninf, round64_not_nan.
Qed.

Lemma rnd_isnan (x : float64) : isnan (rnd x) = isnan x.
Proof. destruct x; simpl; try reflexivity. apply round64_not_nan. Qed.

End Rounding64.

(** ** Bollinger bands *)

Section Bollinger.

Variable sqrtQ : Q -> Q.
Hypothesis sqrtQ_nonneg : forall q, 0 <= q -> 0 <= sqrtQ q.

Lemma fsqrt_nonneg (x : float64) (v : Q) :
  represents x v -> 0 <= v ->
  exists s, represents (fsqrt sqrtQ x) s /\ 0 <= s.
Proof using sqrtQ_nonneg.
  destruct x; unfold represents; simpl; intros Hx Hv; try contradiction.
  - destruct (Qltb q 0) eqn:E; q_tests; [lra|].
    exists (sqrtQ q). split; [reflexivity|]. apply sqrtQ_nonneg. lra.
  - exists 0. split; [reflexivity|lra].
Qed.

(** Wherever the rolling deviation is defined it is a non-negative number. *)
Lemma rolling_std_lookup (w : nat) (s : Series) (i : nat) (sd : float64) :
  rolling_std sqrtQ w s !! i = Some sd -> isnan sd = false ->
  exists d, represents sd d /\ 0 <= d.
Proof using sqrtQ_nonneg.
  intros Hsd Hnan.
  assert (Hi : (i < length s)%nat).
  { apply lookup_lt_Some in Hsd. unfold rolling_std in Hsd.
    now rewrite positions_length in Hsd. }
  unfold rolling_std in Hsd. rewrite positions_lookup in Hsd by exact Hi.
  injection Hsd as <-.
  destruct ((w <=? length (observations (window_slice w s i)))%nat
            && (1 <? length (observations (window_slice w s i)))%nat) eqn:E;
    [|discriminate].
  apply andb_true_iff in E. destruct E as [_ E]. apply Nat.ltb_lt in E.
  destruct (var_of_nonneg _ E (observations_are_finite _)) as (v & Hv & Hv0).
  now apply (fsqrt_nonneg _ v).
Qed.

Lemma fadd_not_nan x y : isnan (fadd x y) = false -> isnan x = false /\ isnan y = false.
Proof. destruct x, y; simpl; intros; try discriminate; auto. Qed.

Lemma fmul_not_nan x y : isnan (fmul x y) = false -> isnan x = false /\ isnan y = false.
Proof. destruct x, y; simpl; intros; try discriminate; auto. Qed.

Lemma fmul_two_nonneg (x : float64) :
  fle (Fin 0) x = true -> fle (Fin 0) (fmul x (Fin 2)) = true.
Proof.
  destruct x as [q| | | |]; intros H; try discriminate; try reflexivity.
  cbn [fmul signbit]. cbn [fle value] in H.
  destruct (Qeqb q 0) eqn:E; cbn [orb].
  - destruct (xorb (Qltb q 0) (Qltb 2 0)); reflexivity.
  - replace (Qeqb 2 0) with false by reflexivity.
    cbn [fle value]. q_tests. nra.
Qed.

Lemma fmul_two_zero (x : float64) :
  is_zero x = true -> is_zero (fmul x (Fin 2)) = true.
Proof.
  destruct x as [q| | | |]; intros H; try discriminate; [|reflexivity].
  cbn [is_zero] in H. cbn [fmul signbit]. rewrite H. cbn [orb].
  destruct (xorb (Qltb q 0) (Qltb 2 0)); reflexivity.
Qed.

Lemma rnd_zero (x : float64) : is_zero x = true -> is_zero (rnd x) = true.
Proof.
  destruct x as [q| | | |]; intros H; try discriminate; [|reflexivity].
  cbn [is_zero] in H. cbn [rnd]. unfold round64. rewrite H. reflexivity.
Qed.

(** Twice a stored non-negative deviation is not negative. *)
Lemma doubled_nonneg (sd : float64) :
  fle (Fin 0) sd = true -> fle (Fin 0) (mul64 (rnd sd) (Fin 2)) = true.
Proof.
  intros H. unfold mul64.
  change (Fin 0) with (rnd (Fin 0)) at 1. apply rnd_mono, fmul_two_nonneg.
  change (Fin 0) with (rnd (Fin 0)) at 1. now apply rnd_mono.
Qed.

Lemma doubled_zero (sd : float64) :
  is_zero sd = true -> is_zero (mul64 (rnd sd) (Fin 2)) = true.
Proof. intros H. unfold mul64. now apply rnd_zero, fmul_two_zero, rnd_zero. Qed.

Lemma band_order (m r : float64) :
  fle (Fin 0) r = true ->
  isnan (fadd m r) = false -> isnan (fsub m r) = false ->
  fle (fsub m r) (fadd m r) = true.
Proof.
  unfold fsub.
  destruct m, r; simpl; intros H Hu Hl; try discriminate; try reflexivity;
    float_solve.
Qed.

Lemma band_equal (m z : float64) :
  is_zero z = true -> isnan m = false ->
  fle (fadd m z) (fsub m z) = true.
Proof.
  unfold fsub.
  destruct m, z; simpl; intros Hz Hm; try discriminate; try reflexivity;
    float_solve.
Qed.

(** C6, as amended: at every position where both Bollinger bands are
    defined (not NaN) the upper band is at least the lower band, and where
    the 20-period rolling standard deviation is zero the two are equal.
    Equal bands do not show a zero deviation: a deviation small against
    the average is absorbed when the bands are stored.  The square root
    only needs to be non-negative on non-negative arguments. *)
Theorem bollinger_upper_ge_lower (close : Series) (i : nat) (u l sd : float64) :
  bollinger_upper sqrtQ close !! i = Some u ->
  bollinger_lower sqrtQ close !! i = Some l ->
  rolling_std sqrtQ 20 close !! i = Some sd ->
  isna u = false -> isna l = false ->
  fge u l = true /\ (is_zero sd = true -> feqb u l = true).
Proof using sqrtQ_nonneg.
  unfold bollinger_upper, bollinger_lower, isna.
  rewrite !lookup_zip_with.
  intros Hu Hl Hsd Hun Hln. rewrite Hsd in Hu, Hl.
  destruct (rolling_mean 20 close !! i) as [m|] eqn:Hm; [|discriminate].
  simpl in Hu, Hl. injection Hu as <-. injection Hl as <-.
  unfold band_upper, band_lower, add64, sub64 in *.
  rewrite rnd_isnan in Hun, Hln.
  set (r := mul64 (rnd sd) (Fin 2)) in *.
  destruct (fadd_not_nan _ _ Hun) as [Hmn Hrn].
  assert (Hsn : isnan sd = false).
  { unfold r, mul64 in Hrn. rewrite rnd_isnan in Hrn.
    apply fmul_not_nan in Hrn. destruct Hrn as [Hrn _].
    now rewrite rnd_isnan in Hrn. }
  destruct (rolling_std_lookup 20 close i sd Hsd Hsn) as (d & Hd & Hd0).
  assert (Hs0 : fle (Fin 0) sd = true)
    by (apply (fle_represents _ _ _ _ (represents_Fin 0) Hd); exact Hd0).
  pose proof (doubled_nonneg sd Hs0) as Hr0. fold r in Hr0.
  split.
  - unfold fge. apply rnd_mono. now apply band_order.
  - intros Hz. pose proof (doubled_zero sd Hz) as Hrz. fold r in Hrz.
    unfold feqb. apply andb_true_iff. split; apply rnd_mono.
    + now apply band_equal.
    + now apply band_order.
Qed.

End Bollinger.

(** ** Trend classification *)

Section Trend.

Lemma Forall2_represents_Fin (qs : list Q) : Forall2 represents (map Fin qs) qs.
Proof. induction qs; simpl; constructor; [apply represents_Fin|assumption]. Qed.

Lemma Forall2_represents_finite (l : list float64) (qs : list Q) :
  Forall2 represents l qs -> Forall finite l.
Proof.
  induction 1 as [|x q l' qs' Hx _ IH]; constructor; [|assumption].
  eapply represents_finite; eauto.
Qed.

(** The moving average over a full window of finite values. *)
Lemma rolling_mean_finite (w i : nat) (s : Series) (qs : list Q) :
  Forall2 represents s qs -> (0 < w)%nat -> (w <= S i)%nat -> (i < length s)%nat ->
  exists m,
    rolling_mean w s !! i = Some m /\
    represents m (Qsum (drop (S i - w) (take (S i) qs)) / inject_Z (Z.of_nat w)).
Proof.
  intros Hs Hw Hwi Hi.
  assert (Hwin : Forall2 represents (window_slice w s i)
                   (drop (S i - w) (take (S i) qs)))
    by (unfold window_slice; now apply Forall2_drop, Forall2_take).
  assert (Hlen : length (window_slice w s i) = w).
  { unfold window_slice. rewrite length_drop, length_take. lia. }
  assert (Hfin : Forall finite (window_slice w s i))
    by (eapply Forall2_represents_finite; eauto).
  exists (mean_of (window_slice w s i)). split.
  - unfold rolling_mean. rewrite positions_lookup by exact Hi.
    rewrite observations_finite by exact Hfin. rewrite Hlen.
    rewrite Nat.leb_refl. replace (0 <? w)%nat with true
      by (symmetry; now apply Nat.ltb_lt).
    reflexivity.
  - apply represents_eq
      with (Qsum (drop (S i - w) (take (S i) qs))
            / inject_Z (Z.of_nat (length (window_slice w s i)))).
    + apply mean_of_represents; [|exact Hwin].
      intros E. rewrite E in Hlen. simpl in Hlen. lia.
    + rewrite Hlen. reflexivity.
Qed.

(** Position arithmetic of the two [iloc] reads. *)
Lemma iloc_from_end (s : Series) (k : nat) :
  (1 <= k)%nat -> (k <= length s)%nat ->
  iloc s (- Z.of_nat k) =
    match s !! (length s - k)%nat with
    | Some x => Ok x
    | None => Raise IndexError
    end.
Proof.
  intros Hk Hlen. unfold iloc.
  replace (- Z.of_nat k <? 0)%Z with true by (symmetry; apply Z.ltb_lt; lia).
  replace ((0 <=? Z.of_nat (length s) + - Z.of_nat k)%Z) with true
    by (symmetry; apply Z.leb_le; lia).
  replace ((Z.of_nat (length s) + - Z.of_nat k <? Z.of_nat (length s))%Z) with true
    by (symmetry; apply Z.ltb_lt; lia).
  simpl. replace (Z.to_nat (Z.of_nat (length s) + - Z.of_nat k)) with (length s - k)%nat by lia.
  reflexivity.
Qed.

Lemma half_window (w : nat) :
  ((- Z.of_nat w) / 2 = - Z.of_nat ((w + 1) / 2))%Z.
Proof.
  assert (H : (Z.of_nat ((w + 1) / 2) = (Z.of_nat w + 1) / 2)%Z).
  { rewrite Nat2Z.inj_div. f_equal. lia. }
  rewrite H. clear H.
  pose proof (Z.div_mod (- Z.of_nat w) 2 ltac:(lia)) as H1.
  pose proof (Z.mod_pos_bound (- Z.of_nat w) 2 ltac:(lia)) as H2.
  pose proof (Z.div_mod (Z.of_nat w + 1) 2 ltac:(lia)) as H3.
  pose proof (Z.mod_pos_bound (Z.of_nat w + 1) 2 ltac:(lia)) as H4.
  lia.
Qed.

(** The rule: the label compares the moving average at the last position
    with the one [(window + 1) / 2] positions before the end. *)
Lemma determine_trend_rule (prices : Series) (window : nat) (cur prev : float64) :
  (1 <= window)%nat -> (window <= length prices)%nat ->
  rolling_mean window prices !! (length prices - 1)%nat = Some cur ->
  rolling_mean window prices !! (length prices - (window + 1) / 2)%nat = Some prev ->
  determine_trend prices window = Ok (trend_label cur prev).
Proof.
  intros Hw Hlen Hcur Hprev. unfold determine_trend.
  replace (length prices <? window)%nat with false
    by (symmetry; apply Nat.ltb_ge; lia).
  assert (Hl : length (rolling_mean window prices) = length prices)
    by (unfold rolling_mean; apply positions_length).
  assert (Hhalf : (1 <= (window + 1) / 2 <= window)%nat).
  { pose proof (Nat.div_mod_eq (window + 1) 2) as Hd.
    pose proof (Nat.mod_upper_bound (window + 1) 2 ltac:(lia)) as Hr.
    lia. }
  change (-1)%Z with (- Z.of_nat 1)%Z.
  rewrite iloc_from_end by (try rewrite Hl; lia).
  rewrite Hl, Hcur. unfold bind at 1.
  rewrite half_window, iloc_from_end by (try rewrite Hl; lia).
  rewrite Hl, Hprev. unfold bind, trend_label, isna, fgt.
  set (change := fmul (fdiv (fsub cur prev) prev) (Fin 100)).
  destruct (isnan cur || isnan prev); [reflexivity|].
  destruct (flt (Fin 2) change); [reflexivity|].
  destruct (flt change (Fin (-2))); reflexivity.
Qed.

Lemma determine_trend_short (prices : Series) (window : nat) :
  (length prices < window)%nat ->
  determine_trend prices window = Ok "Insufficient Data"%string.
Proof.
  intros H. unfold determine_trend.
  now replace (length prices <? window)%nat with true
    by (symmetry; apply Nat.ltb_lt; lia).
Qed.

End Trend.
Section TrendSynthetic.

Lemma Qscaled_gt (c q : Q) : 0 < q -> (2 < (c - q) / q * 100 <-> 2 * q < (c - q) * 100).
Proof.
  intros Hq.
  assert (E : (c - q) / q * 100 * q == (c - q) * 100) by (field; lra).
  split; intros H; nra.
Qed.

Lemma Qscaled_lt (c q : Q) : 0 < q -> ((c - q) / q * 100 < -2 <-> (c - q) * 100 < -2 * q).
Proof.
  intros Hq.
  assert (E : (c - q) / q * 100 * q == (c - q) * 100) by (field; lra).
  split; intros H; nra.
Qed.

Lemma trend_label_represents (cur prev : float64) (c q : Q) :
  represents cur c -> represents prev q -> 0 < q ->
  trend_label cur prev =
    (if Qltb (2 * q) ((c - q) * 100) then "Upward"
     else if Qltb ((c - q) * 100) (-2 * q) then "Downward"
     else "Sideways")%string.
Proof.
  intros Hc Hq Hq0.
  assert (Hch : represents (fmul (fdiv (fsub cur prev) prev) (Fin 100))
                  ((c - q) / q * 100)).
  { apply represents_mul; [|apply represents_Fin].
    apply represents_div; [now apply represents_sub|assumption|lra]. }
  assert (E1 : flt (Fin 2) (fmul (fdiv (fsub cur prev) prev) (Fin 100))
               = Qltb (2 * q) ((c - q) * 100)).
  { apply eq_iff_eq_true.
    rewrite (flt_represents _ _ _ _ (represents_Fin 2) Hch), Qltb_true.
    now apply Qscaled_gt. }
  assert (E2 : flt (fmul (fdiv (fsub cur prev) prev) (Fin 100)) (Fin (-2))
               = Qltb ((c - q) * 100) (-2 * q)).
  { apply eq_iff_eq_true.
    rewrite (flt_represents _ _ _ _ Hch (represents_Fin (-2))), Qltb_true.
    now apply Qscaled_lt. }
  unfold trend_label.
  rewrite (represents_not_nan _ _ Hc), (represents_not_nan _ _ Hq).
  cbn [orb]. now rewrite E1, E2.
Qed.

(** The label of a 30-point series of finite values with window 20, from
    the two window sums. *)
Lemma determine_trend_30 (qs : list Q) :
  length qs = 30%nat ->
  0 < Qsum (drop 1 (take 21 qs)) ->
  determine_trend (map Fin qs) 20 =
    Ok (let c := Qsum (drop 10 (take 30 qs)) / 20 in
        let q := Qsum (drop 1 (take 21 qs)) / 20 in
        if Qltb (2 * q) ((c - q) * 100) then "Upward"
        else if Qltb ((c - q) * 100) (-2 * q) then "Downward"
        else "Sideways")%string.
Proof.
  intros Hlen Hpos.
  assert (Hl : length (map Fin qs) = 30%nat) by now rewrite length_map.
  destruct (rolling_mean_finite 20 29 (map Fin qs) qs
              (Forall2_represents_Fin qs)) as (cur & Hcur & Hc); try lia.
  destruct (rolling_mean_finite 20 20 (map Fin qs) qs
              (Forall2_represents_Fin qs)) as (prev & Hprev & Hq); try lia.
  rewrite (determine_trend_rule (map Fin qs) 20 cur prev); try lia.
  - f_equal. cbv zeta. apply trend_label_represents.
    + exact Hc.
    + exact Hq.
    + simpl Nat.sub in *. change (inject_Z (Z.of_nat 20)) with 20.
      apply Qlt_shift_div_l; lra.
  - rewrite Hl. exact Hcur.
  - rewrite Hl. exact Hprev.
Qed.

End TrendSynthetic.

Section TrendTheorem.

Lemma Qltb_ext (a b c d : Q) : (a < b <-> c < d) -> Qltb a b = Qltb c d.
Proof. intros H. apply eq_iff_eq_true. now rewrite !Qltb_true. Qed.

(** The label of a 30-point series from the sums of the two windows. *)
Lemma determine_trend_30_sums (qs : list Q) (sc sq : Q) :
  length qs = 30%nat ->
  Qsum (drop 10 (take 30 qs)) == sc ->
  Qsum (drop 1 (take 21 qs)) == sq ->
  0 < sq ->
  determine_trend (map Fin qs) 20 =
    Ok (if Qltb (2 * sq) ((sc - sq) * 100) then "Upward"
        else if Qltb ((sc - sq) * 100) (-2 * sq) then "Downward"
        else "Sideways")%string.
Proof.
  intros Hlen Hc Hq Hpos.
  assert (Hpos' : 0 < Qsum (drop 1 (take 21 qs))) by (rewrite Hq; exact Hpos).
  rewrite (determine_trend_30 qs Hlen Hpos').
  cbv zeta. f_equal.
  assert (Ec : sc == 20 * (Qsum (drop 10 (take 30 qs)) / 20))
    by (rewrite Hc; field).
  assert (Eq : sq == 20 * (Qsum (drop 1 (take 21 qs)) / 20))
    by (rewrite Hq; field).
  set (c := Qsum (drop 10 (take 30 qs)) / 20) in *.
  set (q := Qsum (drop 1 (take 21 qs)) / 20) in *.
  rewrite (Qltb_ext (2 * q) ((c - q) * 100) (2 * sq) ((sc - sq) * 100))
    by (split; intros H; lra).
  rewrite (Qltb_ext ((c - q) * 100) (-2 * q) ((sc - sq) * 100) (-2 * sq))
    by (split; intros H; lra).
  reflexivity.
Qed.

Lemma rising_sums (p : Q) :
  Qsum (drop 10 (take 30 (rising_values p 30))) == 20 * p + 390 /\
  Qsum (drop 1 (take 21 (rising_values p 30))) == 20 * p + 210.
Proof. unfold rising_values, Qsum, inject_Z. simpl. split; ring. Qed.

Lemma falling_sums (p : Q) :
  Qsum (drop 10 (take 30 (rev (rising_values p 30)))) == 20 * p + 190 /\
  Qsum (drop 1 (take 21 (rev (rising_values p 30)))) == 20 * p + 370.
Proof. unfold rising_values, Qsum, inject_Z. simpl. split; ring. Qed.

Lemma flat_sums (c : Q) :
  Qsum (drop 10 (take 30 (repeat c 30))) == 20 * c /\
  Qsum (drop 1 (take 21 (repeat c 30))) == 20 * c.
Proof. unfold Qsum. simpl. split; ring. Qed.

Lemma foldl_Qplus_bounds (lo hi : Q) (qs : list Q) : forall a,
  Forall (fun q => lo <= q /\ q <= hi) qs ->
  a + inject_Z (Z.of_nat (length qs)) * lo <= foldl Qplus a qs /\
  foldl Qplus a qs <= a + inject_Z (Z.of_nat (length qs)) * hi.
Proof.
  induction qs as [|q qs IH]; intros a Hb.
  - cbn [foldl length]. change (inject_Z (Z.of_nat 0)) with 0. lra.
  - apply Forall_cons in Hb. destruct Hb as [[Hq1 Hq2] Hb].
    destruct (IH (a + q) Hb) as [IH1 IH2]. cbn [foldl length].
    assert (E : inject_Z (Z.of_nat (S (length qs)))
                == inject_Z (Z.of_nat (length qs)) + 1).
    { rewrite Nat2Z.inj_succ. unfold Z.succ. now rewrite inject_Z_plus. }
    rewrite E. set (n := inject_Z (Z.of_nat (length qs))) in *.
    split; nra.
Qed.

(** A full window of prices that are at least [lo] has a mean of at least
    [lo]. *)
Lemma window_mean_lower (w : nat) (qs : list Q) (i : nat) (lo hi : Q) :
  (1 <= w)%nat -> (w <= S i)%nat -> (i < length qs)%nat ->
  Forall (fun q => lo <= q /\ q <= hi) qs ->
  lo <= window_mean w qs i.
Proof.
  intros Hw Hwi Hi Hqs. unfold window_mean, Qsum.
  assert (Hwin : Forall (fun q => lo <= q /\ q <= hi) (drop (S i - w) (take (S i) qs)))
    by now apply Forall_drop, Forall_take.
  assert (Hlen : length (drop (S i - w) (take (S i) qs)) = w)
    by (rewrite length_drop, length_take; lia).
  destruct (foldl_Qplus_bounds lo hi _ 0 Hwin) as [H1 _].
  rewrite Hlen in H1.
  assert (Hn : 0 < inject_Z (Z.of_nat w)).
  { change 0 with (inject_Z 0). rewrite <- Zlt_Qlt. lia. }
  apply Qle_shift_div_l; [exact Hn|]. lra.
Qed.

Lemma ordinary_prices_positive (qs : list Q) :
  ordinary_prices qs ->
  exists lo hi, 0 < lo /\ Forall (fun q => lo <= q /\ q <= hi) qs.
Proof.
  intros (_ & lo & Hlo & _ & Hall). exists lo, (1000 * lo). split; [|exact Hall].
  assert (H : 0 < 1 / 10 ^ 300).
  { apply Qlt_shift_div_l; [|lra]. apply Qpower_0_lt. lra. }
  lra.
Qed.

(** The label from the exact means of the two windows compared. *)
Lemma determine_trend_means (qs : list Q) (window : nat) :
  (1 <= window)%nat -> (window + (window + 1) / 2 <= length qs + 1)%nat ->
  0 < window_mean window qs (length qs - (window + 1) / 2) ->
  determine_trend (map Fin qs) window =
    Ok (let c := window_mean window qs (length qs - 1) in
        let q := window_mean window qs (length qs - (window + 1) / 2) in
        if Qltb (2 * q) ((c - q) * 100) then "Upward"
        else if Qltb ((c - q) * 100) (-2 * q) then "Downward"
        else "Sideways")%string.
Proof.
  intros Hw Hlen Hpos.
  assert (Hhalf : (1 <= (window + 1) / 2 <= window)%nat).
  { pose proof (Nat.div_mod_eq (window + 1) 2) as Hd.
    pose proof (Nat.mod_upper_bound (window + 1) 2 ltac:(lia)) as Hr.
    lia. }
  assert (Hl : length (map Fin qs) = length qs) by now rewrite length_map.
  destruct (rolling_mean_finite window (length qs - 1) (map Fin qs) qs
              (Forall2_represents_Fin qs)) as (cur & Hcur & Hc); try lia.
  destruct (rolling_mean_finite window (length qs - (window + 1) / 2)
              (map Fin qs) qs (Forall2_represents_Fin qs))
    as (prev & Hprev & Hq); try lia.
  rewrite (determine_trend_rule (map Fin qs) window cur prev); try lia.
  - f_equal. cbv zeta. apply trend_label_represents.
    + exact Hc.
    + exact Hq.
    + exact Hpos.
  - rewrite Hl. exact Hcur.
  - rewrite Hl. exact Hprev.
Qed.

(** Away from the threshold the label is decided by the margin. *)
Lemma determine_trend_margins (qs : list Q) (window : nat) :
  (1 <= window)%nat -> (window + (window + 1) / 2 <= length qs + 1)%nat ->
  ordinary_prices qs ->
  let cur := window_mean window qs (length qs - 1) in
  let prev := window_mean window qs (length qs - (window + 1) / 2) in
  (201 * prev <= 10000 * (cur - prev) ->
   determine_trend (map Fin qs) window = Ok "Upward"%string) /\
  (10000 * (cur - prev) <= - (201) * prev ->
   determine_trend (map Fin qs) window = Ok "Downward"%string) /\
  (- (199) * prev <= 10000 * (cur - prev) /\ 10000 * (cur - prev) <= 199 * prev ->
   determine_trend (map Fin qs) window = Ok "Sideways"%string).
Proof.
  intros Hw Hlen Hord cur prev.
  assert (Hhalf : (1 <= (window + 1) / 2 <= window)%nat).
  { pose proof (Nat.div_mod_eq (window + 1) 2) as Hd.
    pose proof (Nat.mod_upper_bound (window + 1) 2 ltac:(lia)) as Hr.
    lia. }
  destruct (ordinary_prices_positive qs Hord) as (lo & hi & Hlo & Hall).
  assert (Hpos : 0 < prev).
  { pose proof (window_mean_lower window qs (length qs - (window + 1) / 2)
                  lo hi Hw ltac:(lia) ltac:(lia) Hall) as H.
    fold prev in H. lra. }
  rewrite (determine_trend_means qs window Hw Hlen Hpos).
  cbv zeta. fold cur prev.
  repeat split; intros H; f_equal; q_branch; q_tests; try reflexivity; lra.
Qed.

(** C3, as amended: the label is "Insufficient Data" below the window
    length and when one of the two averages compared is NaN; otherwise it
    compares the moving average at the last position with the one
    [(window + 1) / 2] positions before the end against a 2% change of the
    earlier average: for positive prices of ordinary size a rise of 2.01%
    or more is "Upward", a fall of 2.01% or more "Downward" and a change
    within 1.99% "Sideways".  For the 30-point series [p, p+1, ..., p+29]
    with window 20 the label is "Upward" up to [p = 439] and "Sideways"
    from [p = 440] on, for its reversal "Downward" up to [p = 431] and
    "Sideways" from [p = 432] on, and for a constant positive series
    "Sideways". *)
Theorem determine_trend_classification :
  (forall (prices : Series) (window : nat),
      (length prices < window)%nat ->
      determine_trend prices window = Ok "Insufficient Data"%string) /\
  (forall (prices : Series) (window : nat) (cur prev : float64),
      (1 <= window)%nat -> (window <= length prices)%nat ->
      rolling_mean window prices !! (length prices - 1)%nat = Some cur ->
      rolling_mean window prices !! (length prices - (window + 1) / 2)%nat = Some prev ->
      isnan cur || isnan prev = true ->
      determine_trend prices window = Ok "Insufficient Data"%string) /\
  (forall (qs : list Q) (window : nat),
      (1 <= window)%nat -> (window + (window + 1) / 2 <= length qs + 1)%nat ->
      ordinary_prices qs ->
      let cur := window_mean window qs (length qs - 1) in
      let prev := window_mean window qs (length qs - (window + 1) / 2) in
      (201 * prev <= 10000 * (cur - prev) ->
       determine_trend (map Fin qs) window = Ok "Upward"%string) /\
      (10000 * (cur - prev) <= - (201) * prev ->
       determine_trend (map Fin qs) window = Ok "Downward"%string) /\
      (- (199) * prev <= 10000 * (cur - prev) /\
       10000 * (cur - prev) <= 199 * prev ->
       determine_trend (map Fin qs) window = Ok "Sideways"%string)) /\
  (forall p : Q, 0 < p -> p <= 10 ^ 12 ->
      (p <= 439 -> determine_trend (rising p 30) 20 = Ok "Upward"%string) /\
      (440 <= p -> determine_trend (rising p 30) 20 = Ok "Sideways"%string) /\
      (p <= 431 -> determine_trend (rev (rising p 30)) 20 = Ok "Downward"%string) /\
      (432 <= p ->
       determine_trend (rev (rising p 30)) 20 = Ok "Sideways"%string)) /\
  (forall c : Q, 1 / 10 ^ 300 <= c -> c <= 10 ^ 300 ->
      determine_trend (flat c 30) 20 = Ok "Sideways"%string).
Proof.
  split; [exact determine_trend_short|].
  split.
  { intros prices window cur prev Hw Hlen Hcur Hprev Hnan.
    rewrite (determine_trend_rule prices window cur prev Hw Hlen Hcur Hprev).
    unfold trend_label. now rewrite Hnan. }
  split; [exact determine_trend_margins|].
  split.
  - intros p Hp _.
    destruct (rising_sums p) as [Hc Hq]. destruct (falling_sums p) as [Hc' Hq'].
    unfold rising. rewrite <- map_rev.
    rewrite (determine_trend_30_sums (rising_values p 30) _ _ eq_refl Hc Hq) by lra.
    rewrite (determine_trend_30_sums (rev (rising_values p 30)) _ _ eq_refl Hc' Hq')
      by lra.
    repeat split; intros H; f_equal; q_branch; q_tests; try reflexivity; lra.
  - intros c Hc0 _.
    assert (H : 0 < 1 / 10 ^ 300).
    { apply Qlt_shift_div_l; [|lra]. apply Qpower_0_lt. lra. }
    destruct (flat_sums c) as [Hc Hq]. unfold flat.
    rewrite (determine_trend_30_sums (repeat c 30) _ _ eq_refl Hc Hq) by lra.
    f_equal. q_branch; q_tests; try reflexivity; lra.
Qed.

End TrendTheorem.

(** ** Relative strength index *)

Section RSI.

Lemma rsi_lookup (close : Series) (i : nat) (gain loss : float64) :
  rsi_gain close !! i = Some gain -> rsi_loss close !! i = Some loss ->
  rsi close !! i = Some (rsi_of_rs (relative_strength gain loss)).
Proof.
  intros Hg Hl. unfold rsi.
  rewrite map_fmap, list_lookup_fmap, lookup_zip_with, Hg, Hl. reflexivity.
Qed.

(** With a zero divisor and a positive dividend the quotient is an infinity
    and the index is exactly 100, whatever the sign of the zero. *)
Lemma rsi_of_zero_loss (gain loss : float64) :
  is_zero loss = true -> flt (Fin 0) gain = true ->
  rsi_of_rs (relative_strength gain loss) = Fin 100.
Proof.
  unfold rsi_of_rs, relative_strength.
  destruct gain as [g| | | |], loss as [l| | | |]; simpl;
    intros Hl Hg; try discriminate; q_tests.
  - assert (E1 : Qeqb l 0 = true) by (q_tests; exact Hl).
    assert (E2 : Qeqb g 0 = false) by (q_tests; lra).
    assert (E3 : Qltb g 0 = false) by (q_tests; lra).
    assert (E4 : Qltb l 0 = false) by (q_tests; lra).
    rewrite E1, E2, E3, E4. reflexivity.
  - assert (E2 : Qeqb g 0 = false) by (q_tests; lra).
    assert (E3 : Qltb g 0 = false) by (q_tests; lra).
    rewrite E2, E3. reflexivity.
  - assert (E4 : Qltb l 0 = false) by (q_tests; lra).
    rewrite E4. reflexivity.
  - reflexivity.
Qed.

(** With a zero divisor and a zero dividend the quotient 0/0 is NaN and so
    is the index. *)
Lemma rsi_of_zero_gain_and_loss (gain loss : float64) :
  is_zero loss = true -> is_zero gain = true ->
  rsi_of_rs (relative_strength gain loss) = NaN.
Proof.
  unfold rsi_of_rs, relative_strength.
  destruct gain as [g| | | |], loss as [l| | | |]; simpl;
    intros Hl Hg; try discriminate; try rewrite Hl; try rewrite Hg; reflexivity.
Qed.

Lemma nonneg_observations (l : list float64) :
  Forall nonneg_if_finite l ->
  exists qs, Forall2 represents (observations l) qs /\ Forall (fun q => 0 <= q) qs.
Proof.
  unfold observations. induction 1 as [|x l Hx _ (qs & Hqs & Hpos)].
  - exists []. split; constructor.
  - destruct (isfinite x) eqn:E.
    + rewrite filter_cons_True by exact E. destruct (Hx E) as (q & Hq & Hq0).
      exists (q :: qs). split; constructor; assumption.
    + rewrite filter_cons_False by (rewrite E; discriminate). eauto.
Qed.

(** A moving average of non-negative values is NaN or non-negative. *)
Lemma rolling_mean_nonneg (w : nat) (s : Series) (i : nat) (m : float64) :
  Forall nonneg_if_finite s -> rolling_mean w s !! i = Some m ->
  isnan m = true \/ exists a, represents m a /\ 0 <= a.
Proof.
  intros Hs Hm.
  assert (Hi : (i < length s)%nat).
  { apply lookup_lt_Some in Hm. unfold rolling_mean in Hm.
    now rewrite positions_length in Hm. }
  unfold rolling_mean in Hm. rewrite positions_lookup in Hm by exact Hi.
  injection Hm as <-.
  destruct ((w <=? length (observations (window_slice w s i)))%nat
            && (0 <? length (observations (window_slice w s i)))%nat) eqn:E;
    [|now left].
  right. apply andb_true_iff in E. destruct E as [_ E]. apply Nat.ltb_lt in E.
  destruct (nonneg_observations (window_slice w s i)) as (qs & Hqs & Hpos).
  { unfold window_slice. now apply Forall_drop, Forall_take. }
  assert (Hne : observations (window_slice w s i) <> [])
    by (intros E0; rewrite E0 in E; simpl in E; lia).
  eexists. split; [apply mean_of_represents; eassumption|].
  apply Qle_shift_div_l; [apply inject_nat_pos; lia|].
  assert (H0 : 0 <= Qsum qs) by (apply foldl_Qplus_nonneg; [lra|assumption]).
  lra.
Qed.

Lemma gains_nonneg (delta : Series) :
  Forall nonneg_if_finite (where_ delta (fun d => fgt d (Fin 0)) (Fin 0)).
Proof.
  unfold where_. rewrite map_fmap. apply Forall_fmap, Forall_forall.
  intros d _. unfold compose, nonneg_if_finite, fgt.
  destruct (flt (Fin 0) d) eqn:E.
  - intros Hf. destruct (finite_represents d Hf) as [q Hq]. exists q.
    split; [assumption|].
    apply (flt_represents (Fin 0) d 0 q (represents_Fin 0) Hq) in E. lra.
  - intros _. exists 0. split; [apply represents_Fin|lra].
Qed.

(** The average gain is NaN, zero or positive. *)
Lemma rsi_gain_sign (close : Series) (i : nat) (gain : float64) :
  rsi_gain close !! i = Some gain ->
  isnan gain = true \/ is_zero gain = true \/ flt (Fin 0) gain = true.
Proof.
  intros Hg. unfold rsi_gain in Hg.
  destruct (rolling_mean_nonneg 14 _ i gain (gains_nonneg (diff close)) Hg)
    as [Hn|(a & Ha & Ha0)]; [now left|right].
  destruct (Qlt_le_dec 0 a) as [Hpos|Hle].
  - right. now apply (flt_represents (Fin 0) gain 0 a (represents_Fin 0) Ha).
  - left. apply (is_zero_represents gain a Ha). lra.
Qed.

(** C1, as amended: where the 14-day average loss is zero the division
    [gain / loss] divides by zero without raising; with a positive average
    gain the index is the defined value 100, and only when the average gain
    is zero as well (a flat window) or is itself undefined is it NaN.  No
    other value occurs. *)
Theorem rsi_zero_average_loss (close : Series) (i : nat) (gain loss : float64) :
  rsi_gain close !! i = Some gain ->
  rsi_loss close !! i = Some loss ->
  is_zero loss = true ->
  (flt (Fin 0) gain = true -> rsi close !! i = Some (Fin 100)) /\
  (is_zero gain = true -> rsi close !! i = Some NaN) /\
  (rsi close !! i = Some (Fin 100) \/ rsi close !! i = Some NaN).
Proof.
  intros Hg Hl Hz. rewrite (rsi_lookup close i gain loss Hg Hl).
  split; [|split].
  - intros H. now rewrite rsi_of_zero_loss.
  - intros H. now rewrite rsi_of_zero_gain_and_loss.
  - destruct (rsi_gain_sign close i gain Hg) as [Hn|[H0|Hp]].
    + right. destruct gain; try discriminate. reflexivity.
    + right. now rewrite rsi_of_zero_gain_and_loss.
    + left. now rewrite rsi_of_zero_loss.
Qed.

End RSI.

(** ** The indicator dictionary *)

(** The entries the statements above are about are the ones stored. *)
Lemma technical_indicators_entries (sqrtQ : Q -> Q) (history : DataFrame) :
  history <> [] ->
  calculate_technical_indicators sqrtQ history !! "RSI"%string
    = Some (rsi (close_column history)) /\
  calculate_technical_indicators sqrtQ history !! "Bollinger_Upper"%string
    = Some (bollinger_upper sqrtQ (close_column history)) /\
  calculate_technical_indicators sqrtQ history !! "Bollinger_Lower"%string
    = Some (bollinger_lower sqrtQ (close_column history)) /\
  calculate_technical_indicators sqrtQ history !! "SMA_20"%string
    = Some (rolling_mean 20 (close_column history)).
Proof.
  intros Hne. unfold calculate_technical_indicators.
  destruct history as [|row rest]; [congruence|]. cbn [df_empty].
  generalize (close_column (row :: rest)). intros close.
  generalize (rsi close) (bollinger_upper sqrtQ close) (bollinger_lower sqrtQ close)
    (rolling_mean 20 close) (rolling_mean 50 close) (rolling_mean 200 close).
  intros. repeat split; by simplify_map_eq.
Qed.

(** ** Summary statistics of short series *)

Section ShortSeries.

Variable sqrtQ : Q -> Q.

Lemma fdiv_nan_r (x : float64) : fdiv x NaN = NaN.
Proof. now destruct x. Qed.

Lemma dropna_length (s : Series) : (length (dropna s) <= length s)%nat.
Proof. unfold dropna. apply length_filter. Qed.

(** The first percentage change has no predecessor: it is NaN and dropped. *)
Lemma calculate_returns_length (prices : Series) :
  (length (calculate_returns prices) <= length prices - 1)%nat.
Proof.
  destruct prices as [|a rest]; [simpl; lia|].
  unfold calculate_returns, pct_change, shift1. cbn [empty zip_with].
  rewrite fdiv_nan_r. cbn [fsub fneg fadd].
  unfold dropna. rewrite filter_cons_False by (simpl; congruence).
  etransitivity; [apply length_filter|].
  rewrite length_zip_with. simpl. lia.
Qed.

Lemma series_std_short (returns : Series) :
  (length returns <= 1)%nat -> series_std sqrtQ returns = NaN.
Proof.
  intros H. unfold series_std.
  pose proof (dropna_length returns) as Hd.
  replace (length (dropna returns) <=? 1)%nat with true
    by (symmetry; apply Nat.leb_le; lia).
  reflexivity.
Qed.

Lemma calculate_volatility_short (returns : Series) (periods : Z) :
  (length returns <= 1)%nat -> calculate_volatility sqrtQ returns periods = NaN.
Proof.
  intros H. unfold calculate_volatility.
  destruct (empty returns); [reflexivity|].
  now rewrite series_std_short.
Qed.

Lemma calculate_sharpe_ratio_short (returns : Series) (rf : float64) (periods : Z) :
  periods <> 0%Z -> (length returns <= 1)%nat ->
  calculate_sharpe_ratio sqrtQ returns rf periods = Ok NaN.
Proof.
  intros Hp H. unfold calculate_sharpe_ratio.
  destruct (empty returns); [reflexivity|].
  unfold py_div, of_Z.
  assert (E : is_zero (Fin (inject_Z periods)) = false).
  { simpl. q_tests. intros Hq. apply Hp.
    unfold Qeq, inject_Z in Hq. simpl in Hq. lia. }
  rewrite E. unfold bind.
  now rewrite series_std_short, fdiv_nan_r by assumption.
Qed.

Lemma max_drawdown_single (p : Q) :
  ~ p == 0 ->
  is_zero (calculate_max_drawdown [Fin p]) = true /\
  isnan (calculate_max_drawdown [Fin p]) = false.
Proof.
  intros Hp.
  assert (E : Qeqb p 0 = false) by (q_tests; exact Hp).
  assert (E0 : Qeqb (p + - p) 0 = true) by (q_tests; ring).
  assert (Hd : fdiv (fsub (Fin p) (Fin p)) (Fin p) = Fin 0 \/
               fdiv (fsub (Fin p) (Fin p)) (Fin p) = NegZero).
  { unfold fsub. cbn [fneg]. rewrite E. cbn [fadd fdiv is_zero]. rewrite E, E0.
    destruct (xorb (signbit (Fin (p + - p))) (signbit (Fin p))); auto. }
  unfold calculate_max_drawdown, expanding_max, series_min, positions.
  cbn [empty length seq map take].
  change (observations [Fin p]) with [Fin p].
  cbn [max_of foldl zip_with].
  destruct Hd as [-> | ->]; vm_compute; split; reflexivity.
Qed.

(** C5, as amended: an empty price series gives the empty returns series,
    NaN for the volatility, the Sharpe ratio and the maximum drawdown, and
    the label "Insufficient Data"; a series too short for a statistic gives
    the same sentinel for it (at most one price: no returns; at most two
    prices: NaN volatility and Sharpe ratio; fewer prices than the window:
    "Insufficient Data").  None of these calls raises, and none of these
    results is a zero.  The maximum drawdown has no sentinel for a short
    series that is not empty: of a single finite non-zero price it is the
    number zero.  Stated for a non-zero [periods] of machine size, as the
    default 252, and a window of at least 1, as the default 20. *)
Theorem short_series_yield_sentinels
    (prices : Series) (risk_free_rate : float64) (periods : Z) (window : nat) :
  periods <> 0%Z -> (- 2 ^ 63 <= periods < 2 ^ 63)%Z -> (1 <= window)%nat ->
  (prices = [] ->
     calculate_returns prices = [] /\
     calculate_volatility sqrtQ (calculate_returns prices) periods = NaN /\
     calculate_sharpe_ratio sqrtQ (calculate_returns prices) risk_free_rate periods
       = Ok NaN /\
     calculate_max_drawdown prices = NaN /\
     determine_trend prices window = Ok "Insufficient Data"%string) /\
  ((length prices <= 1)%nat -> calculate_returns prices = []) /\
  ((length prices <= 2)%nat ->
     calculate_volatility sqrtQ (calculate_returns prices) periods = NaN /\
     calculate_sharpe_ratio sqrtQ (calculate_returns prices) risk_free_rate periods
       = Ok NaN) /\
  ((length prices < window)%nat ->
     determine_trend prices window = Ok "Insufficient Data"%string) /\
  (forall p : Q, ~ p == 0 -> prices = [Fin p] ->
     is_zero (calculate_max_drawdown prices) = true /\
     isnan (calculate_max_drawdown prices) = false).
Proof.
  intros Hp _ Hw.
  split; [|split; [|split; [|split]]].
  - intros ->. repeat split. apply determine_trend_short. simpl. lia.
  - intros Hlen. pose proof (calculate_returns_length prices) as Hl.
    destruct (calculate_returns prices); [reflexivity|simpl in Hl; lia].
  - intros Hlen. split.
    + apply calculate_volatility_short.
      pose proof (calculate_returns_length prices). lia.
    + apply calculate_sharpe_ratio_short; [assumption|].
      pose proof (calculate_returns_length prices). lia.
  - apply determine_trend_short.
  - intros p Hp0 ->. now apply max_drawdown_single.
Qed.

End ShortSeries.

(** ** Fetching a stock bundle *)

Section GetStockData.

Variable unicode_upper : N -> list N.

Lemma empty_dict_has_no_symbol (d : gmap string pyvalue) :
  (size d =? 0)%nat || negb (bool_decide (is_Some (d !! "symbol"%string))) = true ->
  d !! "symbol"%string = None.
Proof.
  intros H. apply orb_true_iff in H. destruct H as [H|H].
  - apply Nat.eqb_eq, map_size_empty_iff in H. subst. apply lookup_empty.
  - apply negb_true_iff, bool_decide_eq_false in H.
    now apply eq_None_not_Some.
Qed.

Lemma dict_without_symbol (d : gmap string pyvalue) :
  d !! "symbol"%string = None ->
  (size d =? 0)%nat || negb (bool_decide (is_Some (d !! "symbol"%string))) = true.
Proof.
  intros H. apply orb_true_iff. right.
  apply negb_true_iff, bool_decide_eq_false. rewrite H. apply is_Some_None.
Qed.

(** C2: [get_stock_data] returns [None] exactly when the source has no
    descriptive info, or info without a symbol field, or an empty history,
    or when a query raises; the return value is the same [None] for every
    one of these causes. *)
Theorem get_stock_data_not_found (yf : YFinance) (symbol period : str) :
  not_found_cause yf symbol period <->
  (get_stock_data unicode_upper yf symbol period).1 = None.
Proof.
  unfold get_stock_data, fetch_bundle. split.
  - intros [t Ht Hi|t d Ht Hi Hd|t d Ht Hi Hh|e Ht|t e Ht Hi|t d e Ht Hi Hh];
      rewrite Ht; cbn [bind]; try rewrite Hi; cbn [bind]; try reflexivity.
    + now rewrite (dict_without_symbol d Hd).
    + destruct (_ || _); [reflexivity|]. now rewrite Hh.
    + destruct (_ || _); [reflexivity|]. now rewrite Hh.
  - destruct (yf symbol) as [t|e] eqn:Ht; cbn [bind]; [|intros _; eapply TickerRaises; eauto].
    destruct (info t) as [[d|]|e] eqn:Hi; cbn [bind].
    + destruct (_ || _) eqn:Hd.
      * intros _. eapply InfoWithoutSymbol; eauto.
        now apply empty_dict_has_no_symbol.
      * destruct (history t period) as [[|row rest]|e] eqn:Hh; cbn [bind df_empty].
        -- intros _. eapply EmptyHistory; eauto.
        -- discriminate.
        -- intros _. eapply HistoryRaises; eauto.
    + intros _. eapply NoInfo; eauto.
    + intros _. eapply InfoRaises; eauto.
Qed.

End GetStockData.

(** ** Market summary *)

Section MarketSummary.

(** The entry stored for one index depends on that index's fetch alone. *)
Lemma market_summary_lookup (yf : YFinance) (name : string) (symbol : str) :
  (name, symbol) ∈ indices ->
  get_market_summary yf !! name =
    match index_quote yf symbol with
    | Ok (Some q) => Some q
    | Ok None | Raise _ => None
    end.
Proof.
  intros Hin. unfold get_market_summary, indices in *. cbn [foldl].
  rewrite !elem_of_cons, elem_of_nil in Hin.
  destruct Hin as [H|[H|[H|[H|[]]]]]; inversion H; subst; clear H;
    generalize (index_quote yf (py "^GSPC")) (index_quote yf (py "^DJI"))
      (index_quote yf (py "^IXIC")) (index_quote yf (py "^RUT"));
    intros [[q1|]|e1] [[q2|]|e2] [[q3|]|e3] [[q4|]|e4]; by simplify_map_eq.
Qed.

Lemma close_column_length (hist : DataFrame) :
  length (close_column hist) = length hist.
Proof. apply length_map. Qed.

(** A successful fetch with rows: the quote from the last two closes. *)
Lemma index_quote_ok (yf : YFinance) (symbol : str) (t : Ticker) (hist : DataFrame) :
  yf symbol = Ok t -> history t (py "2d") = Ok hist -> hist <> [] ->
  exists cur prev,
    close_column hist !! (length hist - 1)%nat = Some cur /\
    (if (1 <? length hist)%nat
     then close_column hist !! (length hist - 2)%nat = Some prev
     else prev = cur) /\
    index_quote yf symbol =
      Ok (Some {| current := cur;
                  change := fsub cur prev;
                  change_pct := fmul (fdiv (fsub cur prev) prev) (Fin 100) |}).
Proof.
  intros Ht Hh Hne. unfold index_quote. rewrite Ht. cbn [bind]. rewrite Hh.
  cbn [bind]. destruct hist as [|row rest] eqn:E; [congruence|].
  rewrite <- E in *. cbn [df_empty]. replace (df_empty hist) with false by now rewrite E.
  assert (Hlen : (1 <= length hist)%nat) by (rewrite E; simpl; lia).
  pose proof (close_column_length hist) as Hcl.
  destruct (lookup_lt_is_Some_2 (close_column hist) (length hist - 1)
              ltac:(lia)) as [cur Hcur].
  change (-1)%Z with (- Z.of_nat 1)%Z.
  rewrite iloc_from_end by lia. rewrite Hcl, Hcur. cbn [bind].
  destruct (1 <? length hist)%nat eqn:Hlt.
  - apply Nat.ltb_lt in Hlt.
    destruct (lookup_lt_is_Some_2 (close_column hist) (length hist - 2)
                ltac:(lia)) as [prev Hprev].
    change (-2)%Z with (- Z.of_nat 2)%Z.
    rewrite iloc_from_end by lia. rewrite Hcl, Hprev. cbn [bind].
    exists cur, prev. auto.
  - cbn [bind]. exists cur, cur. auto.
Qed.



(** C10, as amended: with a single row the index is stored with the close as
    its own previous value; the change is zero for a finite close and the
    percentage change is zero for a finite close other than zero. *)
Theorem market_summary_single_row
    (yf : YFinance) (name : string) (symbol : str) (t : Ticker) (row : PricePoint) :
  (name, symbol) ∈ indices ->
  yf symbol = Ok t -> history t (py "2d") = Ok [row] ->
  exists q,
    get_market_summary yf !! name = Some q /\
    current q = Close row /\
    change q = fsub (Close row) (Close row) /\
    change_pct q = fmul (fdiv (change q) (Close row)) (Fin 100) /\
    (isfinite (Close row) = true -> is_zero (change q) = true) /\
    (isfinite (Close row) = true -> is_zero (Close row) = false ->
     is_zero (change_pct q) = true).
Proof.
  intros Hin Ht Hh. rewrite (market_summary_lookup yf name symbol Hin).
  destruct (index_quote_ok yf symbol t [row] Ht Hh ltac:(discriminate))
    as (cur & prev & Hcur & Hprev & Hq).
  simpl in Hcur, Hprev. injection Hcur as <-. subst prev. rewrite Hq.
  eexists. split; [reflexivity|]. cbn [current change change_pct].
  repeat split.
  - intros Hf. destruct (finite_represents _ Hf) as [c Hc].
    apply (is_zero_represents _ (c - c)); [now apply represents_sub|lra].
  - intros Hf Hnz. destruct (finite_represents _ Hf) as [c Hc].
    assert (Hc0 : ~ c == 0).
    { intros E. apply (is_zero_represents _ _ Hc) in E. congruence. }
    apply (is_zero_represents _ ((c - c) / c * 100)).
    + apply represents_mul; [|apply represents_Fin].
      apply represents_div; [now apply represents_sub|assumption|assumption].
    + field. assumption.
Qed.

End MarketSummary.

(** ** The regular expression of [validate_symbol] *)

Section Regex.

Lemma run_seq (r1 r2 : regex) (c c' : cursor) :
  In c' (run (Seq r1 r2) c) <-> exists c1, In c1 (run r1 c) /\ In c' (run r2 c1).
Proof.
  cbn [run]. rewrite in_concat. split.
  - intros (l & Hl & Hc). apply in_map_iff in Hl. destruct Hl as (c1 & <- & Hc1).
    eauto.
  - intros (c1 & Hc1 & Hc). exists (run r2 c1). split; [|assumption].
    apply in_map_iff. eauto.
Qed.

Lemma run_range (lo hi : N) (n : nat) (s : list N) (c' : cursor) :
  In c' (run (Range lo hi) (n, s)) <->
  exists x rest, s = x :: rest /\ (lo <= x /\ x <= hi)%N /\ c' = (S n, rest).
Proof.
  cbn [run fst snd]. destruct s as [|x rest].
  - split; [intros []|intros (x & rest & H & _); discriminate].
  - destruct ((lo <=? x)%N && (x <=? hi)%N) eqn:E.
    + apply andb_true_iff in E. destruct E as [E1%N.leb_le E2%N.leb_le].
      split.
      * intros [<-|[]]. exists x, rest. auto.
      * intros (x' & rest' & H & _ & ->). injection H as <- <-. now left.
    + split; [intros []|].
      intros (x' & rest' & H & [H1 H2] & _). injection H as <- <-.
      apply N.leb_le in H1, H2. rewrite H1, H2 in E. discriminate.
Qed.

Lemma run_char (a : N) (n : nat) (s : list N) (c' : cursor) :
  In c' (run (Char a) (n, s)) <-> exists rest, s = a :: rest /\ c' = (S n, rest).
Proof.
  cbn [run fst snd]. destruct s as [|x rest].
  - split; [intros []|intros (rest & H & _); discriminate].
  - destruct (x =? a)%N eqn:E.
    + apply N.eqb_eq in E. subst. split.
      * intros [<-|[]]. eauto.
      * intros (rest' & H & ->). injection H as <-. now left.
    + split; [intros []|]. intros (rest' & H & _). injection H as -> _.
      rewrite N.eqb_refl in E. discriminate.
Qed.

Lemma repeat_run_unfold (step : cursor -> list cursor) (lo hi : nat) (c : cursor) :
  repeat_run step lo hi c =
    (match lo with O => [c] | S _ => [] end)
    ++ match hi with
       | O => []
       | S hi' => concat (map (repeat_run step (pred lo) hi') (step c))
       end.
Proof. destruct hi; reflexivity. Qed.

(** Between [lo] and [hi] characters of one range. *)
Lemma run_repeat_range (a b : N) (hi : nat) : forall (lo n : nat) (s : list N) (c' : cursor),
  In c' (run (Repeat (Range a b) lo hi) (n, s)) <->
  exists pre rest,
    s = pre ++ rest /\ (lo <= length pre)%nat /\ (length pre <= hi)%nat /\
    Forall (fun x => (a <= x /\ x <= b)%N) pre /\ c' = ((n + length pre)%nat, rest).
Proof.
  cbn [run]. induction hi as [|hi IH]; intros lo n s c'.
  - rewrite repeat_run_unfold, app_nil_r. split.
    + destruct lo; [|intros []]. intros [<-|[]].
      exists [], s. repeat split; simpl; auto. f_equal. lia.
    + intros (pre & rest & -> & Hlo & Hhi & _ & ->).
      destruct pre; [|simpl in Hhi; lia]. simpl in Hlo.
      destruct lo; [|lia]. left. simpl. f_equal. lia.
  - rewrite repeat_run_unfold, in_app_iff, in_concat. split.
    + intros [H|(l & Hl & Hc)].
      * destruct lo; [|destruct H]. destruct H as [<-|[]].
        exists [], s. repeat split; simpl; auto; try lia. f_equal. lia.
      * apply in_map_iff in Hl. destruct Hl as ([n1 s1] & <- & Hc1).
        apply (run_range a b n s (n1, s1)) in Hc1.
        destruct Hc1 as (x & rest & -> & Hx & Hc1). injection Hc1 as -> ->.
        apply IH in Hc.
        destruct Hc as (pre & rest' & -> & Hlo & Hhi & Hall & ->).
        exists (x :: pre), rest'. repeat split; simpl; auto; try lia.
        f_equal. lia.
    + intros (pre & rest & -> & Hlo & Hhi & Hall & ->).
      destruct pre as [|x pre].
      * left. simpl in Hlo. destruct lo; [|lia]. left. simpl. f_equal. lia.
      * right. inversion Hall as [|? ? Hx Hall']; subst.
        exists (repeat_run (run (Range a b)) (pred lo) hi (S n, pre ++ rest)).
        split.
        -- apply in_map_iff. exists (S n, pre ++ rest). split; [reflexivity|].
           apply (run_range a b n ((x :: pre) ++ rest)). exists x, (pre ++ rest).
           auto.
        -- apply IH. exists pre, rest. simpl in Hlo, Hhi.
           repeat split; auto; try lia. f_equal. simpl. lia.
Qed.

Lemma run_optional (r : regex) (c c' : cursor) :
  In c' (run (Optional r) c) <-> In c' (run r c) \/ c' = c.
Proof.
  cbn [run]. rewrite in_app_iff. simpl. split; intros [H|H]; auto.
  - destruct H as [H|[]]; auto.
Qed.

Lemma run_eol (c c' : cursor) :
  In c' (run Eol c) <-> c' = c /\ (c.2 = [] \/ c.2 = [10%N]).
Proof.
  cbn [run]. destruct c as [n s]. cbn [snd]. destruct s as [|x [|y s]].
  - simpl. split; [intros [<-|[]]; auto|intros [-> _]; auto].
  - destruct (x =? 10)%N eqn:E.
    + apply N.eqb_eq in E. subst. simpl. split; [intros [<-|[]]; auto|intros [-> _]; auto].
    + apply N.eqb_neq in E. simpl. split; [intros []|].
      intros [_ [H|H]]; [discriminate|]. injection H as ->. congruence.
  - simpl. split; [intros []|]. intros [_ [H|H]]; discriminate.
Qed.

Lemma run_bol (n : nat) (s : list N) (c' : cursor) :
  In c' (run Bol (n, s)) <-> n = O /\ c' = (n, s).
Proof.
  cbn [run fst]. destruct n; simpl.
  - split; [intros [<-|[]]; auto|intros [_ ->]; auto].
  - split; [intros []|intros [H _]; discriminate].
Qed.

Lemma re_match_true (r : regex) (s : list N) :
  re_match r s = true <-> exists c', In c' (run r (O, s)).
Proof.
  unfold re_match. destruct (run r (O, s)) as [|c l].
  - split; [discriminate|intros [c' []]].
  - split; [|reflexivity]. intros _. exists c. now left.
Qed.

(** What the pattern accepts: the symbol syntax, then the end of the string
    or one final line feed. *)
Lemma re_match_pattern (w : list N) :
  re_match pattern w = true <->
  exists w' tail, w = w' ++ tail /\ symbol_syntax w' /\ (tail = [] \/ tail = [10%N]).
Proof.
  rewrite re_match_true. unfold pattern. split.
  - intros (c' & H).
    apply run_seq in H. destruct H as ([n0 s0] & H0 & H).
    apply run_bol in H0. destruct H0 as [_ H0]. injection H0 as -> ->.
    apply run_seq in H. destruct H as ([n1 s1] & H1 & H).
    apply run_repeat_range in H1.
    destruct H1 as (base & rest & -> & Hb1 & Hb5 & Hball & H1). injection H1 as -> ->.
    apply run_seq in H. destruct H as ([n2 s2] & H2 & H).
    apply run_eol in H. destruct H as [-> Htail]. cbn [snd] in Htail.
    apply run_optional in H2. destruct H2 as [H2|H2].
    + apply run_seq in H2. destruct H2 as ([n3 s3] & H3 & H2).
      apply run_char in H3. destruct H3 as (rest' & -> & H3). injection H3 as -> ->.
      apply run_repeat_range in H2.
      destruct H2 as (ext & tail & -> & He1 & He2 & Heall & H2). injection H2 as -> ->.
      exists (base ++ 46%N :: ext), tail. split; [now rewrite <- app_assoc|].
      split; [|assumption].
      exists base, (46%N :: ext). repeat split; auto. right. exists ext. auto.
    + injection H2 as -> ->. exists base, rest. split; [reflexivity|].
      split; [|assumption].
      exists base, []. rewrite app_nil_r. repeat split; auto.
  - intros (w' & tail & -> & (base & suffix & -> & Hb1 & Hb5 & Hball & Hsuf) & Htail).
    exists ((length base + length suffix)%nat, tail).
    apply run_seq. exists (O, (base ++ suffix) ++ tail). split; [now apply run_bol|].
    apply run_seq. exists (length base, suffix ++ tail). split.
    { apply run_repeat_range. exists base, (suffix ++ tail).
      rewrite <- app_assoc. repeat split; auto. }
    apply run_seq. exists ((length base + length suffix)%nat, tail). split.
    + apply run_optional. destruct Hsuf as [->|(ext & -> & He1 & He2 & Heall)].
      * right. simpl. f_equal. lia.
      * left. apply run_seq. exists (S (length base), ext ++ tail). split.
        -- apply run_char. exists (ext ++ tail). auto.
        -- apply run_repeat_range. exists ext, tail. repeat split; auto.
           f_equal. simpl. lia.
    + apply run_eol. auto.
Qed.

End Regex.

(** ** Symbol validation *)

Section ValidateSymbol.

Variable unicode_upper : N -> list N.

(** The upper-case form of a code point above 127 is never empty and holds
    no line feed. *)
Hypothesis unicode_upper_line :
  forall c : N, (128 <= c)%N -> unicode_upper c <> [] /\ ~ In 10%N (unicode_upper c).

Lemma lstrip_head (s : list N) :
  lstrip s = [] \/ exists c t, lstrip s = c :: t /\ isspace c = false.
Proof.
  induction s as [|c s IH]; [now left|]. simpl.
  destruct (isspace c) eqn:E; [assumption|]. right. eauto.
Qed.

Lemma strip_last (s : list N) :
  strip s = [] \/ exists t c, strip s = t ++ [c] /\ isspace c = false.
Proof.
  unfold strip, rstrip.
  destruct (lstrip_head (rev (lstrip s))) as [->|(c & t & -> & Hc)]; [now left|].
  right. exists (rev t), c. simpl. auto.
Qed.

Lemma upper_app (s t : list N) :
  upper unicode_upper (s ++ t) = upper unicode_upper s ++ upper unicode_upper t.
Proof. unfold upper. now rewrite map_app, concat_app. Qed.

Lemma upper_char_last (c : N) :
  isspace c = false ->
  exists v d, upper_char unicode_upper c = v ++ [d] /\ d <> 10%N.
Proof using unicode_upper_line.
  intros Hc. unfold upper_char. destruct (c <? 128)%N eqn:E.
  - exists []. eexists. split; [reflexivity|].
    destruct ((97 <=? c)%N && (c <=? 122)%N) eqn:El.
    + apply andb_true_iff in El. destruct El as [E1%N.leb_le E2%N.leb_le]. lia.
    + intros ->. discriminate.
  - apply N.ltb_ge in E. destruct (unicode_upper_line c E) as [Hne Hnl].
    destruct (exists_last Hne) as (v & d & Hv). exists v, d. split; [assumption|].
    intros ->. apply Hnl. rewrite Hv. apply in_or_app. right. now left.
Qed.

Lemma upper_strip_no_line_feed (s w : list N) :
  upper unicode_upper (strip s) <> w ++ [10%N].
Proof using unicode_upper_line.
  destruct (strip_last s) as [->|(t & c & -> & Hc)].
  - simpl. intros H. symmetry in H. apply app_eq_nil in H.
    destruct H as [_ H]. discriminate.
  - rewrite upper_app. unfold upper at 2. simpl. rewrite app_nil_r.
    destruct (upper_char_last c Hc) as (v & d & -> & Hd).
    rewrite app_assoc. intros H. apply app_inj_tail in H. destruct H as [_ H].
    congruence.
Qed.

Lemma symbol_syntax_nonempty (w : list N) : symbol_syntax w -> (1 <= length w)%nat.
Proof.
  intros (base & suffix & -> & H1 & _). rewrite length_app. lia.
Qed.

Lemma validate_symbol_str (s : list N) :
  validate_symbol unicode_upper (PyStr s) = true <->
  symbol_syntax (upper unicode_upper (strip s)).
Proof using unicode_upper_line.
  assert (Hmatch : re_match pattern (upper unicode_upper (strip s)) = true <->
                   symbol_syntax (upper unicode_upper (strip s))).
  { rewrite re_match_pattern. split.
    - intros (w' & tail & Hw & Hsyn & [-> | ->]).
      + rewrite app_nil_r in Hw. now rewrite Hw.
      + now apply upper_strip_no_line_feed in Hw.
    - intros Hsyn. exists (upper unicode_upper (strip s)), [].
      rewrite app_nil_r. auto. }
  destruct s as [|c s].
  - simpl. split; [discriminate|]. intros H. apply symbol_syntax_nonempty in H.
    simpl in H. lia.
  - cbn [validate_symbol]. rewrite andb_true_iff, Hmatch. split; [tauto|].
    intros H. split; [assumption|].
    apply Nat.leb_le. now apply symbol_syntax_nonempty.
Qed.

(** C7: [validate_symbol] is true exactly when the trimmed, upper-cased
    string has the symbol syntax of the pattern; it is true for "AAPL",
    "BRK.B" and "A", and false for the empty string, "toolong123", "123" and
    "AAPL.ABC". *)
Theorem validate_symbol_matches_pattern (s : list N) :
  (validate_symbol unicode_upper (PyStr s) = true <->
   symbol_syntax (upper unicode_upper (strip s))) /\
  validate_symbol unicode_upper (PyStr (py "AAPL")) = true /\
  validate_symbol unicode_upper (PyStr (py "BRK.B")) = true /\
  validate_symbol unicode_upper (PyStr (py "A")) = true /\
  validate_symbol unicode_upper (PyStr []) = false /\
  validate_symbol unicode_upper (PyStr (py "toolong123")) = false /\
  validate_symbol unicode_upper (PyStr (py "123")) = false /\
  validate_symbol unicode_upper (PyStr (py "AAPL.ABC")) = false.
Proof using unicode_upper_line.
  split; [apply validate_symbol_str|]. repeat split; vm_compute; reflexivity.
Qed.

End ValidateSymbol.

Lemma latin1_upper_line (c : N) :
  (128 <= c)%N -> latin1_upper c <> [] /\ ~ In 10%N (latin1_upper c).
Proof.
  intros Hc. unfold latin1_upper.
  destruct (c =? 223)%N; [split; [discriminate|simpl; lia]|].
  destruct (c =? 181)%N; [split; [discriminate|simpl; lia]|].
  destruct (c =? 255)%N; [split; [discriminate|simpl; lia]|].
  destruct ((224 <=? c)%N && (c <=? 254)%N && negb (c =? 247)%N) eqn:E.
  - apply andb_true_iff in E. destruct E as [E _].
    apply andb_true_iff in E. destruct E as [E1%N.leb_le E2%N.leb_le].
    split; [discriminate|simpl; lia].
  - split; [discriminate|simpl; lia].
Qed.

Lemma validate_symbol_matches_pattern_witness :
  (validate_symbol latin1_upper (PyStr (py " brk.b ")) = true <->
   symbol_syntax (upper latin1_upper (strip (py " brk.b ")))) /\
  validate_symbol latin1_upper (PyStr (py "AAPL")) = true /\
  validate_symbol latin1_upper (PyStr (py "BRK.B")) = true /\
  validate_symbol latin1_upper (PyStr (py "A")) = true /\
  validate_symbol latin1_upper (PyStr []) = false /\
  validate_symbol latin1_upper (PyStr (py "toolong123")) = false /\
  validate_symbol latin1_upper (PyStr (py "123")) = false /\
  validate_symbol latin1_upper (PyStr (py "AAPL.ABC")) = false.
Proof.
  exact (validate_symbol_matches_pattern latin1_upper latin1_upper_line
           (py " brk.b ")).
Defined.

(** ** Currency formatting *)

Section FormatCurrency.

Lemma append_cons (c : ascii) (a b : string) :
  String c a +:+ b = String c (a +:+ b).
Proof. reflexivity. Qed.

Lemma list_ascii_of_string_app (a b : string) :
  list_ascii_of_string (a +:+ b) = list_ascii_of_string a ++ list_ascii_of_string b.
Proof.
  induction a as [|c a IH]; [reflexivity|].
  rewrite append_cons. simpl. now rewrite IH.
Qed.

Lemma append_empty_r (s : string) : s +:+ "" = s.
Proof.
  induction s as [|c s IH]; [reflexivity|]. rewrite append_cons. now rewrite IH.
Qed.

Lemma string_of_uint_digits (u : Decimal.uint) :
  Forall (fun a => is_digit a = true)
    (list_ascii_of_string (NilEmpty.string_of_uint u)).
Proof. induction u; simpl; constructor; auto. Qed.

Lemma decimal_digits (z : Z) :
  list_ascii_of_string (decimal z) <> [] /\
  Forall (fun a => is_digit a = true) (list_ascii_of_string (decimal z)).
Proof.
  unfold decimal, NilZero.string_of_uint.
  pose proof (string_of_uint_digits (N.to_uint (Z.to_N z))) as H.
  destruct (N.to_uint (Z.to_N z)); simpl in *;
    (split; [discriminate|]); try assumption.
  repeat constructor.
Qed.

Lemma skip_digits_app (ds rest : list ascii) :
  Forall (fun a => is_digit a = true) ds ->
  match rest with a :: _ => is_digit a = false | [] => True end ->
  skip_digits (ds ++ rest) = rest.
Proof.
  intros Hds Hrest. induction Hds as [|a ds Ha _ IH]; simpl.
  - destruct rest as [|a rest]; [reflexivity|]. simpl. now rewrite Hrest.
  - now rewrite Ha.
Qed.

Lemma is_digit_digit (d : Z) : (0 <= d <= 9)%Z -> is_digit (digit d) = true.
Proof.
  intros H.
  assert (E : (d = 0 \/ d = 1 \/ d = 2 \/ d = 3 \/ d = 4 \/ d = 5 \/ d = 6
               \/ d = 7 \/ d = 8 \/ d = 9)%Z) by lia.
  repeat (destruct E as [-> | E]; [reflexivity|]). now subst.
Qed.

Lemma two_decimals_of_digits (suffix ds : list ascii) (a b : ascii) :
  ds <> [] -> Forall (fun c => is_digit c = true) ds ->
  is_digit a = true -> is_digit b = true ->
  two_decimals_then suffix (ds ++ "."%char :: a :: b :: suffix) = true /\
  two_decimals_then suffix ("-"%char :: ds ++ "."%char :: a :: b :: suffix) = true.
Proof.
  intros Hne Hds Ha Hb.
  assert (Hskip : skip_digits (ds ++ "."%char :: a :: b :: suffix)
                  = "."%char :: a :: b :: suffix)
    by (apply skip_digits_app; [assumption|reflexivity]).
  destruct ds as [|d ds']; [congruence|].
  assert (Hd : is_digit d = true) by now inversion Hds.
  assert (Hminus : bool_decide (d = "-"%char) = false).
  { apply bool_decide_eq_false. intros ->. discriminate. }
  unfold two_decimals_then. split.
  - cbn [app]. rewrite Hminus. change (d :: ds' ++ ?r) with ((d :: ds') ++ r).
    rewrite Hskip, Hd, Ha, Hb. cbn [andb].
    rewrite bool_decide_eq_true_2 by reflexivity.
    now rewrite bool_decide_eq_true_2.
  - rewrite bool_decide_eq_true_2 by reflexivity. cbn [app].
    change (d :: ds' ++ ?r) with ((d :: ds') ++ r).
    rewrite Hskip, Hd, Ha, Hb. cbn [andb].
    rewrite bool_decide_eq_true_2 by reflexivity.
    now rewrite bool_decide_eq_true_2.
Qed.

Lemma format_fixed2_shape (q : Q) (suffix : string) :
  two_decimals_then (list_ascii_of_string suffix)
    (list_ascii_of_string (format_fixed2 q +:+ suffix)) = true.
Proof.
  unfold format_fixed2.
  set (n := round_half_even (Qabs q * 100)).
  destruct (decimal_digits (n / 100)) as [Hne Hds].
  assert (Ha : is_digit (digit (n mod 100 / 10)) = true).
  { apply is_digit_digit.
    pose proof (Z.mod_pos_bound n 100 ltac:(lia)).
    split; [apply Z.div_pos; lia|].
    apply Z.lt_succ_r. apply Z.div_lt_upper_bound; lia. }
  assert (Hb : is_digit (digit (n mod 10)) = true).
  { apply is_digit_digit. pose proof (Z.mod_pos_bound n 10 ltac:(lia)). lia. }
  destruct (two_decimals_of_digits (list_ascii_of_string suffix) _ _ _
              Hne Hds Ha Hb) as [Hplain Hsigned].
  rewrite !list_ascii_of_string_app.
  destruct (Qltb q 0); cbn [list_ascii_of_string app];
    rewrite <- !app_assoc; cbn [app]; assumption.
Qed.

Lemma format_2f_shape (x : float64) (suffix : string) :
  isfinite x = true ->
  two_decimals_then (list_ascii_of_string suffix)
    (list_ascii_of_string (format_2f x +:+ suffix)) = true.
Proof.
  destruct x; try discriminate; intros _.
  - apply format_fixed2_shape.
  - cbn [format_2f]. rewrite list_ascii_of_string_app.
    apply (proj2 (two_decimals_of_digits (list_ascii_of_string suffix)
                    ["0"%char] "0"%char "0"%char
                    ltac:(discriminate) ltac:(repeat constructor)
                    eq_refl eq_refl)).
Qed.

Lemma currency_scaled_finite (x : float64) :
  isfinite x = true -> isfinite (currency_scaled x) = true.
Proof.
  intros Hx. destruct (finite_represents x Hx) as [q Hq]. unfold currency_scaled.
  repeat match goal with
         | |- context [if ?b then _ else _] => destruct b
         end; try assumption;
    eapply represents_finite;
    (apply represents_div; [exact Hq|apply represents_Fin|]);
    intros H; discriminate H.
Qed.

Lemma format_currency_number (v : pynumber) :
  isnan (to_float v) = false ->
  format_currency (Some v) =
    "$" +:+ format_2f (currency_scaled (to_float v)) +:+ currency_suffix (to_float v).
Proof.
  intros Hn. unfold format_currency, isna, currency_scaled, currency_suffix, fge.
  rewrite Hn.
  repeat match goal with
         | |- context [if ?b then _ else _] => destruct b
         end; try reflexivity.
  now rewrite append_empty_r.
Qed.



(** The rounding of [.2f]: the nearest integer, within one half. *)
Lemma round_half_even_nearest (q : Q) :
  0 <= q ->
  Qabs (inject_Z (round_half_even q) - q) <= 1 # 2.
Proof.
  intros Hq. destruct q as [n d]. unfold round_half_even. cbn [Qnum Qden].
  assert (Hn : (0 <= n)%Z) by (unfold Qle in Hq; simpl in Hq; lia).
  pose proof (Z.div_mod n (Zpos d) ltac:(lia)) as Hdm.
  pose proof (Z.mod_pos_bound n (Zpos d) ltac:(lia)) as Hr.
  set (fl := (n / Zpos d)%Z) in *. set (r := (n mod Zpos d)%Z) in *.
  apply Qabs_Qle_condition.
  destruct (2 * r <? Zpos d)%Z eqn:E1; [apply Z.ltb_lt in E1|apply Z.ltb_ge in E1].
  - unfold Qle, Qminus, Qplus, Qopp, inject_Z; simpl. split; nia.
  - destruct (Zpos d <? 2 * r)%Z eqn:E2; [apply Z.ltb_lt in E2|apply Z.ltb_ge in E2].
    + unfold Qle, Qminus, Qplus, Qopp, inject_Z; simpl. split; nia.
    + destruct (Z.even fl);
        unfold Qle, Qminus, Qplus, Qopp, inject_Z; simpl; split; nia.
Qed.

End FormatCurrency.

(** ** Concrete instances *)

Lemma Qsqrt_up_nonneg (q : Q) : 0 <= q -> 0 <= Qsqrt_up q.
Proof.
  intros _. unfold Qsqrt_up, Qle. simpl.
  pose proof (Z.sqrt_up_nonneg (Qnum q * Zpos (Qden q))). lia.
Qed.

Lemma rsi_zero_average_loss_witness :
  (flt (Fin 0) (Fin (14 # 14)) = true -> rsi (rising 1 15) !! 14%nat = Some (Fin 100)) /\
  (is_zero (Fin (14 # 14)) = true -> rsi (rising 1 15) !! 14%nat = Some NaN) /\
  (rsi (rising 1 15) !! 14%nat = Some (Fin 100) \/
   rsi (rising 1 15) !! 14%nat = Some NaN).
Proof.
  apply (rsi_zero_average_loss (rising 1 15) 14 (Fin (14 # 14)) (Fin 0));
    vm_compute; reflexivity.
Defined.

(** A rising series has no losing day: the average loss is zero and the
    index is the number 100, not an undefined value. *)
Lemma rsi_of_rising_series :
  rsi_loss (rising 1 15) !! 14%nat = Some (Fin 0) /\
  rsi (rising 1 15) !! 14%nat = Some (Fin 100) /\
  isnan (Fin 100) = false /\ isinf (Fin 100) = false.
Proof. vm_compute. auto. Qed.

Lemma determine_trend_classification_witness :
  determine_trend (rising 1 19) 20 = Ok "Insufficient Data"%string /\
  determine_trend (rising 1 30) 20 = Ok "Upward"%string /\
  determine_trend (rev (rising 1 30)) 20 = Ok "Downward"%string /\
  determine_trend (rising 440 30) 20 = Ok "Sideways"%string /\
  determine_trend (flat 5 30) 20 = Ok "Sideways"%string.
Proof.
  destruct determine_trend_classification
    as (Hshort & _ & _ & Hsynthetic & Hflat).
  split; [apply Hshort; vm_compute; lia|].
  destruct (Hsynthetic 1 ltac:(reflexivity) ltac:(discriminate))
    as (Hup & _ & Hdown & _).
  destruct (Hsynthetic 440 ltac:(reflexivity) ltac:(discriminate))
    as (_ & Hside & _ & _).
  split; [apply Hup; discriminate|].
  split; [apply Hdown; discriminate|].
  split; [apply Hside; discriminate|].
  apply Hflat; discriminate.
Defined.

(** Thirty prices rising by 1 a day from 1000: the averages differ by less
    than 2% and the label is not "Upward". *)
Lemma determine_trend_rising_from_1000 :
  determine_trend (rising 1000 30) 20 = Ok "Sideways"%string /\
  determine_trend (rising 1000 30) 20 <> Ok "Upward"%string.
Proof. vm_compute. split; [reflexivity|discriminate]. Qed.

Lemma short_series_yield_sentinels_witness :
  calculate_returns [Fin 5] = [] /\
  calculate_volatility Qsqrt_up (calculate_returns [Fin 5; Fin 6]) 252 = NaN /\
  calculate_sharpe_ratio Qsqrt_up (calculate_returns [Fin 5; Fin 6])
    (Fin (2 # 100)) 252 = Ok NaN /\
  determine_trend [Fin 5; Fin 6] 20 = Ok "Insufficient Data"%string /\
  is_zero (calculate_max_drawdown [Fin 5]) = true.
Proof.
  pose proof (short_series_yield_sentinels Qsqrt_up [Fin 5] (Fin (2 # 100)) 252 20
                ltac:(discriminate) ltac:(lia) ltac:(lia)) as (_ & H1 & _ & _ & H4).
  pose proof (short_series_yield_sentinels Qsqrt_up [Fin 5; Fin 6] (Fin (2 # 100))
                252 20 ltac:(discriminate) ltac:(lia) ltac:(lia))
    as (_ & _ & H2 & H3 & _).
  split; [apply H1; simpl; lia|].
  destruct (H2 ltac:(simpl; lia)) as [Hv Hs].
  split; [exact Hv|]. split; [exact Hs|]. split; [apply H3; simpl; lia|].
  apply (H4 5); [discriminate|reflexivity].
Defined.

(** The maximum drawdown of the one-price series [5.0] is the number 0.0,
    not the NaN sentinel. *)
Lemma max_drawdown_of_one_price :
  calculate_max_drawdown [Fin 5] = Fin 0 /\
  isnan (calculate_max_drawdown [Fin 5]) = false /\
  is_zero (calculate_max_drawdown [Fin 5]) = true.
Proof. vm_compute. repeat split; reflexivity. Qed.

Lemma bollinger_upper_ge_lower_witness :
  match bollinger_upper Qsqrt_up (rising 1 20) !! 19%nat,
        bollinger_lower Qsqrt_up (rising 1 20) !! 19%nat,
        rolling_std Qsqrt_up 20 (rising 1 20) !! 19%nat with
  | Some u, Some l, Some sd =>
      fge u l = true /\ (is_zero sd = true -> feqb u l = true)
  | _, _, _ => False
  end.
Proof.
  destruct (bollinger_upper Qsqrt_up (rising 1 20) !! 19%nat) as [u|] eqn:Hu;
    [|vm_compute in Hu; discriminate].
  destruct (bollinger_lower Qsqrt_up (rising 1 20) !! 19%nat) as [l|] eqn:Hl;
    [|vm_compute in Hl; discriminate].
  destruct (rolling_std Qsqrt_up 20 (rising 1 20) !! 19%nat) as [sd|] eqn:Hsd;
    [|vm_compute in Hsd; discriminate].
  apply (bollinger_upper_ge_lower Qsqrt_up Qsqrt_up_nonneg (rising 1 20) 19 u l sd
           Hu Hl Hsd).
  - vm_compute in Hu. injection Hu as <-. reflexivity.
  - vm_compute in Hl. injection Hl as <-. reflexivity.
Defined.

(** Nineteen closes of 1e17 and then the next binary64 number, 1e17 + 16:
    the deviation is about 3.6, twice that is less than 8, half the spacing
    of the binary64 numbers around 1e17, and both bands are stored as 1e17:
    equal bands over a deviation that is not zero. *)
Lemma bollinger_bands_coincide :
  match bollinger_upper Qsqrt_up closes_one_step !! 19%nat,
        bollinger_lower Qsqrt_up closes_one_step !! 19%nat,
        rolling_std Qsqrt_up 20 closes_one_step !! 19%nat with
  | Some u, Some l, Some sd =>
      isna u = false /\ isna l = false /\
      feqb u (Fin 100000000000000000) = true /\
      feqb l (Fin 100000000000000000) = true /\
      feqb u l = true /\ is_zero sd = false /\ flt (Fin 3) sd = true
  | _, _, _ => False
  end.
Proof. vm_compute. repeat split; reflexivity. Qed.



Lemma market_summary_single_row_witness :
  exists q,
    get_market_summary (sample_provider (Ok [sample_row (Fin 100)]))
      !! "S&P 500"%string = Some q /\
    current q = Fin 100 /\
    change q = fsub (Fin 100) (Fin 100) /\
    change_pct q = fmul (fdiv (change q) (Fin 100)) (Fin 100) /\
    (isfinite (Fin 100) = true -> is_zero (change q) = true) /\
    (isfinite (Fin 100) = true -> is_zero (Fin 100) = false ->
     is_zero (change_pct q) = true).
Proof.
  apply (market_summary_single_row
           (sample_provider (Ok [sample_row (Fin 100)]))
           "S&P 500"%string (py "^GSPC")
           (sample_ticker (Ok [sample_row (Fin 100)])) (sample_row (Fin 100))).
  - unfold indices. apply elem_of_cons. now left.
  - reflexivity.
  - reflexivity.
Defined.

(** One row whose close is NaN: the index is stored, and its change and
    percentage change are NaN, not 0. *)
Lemma market_summary_single_nan_row :
  get_market_summary (sample_provider (Ok [sample_row NaN])) !! "S&P 500"%string
    = Some {| current := NaN; change := NaN; change_pct := NaN |} /\
  is_zero NaN = false.
Proof. vm_compute. auto. Qed.

(** Three fetches that differ in their cause and agree in their result. *)
Lemma get_stock_data_uniform_none :
  (get_stock_data latin1_upper (sample_provider (Ok [])) (py "AAPL") (py "1y")).1
    = None /\
  (get_stock_data latin1_upper (sample_provider (Raise (ProviderError (py "timeout"))))
     (py "AAPL") (py "1y")).1 = None /\
  (get_stock_data latin1_upper (fun _ => Raise (ProviderError (py "unknown")))
     (py "AAPL") (py "1y")).1 = None /\
  (get_stock_data latin1_upper (sample_provider (Ok [sample_row (Fin 100)]))
     (py "aapl") (py "1y")).1 <> None.
Proof. vm_compute. repeat split; discriminate. Qed.

(** * Further properties *)

(** ** Fixed-point rendering with any precision *)

Section FormatFixed.

Lemma fraction_digits_digits (k : nat) (m : Z) :
  length (list_ascii_of_string (fraction_digits k m)) = k /\
  Forall (fun a => is_digit a = true) (list_ascii_of_string (fraction_digits k m)).
Proof.
  induction k as [|k [IHlen IHall]]; simpl; [split; [reflexivity|constructor]|].
  split; [now rewrite IHlen|]. constructor; [|assumption].
  apply is_digit_digit.
  pose proof (Z.mod_pos_bound (m / 10 ^ Z.of_nat k) 10 ltac:(lia)). lia.
Qed.

Lemma take_digits_app (ds rest : list ascii) :
  Forall (fun a => is_digit a = true) ds ->
  take_digits (length ds) (ds ++ rest) = Some rest.
Proof.
  induction 1 as [|a ds Ha _ IH]; simpl; [reflexivity|]. now rewrite Ha.
Qed.

(** Digits, a point and [places] more digits have the fixed shape, with or
    without a leading minus sign. *)
Lemma fixed_shape_of_digits (places : nat) (suffix ds fs : list ascii) :
  ds <> [] -> Forall (fun c => is_digit c = true) ds ->
  Forall (fun c => is_digit c = true) fs -> length fs = S places ->
  fixed_shape (S places) suffix (ds ++ "."%char :: fs ++ suffix) = true /\
  fixed_shape (S places) suffix ("-"%char :: ds ++ "."%char :: fs ++ suffix) = true.
Proof.
  intros Hne Hds Hfs Hlen.
  assert (Hskip : skip_digits (ds ++ "."%char :: fs ++ suffix)
                  = "."%char :: fs ++ suffix)
    by (apply skip_digits_app; [assumption|reflexivity]).
  pose proof (take_digits_app fs suffix Hfs) as Htake. rewrite Hlen in Htake.
  destruct ds as [|d ds']; [congruence|].
  assert (Hd : is_digit d = true) by now inversion Hds.
  assert (Hminus : bool_decide (d = "-"%char) = false).
  { apply bool_decide_eq_false. intros ->. discriminate. }
  unfold fixed_shape. split.
  - cbn [app]. rewrite Hminus. change (d :: ds' ++ ?r) with ((d :: ds') ++ r).
    rewrite Hskip, Hd, Htake. cbn [andb].
    rewrite bool_decide_eq_true_2 by reflexivity.
    now rewrite bool_decide_eq_true_2.
  - rewrite bool_decide_eq_true_2 by reflexivity. cbn [app].
    change (d :: ds' ++ ?r) with ((d :: ds') ++ r).
    rewrite Hskip, Hd, Htake. cbn [andb].
    rewrite bool_decide_eq_true_2 by reflexivity.
    now rewrite bool_decide_eq_true_2.
Qed.

Lemma integer_shape_of_digits (suffix ds : list ascii) :
  ds <> [] -> Forall (fun c => is_digit c = true) ds ->
  match suffix with a :: _ => is_digit a = false | [] => True end ->
  fixed_shape 0 suffix (ds ++ suffix) = true /\
  fixed_shape 0 suffix ("-"%char :: ds ++ suffix) = true.
Proof.
  intros Hne Hds Hsuffix.
  pose proof (skip_digits_app ds suffix Hds Hsuffix) as Hskip.
  destruct ds as [|d ds']; [congruence|].
  assert (Hd : is_digit d = true) by now inversion Hds.
  assert (Hminus : bool_decide (d = "-"%char) = false).
  { apply bool_decide_eq_false. intros ->. discriminate. }
  unfold fixed_shape. split.
  - cbn [app]. rewrite Hminus. change (d :: ds' ++ ?r) with ((d :: ds') ++ r).
    rewrite Hskip, Hd. cbn [andb]. now rewrite bool_decide_eq_true_2.
  - rewrite bool_decide_eq_true_2 by reflexivity. cbn [app].
    change (d :: ds' ++ ?r) with ((d :: ds') ++ r).
    rewrite Hskip, Hd. cbn [andb]. now rewrite bool_decide_eq_true_2.
Qed.

Lemma format_fixed_shape (places : nat) (q : Q) (suffix : string) :
  no_leading_digit suffix ->
  fixed_shape places (list_ascii_of_string suffix)
    (list_ascii_of_string (format_fixed places q +:+ suffix)) = true /\
  (Qltb q 0 = false ->
   fixed_shape places (list_ascii_of_string suffix)
     (list_ascii_of_string (String "-"%char (format_fixed places q) +:+ suffix)) = true).
Proof.
  intros Hsuffix. unfold format_fixed.
  set (scale := (10 ^ Z.of_nat places)%Z).
  set (n := round_half_even (Qabs q * inject_Z scale)).
  destruct (decimal_digits (n / scale)) as [Hne Hds].
  destruct places as [|places].
  - destruct (integer_shape_of_digits (list_ascii_of_string suffix) _ Hne Hds Hsuffix)
      as [Hplain Hsigned].
    rewrite append_cons, !list_ascii_of_string_app. cbn [list_ascii_of_string].
    rewrite !list_ascii_of_string_app. cbn [list_ascii_of_string].
    rewrite !app_nil_r.
    destruct (Qltb q 0); cbn [list_ascii_of_string app];
      rewrite <- ?app_assoc; cbn [app];
      (split; [assumption|intros H; try discriminate H; assumption]).
  - destruct (fraction_digits_digits (S places) (n mod scale)) as [Hflen Hfall].
    destruct (fixed_shape_of_digits places (list_ascii_of_string suffix) _ _
                Hne Hds Hfall Hflen) as [Hplain Hsigned].
    rewrite append_cons, !list_ascii_of_string_app.
    cbn [list_ascii_of_string].
    rewrite !list_ascii_of_string_app.
    change (list_ascii_of_string ("." +:+ ?t))
      with ("."%char :: list_ascii_of_string t).
    rewrite <- !app_assoc. cbn [app].
    destruct (Qltb q 0); cbn [list_ascii_of_string app];
      rewrite <- ?app_assoc; cbn [app];
      (split; [assumption|intros H; try discriminate H; assumption]).
Qed.

End FormatFixed.

Section Formatters.

Lemma format_f_shape (places : nat) (x : float64) (suffix : string) :
  isfinite x = true -> no_leading_digit suffix ->
  fixed_shape places (list_ascii_of_string suffix)
    (list_ascii_of_string (format_f places x +:+ suffix)) = true.
Proof.
  intros Hx Hsuffix. destruct x; try discriminate; cbn [format_f].
  - apply format_fixed_shape. assumption.
  - apply (format_fixed_shape places 0 suffix Hsuffix). reflexivity.
Qed.

Lemma list_ascii_of_string_snoc (s : string) (c : ascii) :
  list_ascii_of_string (s +:+ String c "") = list_ascii_of_string s ++ [c].
Proof. now rewrite list_ascii_of_string_app. Qed.

Lemma percent_is_not_na (s : string) : s +:+ "%" <> "N/A"%string.
Proof.
  intros H. apply (f_equal list_ascii_of_string) in H.
  rewrite list_ascii_of_string_snoc in H.
  change (list_ascii_of_string "N/A") with (["N"; "/"]%char ++ ["A"%char]) in H.
  apply app_inj_tail in H. destruct H as [_ H]. discriminate.
Qed.

(** X1: for a value that converts to a float, and a precision of at most
    1000 or at least 2^31, [format_percentage] returns "N/A" exactly when
    the value is None or NaN or the precision is negative or at least 2^31;
    every other result ends in a percent sign. *)
Theorem format_percentage_na (value : option pynumber) (decimal_places : Z) :
  match value with Some v => converts v | None => True end ->
  (decimal_places <= 1000 \/ 2 ^ 31 <= decimal_places)%Z ->
  (format_percentage value decimal_places = "N/A"%string <->
   value = None \/
   (exists v, value = Some v /\ isnan (to_float v) = true) \/
   (decimal_places < 0)%Z \/ (2 ^ 31 <= decimal_places)%Z) /\
  (format_percentage value decimal_places <> "N/A"%string ->
   exists text, format_percentage value decimal_places = text +:+ "%").
Proof.
  intros _ _. unfold format_percentage, isna.
  destruct value as [v|]; [|split; [tauto|congruence]].
  destruct (isnan (to_float v)) eqn:En; [split; [|congruence]; split; eauto|].
  destruct (decimal_places <? 0)%Z eqn:Ep;
    [apply Z.ltb_lt in Ep|apply Z.ltb_ge in Ep]; cbn [orb].
  { split; [|congruence]. split; auto. }
  destruct (2 ^ 31 <=? decimal_places)%Z eqn:Eb;
    [apply Z.leb_le in Eb|apply Z.leb_gt in Eb].
  { split; [|congruence]. split; auto. }
  split; [|eauto]. split.
  - intros H. now apply percent_is_not_na in H.
  - intros [H|[(w & Hw & Hn)|[H|H]]]; try discriminate; try lia.
    injection Hw as <-. congruence.
Qed.

Lemma format_percentage_na_witness :
  (format_percentage (Some (NumFloat (Fin 5))) (2 ^ 31) = "N/A"%string <->
   Some (NumFloat (Fin 5)) = None \/
   (exists v, Some (NumFloat (Fin 5)) = Some v /\ isnan (to_float v) = true) \/
   (2 ^ 31 < 0)%Z \/ (2 ^ 31 <= 2 ^ 31)%Z) /\
  (format_percentage (Some (NumFloat (Fin 5))) (2 ^ 31) <> "N/A"%string ->
   exists text, format_percentage (Some (NumFloat (Fin 5))) (2 ^ 31) = text +:+ "%").
Proof.
  apply (format_percentage_na (Some (NumFloat (Fin 5))) (2 ^ 31)); [exact I|lia].
Defined.

(** X2: for a finite float or an int of at most 10^300 in magnitude, and a
    precision [places] between 0 and 1000, the text of [format_percentage]
    is an optional minus sign, digits, exactly [places] decimals (no point
    at all for 0) and a percent sign. *)
Theorem format_percentage_shape (v : pynumber) (decimal_places : Z) :
  converts v -> isfinite (to_float v) = true ->
  (0 <= decimal_places <= 1000)%Z ->
  fixed_shape (Z.to_nat decimal_places) ["%"%char]
    (list_ascii_of_string (format_percentage (Some v) decimal_places)) = true.
Proof.
  intros _ Hf Hp. unfold format_percentage, isna.
  replace (isnan (to_float v)) with false by (destruct (to_float v); easy).
  replace (decimal_places <? 0)%Z with false by (symmetry; apply Z.ltb_ge; lia).
  replace (2 ^ 31 <=? decimal_places)%Z with false
    by (symmetry; apply Z.leb_gt; lia).
  apply (format_f_shape _ _ "%" Hf). reflexivity.
Qed.

Lemma format_percentage_shape_witness :
  fixed_shape (Z.to_nat 2) ["%"%char]
    (list_ascii_of_string
       (format_percentage (Some (NumFloat (Fin (-(1 # 3))))) 2)) = true.
Proof.
  apply (format_percentage_shape (NumFloat (Fin (-(1 # 3)))) 2);
    [exact I|reflexivity|lia].
Defined.

Lemma large_number_scaled_finite (x : float64) (c : Q) :
  isfinite x = true -> ~ c == 0 -> isfinite (fdiv x (Fin c)) = true.
Proof.
  intros Hx Hc. destruct (finite_represents x Hx) as [q Hq].
  eapply represents_finite. apply represents_div; [exact Hq|apply represents_Fin|exact Hc].
Qed.

(** X3: for a finite float or an int of at most 10^300 in magnitude
    [format_large_number] shows two decimals and the scale letter (T, B, M
    or K) from a magnitude of 1000 on, and below that a whole number
    without a point or letter. *)
Theorem format_large_number_shape (v : pynumber) :
  converts v -> isfinite (to_float v) = true ->
  if fle (Fin 1000) (fabs (to_float v))
  then two_decimals_then (list_ascii_of_string (large_number_suffix (to_float v)))
         (list_ascii_of_string (format_large_number (Some v))) = true
  else fixed_shape 0 []
         (list_ascii_of_string (format_large_number (Some v))) = true.
Proof.
  intros _ Hf. unfold format_large_number, large_number_suffix, isna, fge.
  replace (isnan (to_float v)) with false by (destruct (to_float v); easy).
  set (x := to_float v) in *.
  assert (Hmono : forall a b : Q, a <= b ->
            fle (Fin b) (fabs x) = true -> fle (Fin a) (fabs x) = true).
  { intros a b Hab. destruct x; try discriminate; simpl; intros H; q_tests; lra. }
  destruct (fle (Fin 1000) (fabs x)) eqn:E3.
  - destruct (fle (Fin 1000000000000) (fabs x)) eqn:E12;
      [apply format_2f_shape, large_number_scaled_finite; [assumption|easy]|].
    destruct (fle (Fin 1000000000) (fabs x)) eqn:E9;
      [apply format_2f_shape, large_number_scaled_finite; [assumption|easy]|].
    destruct (fle (Fin 1000000) (fabs x)) eqn:E6;
      [apply format_2f_shape, large_number_scaled_finite; [assumption|easy]|].
    apply format_2f_shape, large_number_scaled_finite; [assumption|easy].
  - assert (E6 : fle (Fin 1000000) (fabs x) = false).
    { destruct (fle (Fin 1000000) (fabs x)) eqn:E; [|reflexivity].
      apply (Hmono 1000) in E; [congruence|lra]. }
    assert (E9 : fle (Fin 1000000000) (fabs x) = false).
    { destruct (fle (Fin 1000000000) (fabs x)) eqn:E; [|reflexivity].
      apply (Hmono 1000) in E; [congruence|lra]. }
    assert (E12 : fle (Fin 1000000000000) (fabs x) = false).
    { destruct (fle (Fin 1000000000000) (fabs x)) eqn:E; [|reflexivity].
      apply (Hmono 1000) in E; [congruence|lra]. }
    rewrite E12, E9, E6.
    rewrite <- (append_empty_r (format_f 0 x)).
    apply (format_f_shape 0 x "" Hf). exact I.
Qed.

Lemma format_large_number_shape_witness :
  if fle (Fin 1000) (fabs (to_float (NumInt 1500)))
  then two_decimals_then
         (list_ascii_of_string (large_number_suffix (to_float (NumInt 1500))))
         (list_ascii_of_string (format_large_number (Some (NumInt 1500)))) = true
  else fixed_shape 0 []
         (list_ascii_of_string (format_large_number (Some (NumInt 1500)))) = true.
Proof.
  apply (format_large_number_shape (NumInt 1500)); [|reflexivity].
  apply Z.leb_le. reflexivity.
Defined.

End Formatters.

Section Rounding.

(** The integer within one half of a non-negative rational is what the
    rounding returns. *)
Lemma round_half_even_in_range (y : Q) (k : Z) :
  0 <= y -> inject_Z k - (1 # 2) < y -> y < inject_Z k + (1 # 2) ->
  round_half_even y = k.
Proof.
  intros Hy Hlo Hhi. pose proof (round_half_even_nearest y Hy) as Hn.
  apply Qabs_Qle_condition in Hn. destruct Hn as [Hn1 Hn2].
  set (r := round_half_even y) in *.
  destruct (Z.lt_trichotomy r k) as [Hlt|[Heq|Hgt]]; [|assumption|].
  - assert (H : inject_Z r <= inject_Z (k - 1)) by (rewrite <- Zle_Qle; lia).
    assert (E : inject_Z (k - 1) == inject_Z k - 1)
      by (unfold Qeq, inject_Z, Qminus, Qplus, Qopp; simpl; lia).
    lra.
  - assert (H : inject_Z (k + 1) <= inject_Z r) by (rewrite <- Zle_Qle; lia).
    assert (E : inject_Z (k + 1) == inject_Z k + 1)
      by (unfold Qeq, inject_Z, Qplus; simpl; lia).
    lra.
Qed.

Lemma small_amount_thresholds (q : Q) :
  0 <= q -> q < 1000 ->
  fle (Fin 1000) (fabs (Fin q)) = false /\
  fle (Fin 1000000) (fabs (Fin q)) = false /\
  fle (Fin 1000000000) (fabs (Fin q)) = false /\
  fle (Fin 1000000000000) (fabs (Fin q)) = false.
Proof.
  intros H0 H. assert (E : Qabs q == q) by now apply Qabs_pos.
  simpl. repeat split; q_tests; lra.
Qed.

(** X4: an amount strictly between 999.995 and 1000 is rendered by
    [format_currency] as "$1000.00": the rounding to two decimals crosses
    the scale boundary that was tested before rounding, so the K form is not
    used. *)
Theorem format_currency_below_thousand (q : Q) :
  999995 # 1000 < q -> q < 1000 ->
  format_currency (Some (NumFloat (Fin q))) = "$1000.00"%string.
Proof.
  intros Hlo Hhi.
  destruct (small_amount_thresholds q ltac:(lra) Hhi) as (E3 & E6 & E9 & _).
  unfold format_currency, isna, fge. cbn [to_float isnan].
  rewrite E9, E6, E3. cbn [format_2f]. unfold format_fixed2.
  assert (E : Qabs q == q) by (apply Qabs_pos; lra).
  rewrite (round_half_even_in_range (Qabs q * 100) 100000);
    [|rewrite E; lra|rewrite E; change (inject_Z 100000) with 100000; lra
     |rewrite E; change (inject_Z 100000) with 100000; lra].
  replace (Qltb q 0) with false by (symmetry; q_tests; lra).
  reflexivity.
Qed.

Lemma format_currency_below_thousand_witness :
  format_currency (Some (NumFloat (Fin (999999 # 1000)))) = "$1000.00"%string.
Proof.
  apply (format_currency_below_thousand (999999 # 1000)); reflexivity.
Defined.

(** X5: a value strictly between 999.5 and 1000 is rendered by
    [format_large_number] as "1000", a four-digit whole number without the
    K form. *)
Theorem format_large_number_below_thousand (q : Q) :
  9995 # 10 < q -> q < 1000 ->
  format_large_number (Some (NumFloat (Fin q))) = "1000"%string.
Proof.
  intros Hlo Hhi.
  destruct (small_amount_thresholds q ltac:(lra) Hhi) as (E3 & E6 & E9 & E12).
  unfold format_large_number, isna, fge. cbn [to_float isnan].
  rewrite E12, E9, E6, E3. cbn [format_f]. unfold format_fixed.
  assert (E : Qabs q == q) by (apply Qabs_pos; lra).
  change (inject_Z (10 ^ Z.of_nat 0)) with 1.
  rewrite (round_half_even_in_range (Qabs q * 1) 1000);
    [|rewrite E; lra|rewrite E; change (inject_Z 1000) with 1000; lra
     |rewrite E; change (inject_Z 1000) with 1000; lra].
  replace (Qltb q 0) with false by (symmetry; q_tests; lra).
  reflexivity.
Qed.

Lemma format_large_number_below_thousand_witness :
  format_large_number (Some (NumFloat (Fin (9997 # 10)))) = "1000"%string.
Proof.
  apply (format_large_number_below_thousand (9997 # 10)); reflexivity.
Defined.

End Rounding.

Section CleanFinancialData.

Variable numpy_int : Z -> bool.

Lemma clean_value_float (v : pyvalue) (x : float64) :
  clean_value numpy_int v = Some (PyFloat x) -> v = PyFloat x /\ isfinite x = true.
Proof.
  destruct v as [|z|y|s]; simpl; try discriminate.
  - destruct (numpy_int z); discriminate.
  - destruct (isna y || isinf y) eqn:E; [discriminate|].
    intros H. injection H as ->. split; [reflexivity|].
    unfold isna in E. destruct x; simpl in *; congruence.
Qed.

Lemma clean_value_fixed (v w : pyvalue) :
  clean_value numpy_int v = Some w -> clean_value numpy_int w = Some w.
Proof.
  destruct v as [|z|x|s]; simpl.
  - now intros [= <-].
  - destruct (numpy_int z) eqn:E; [|discriminate].
    intros [= <-]. simpl. now rewrite E.
  - destruct (isna x || isinf x) eqn:E; intros [= <-]; [reflexivity|].
    simpl. now rewrite E.
  - now intros [= <-].
Qed.

Lemma clean_financial_data_lookup (data cleaned : gmap string pyvalue) (key : string) :
  clean_financial_data numpy_int data = Some cleaned ->
  match data !! key with
  | Some v => exists w, clean_value numpy_int v = Some w /\ cleaned !! key = Some w
  | None => cleaned !! key = None
  end.
Proof.
  unfold clean_financial_data.
  destruct (decide _) as [Hall|]; [|discriminate]. intros [= <-].
  rewrite lookup_omap. destruct (data !! key) as [v|] eqn:Hv; [|reflexivity].
  destruct (Hall key v Hv) as [w Hw]. exists w. simpl. now rewrite Hw.
Qed.

(** X6: [clean_financial_data] raises exactly when some entry is an int
    that numpy's [isinf] does not take. *)
Theorem clean_financial_data_raises (data : gmap string pyvalue) :
  clean_financial_data numpy_int data = None <->
  exists (key : string) (z : Z),
    data !! key = Some (PyInt z) /\ numpy_int z = false.
Proof.
  unfold clean_financial_data. split.
  - destruct (decide _) as [|Hnot]; [discriminate|]. intros _.
    apply map_not_Forall in Hnot; [|apply _].
    destruct Hnot as (key & v & Hv & Hraise).
    destruct v as [|z|x|s]; simpl in Hraise;
      try (exfalso; apply Hraise; eauto; fail).
    exists key, z. split; [exact Hv|].
    destruct (numpy_int z); [exfalso; apply Hraise; eauto|reflexivity].
  - intros (key & z & Hv & Hz).
    destruct (decide _) as [Hall|]; [|reflexivity].
    destruct (Hall key _ Hv) as [w Hw]. simpl in Hw. rewrite Hz in Hw.
    discriminate.
Qed.

(** X7: when [clean_financial_data] returns, it has kept every key; a
    float that is NaN or infinite is replaced by None and every other
    value is returned as it is, so no float left in the result is NaN or
    infinite. *)
Theorem clean_financial_data_entries
    (data cleaned : gmap string pyvalue) (key : string) :
  clean_financial_data numpy_int data = Some cleaned ->
  (is_Some (cleaned !! key) <-> is_Some (data !! key)) /\
  (forall x, data !! key = Some (PyFloat x) -> isfinite x = false ->
             cleaned !! key = Some PyNone) /\
  (forall v, data !! key = Some v ->
             (forall x, v = PyFloat x -> isfinite x = true) ->
             cleaned !! key = Some v) /\
  (forall x, cleaned !! key = Some (PyFloat x) -> isfinite x = true).
Proof.
  intros Hc. pose proof (clean_financial_data_lookup data cleaned key Hc) as Hk.
  split; [|split; [|split]].
  - destruct (data !! key) as [v|].
    + destruct Hk as (w & _ & ->). split; eauto.
    + rewrite Hk. reflexivity.
  - intros x Hx Hf. rewrite Hx in Hk. destruct Hk as (w & Hw & ->).
    simpl in Hw. injection Hw as <-. f_equal.
    unfold isna. destruct x; simpl in *; congruence.
  - intros v Hv Hfin. rewrite Hv in Hk. destruct Hk as (w & Hw & ->).
    f_equal. destruct v as [|z|x|s]; simpl in Hw.
    + congruence.
    + destruct (numpy_int z); congruence.
    + specialize (Hfin x eq_refl). injection Hw as <-.
      unfold isna. destruct x; simpl in *; congruence.
    + congruence.
  - intros x Hx. destruct (data !! key) as [v|].
    + destruct Hk as (w & Hw & Hl). rewrite Hx in Hl. injection Hl as <-.
      now apply clean_value_float in Hw.
    + congruence.
Qed.

(** Cleaning is idempotent: a cleaned dictionary passes through
    [clean_financial_data] unchanged, and without raising. *)
Lemma clean_financial_data_idempotent (data cleaned : gmap string pyvalue) :
  clean_financial_data numpy_int data = Some cleaned ->
  clean_financial_data numpy_int cleaned = Some cleaned.
Proof.
  intros Hc.
  assert (Hfix : forall key w, cleaned !! key = Some w -> clean_value numpy_int w = Some w).
  { intros key w Hw.
    pose proof (clean_financial_data_lookup data cleaned key Hc) as Hk.
    destruct (data !! key) as [v|]; [|congruence].
    destruct Hk as (w' & Hv & Hl). rewrite Hw in Hl. injection Hl as <-.
    eapply clean_value_fixed; eauto. }
  unfold clean_financial_data.
  destruct (decide _) as [|Hnot].
  - f_equal. apply map_eq. intros key. rewrite lookup_omap.
    destruct (cleaned !! key) as [w|] eqn:Hw; [|reflexivity].
    simpl. eauto.
  - exfalso. apply Hnot. intros key w Hw. rewrite (Hfix key w Hw). eauto.
Qed.

(** X8: after [clean_financial_data] a numeric entry never renders as an
    infinite amount: [format_currency] gives "N/A" or a text with exactly
    two decimals at its scale. *)
Theorem format_currency_after_cleaning
    (data cleaned : gmap string pyvalue) (key : string) (v : pyvalue) :
  clean_financial_data numpy_int data = Some cleaned ->
  cleaned !! key = Some v ->
  (forall s, v <> PyStr s) ->
  format_currency (number_of v) = "N/A"%string \/
  exists x, number_of v = Some x /\
    money_shape (currency_suffix (to_float x)) (format_currency (number_of v)) = true.
Proof.
  intros Hc Hv Hstr.
  assert (Hshape : forall n, isfinite (to_float n) = true ->
            money_shape (currency_suffix (to_float n)) (format_currency (Some n))
            = true).
  { intros n Hf.
    assert (Hn : isnan (to_float n) = false) by (destruct (to_float n); easy).
    rewrite (format_currency_number n Hn). unfold money_shape.
    change (list_ascii_of_string ("$" +:+ ?t))
      with ("$"%char :: list_ascii_of_string t).
    cbv iota beta. rewrite bool_decide_eq_true_2 by reflexivity. cbn [andb].
    apply format_2f_shape. now apply currency_scaled_finite. }
  destruct v as [|z|x|s].
  - now left.
  - right. exists (NumInt z). split; [reflexivity|]. now apply Hshape.
  - right. exists (NumFloat x). split; [reflexivity|]. apply Hshape.
    pose proof (clean_financial_data_lookup data cleaned key Hc) as Hk.
    destruct (data !! key) as [w|]; [|congruence].
    destruct Hk as (w' & Hw & Hl). rewrite Hv in Hl. injection Hl as <-.
    now apply clean_value_float in Hw.
  - now destruct (Hstr s).
Qed.

End CleanFinancialData.

Lemma clean_financial_data_entries_witness :
  (is_Some (({[ "beta"%string := PyNone ]} : gmap string pyvalue) !! "beta"%string)
   <-> is_Some (({[ "beta"%string := PyFloat NaN ]} : gmap string pyvalue)
                  !! "beta"%string)) /\
  (forall x, ({[ "beta"%string := PyFloat NaN ]} : gmap string pyvalue)
               !! "beta"%string = Some (PyFloat x) ->
             isfinite x = false ->
             ({[ "beta"%string := PyNone ]} : gmap string pyvalue) !! "beta"%string
             = Some PyNone) /\
  (forall v, ({[ "beta"%string := PyFloat NaN ]} : gmap string pyvalue)
               !! "beta"%string = Some v ->
             (forall x, v = PyFloat x -> isfinite x = true) ->
             ({[ "beta"%string := PyNone ]} : gmap string pyvalue) !! "beta"%string
             = Some v) /\
  (forall x, ({[ "beta"%string := PyNone ]} : gmap string pyvalue) !! "beta"%string
             = Some (PyFloat x) -> isfinite x = true).
Proof.
  apply (clean_financial_data_entries fits_64_bits {[ "beta"%string := PyFloat NaN ]}
           {[ "beta"%string := PyNone ]} "beta"%string).
  vm_compute. reflexivity.
Defined.

Lemma format_currency_after_cleaning_witness :
  format_currency (number_of PyNone) = "N/A"%string \/
  exists x, number_of PyNone = Some x /\
    money_shape (currency_suffix (to_float x)) (format_currency (number_of PyNone))
    = true.
Proof.
  apply (format_currency_after_cleaning fits_64_bits
           {[ "trailingPE"%string := PyFloat PInf ]}
           {[ "trailingPE"%string := PyNone ]} "trailingPE"%string PyNone).
  - vm_compute. reflexivity.
  - reflexivity.
  - discriminate.
Defined.

(** ** The statistics of utils.py on positive prices *)

Section Statistics.

Lemma represents_unique (x : float64) (a b : Q) :
  represents x a -> represents x b -> a == b.
Proof.
  unfold represents. destruct (value x); [|tauto]. intros Ha Hb.
  rewrite <- Ha. exact Hb.
Qed.

Lemma Qdrawdown_above (a b : Q) : 0 < a -> 0 < b -> -1 < (a - b) / b.
Proof.
  intros Ha Hb.
  assert (E : (a - b) / b == a / b - 1) by (field; lra).
  assert (H : 0 < a / b) by (apply Qlt_shift_div_l; lra).
  rewrite E. set (r := a / b) in *. lra.
Qed.

Lemma Qdrawdown_mono (a b M : Q) :
  0 < a -> 0 < b -> b <= M -> (a - M) / M <= (a - b) / b.
Proof.
  intros Ha Hb HM.
  assert (E : (a - b) / b - (a - M) / M == a * (M - b) / (b * M))
    by (field; split; lra).
  assert (H : 0 <= a * (M - b) / (b * M)).
  { apply Qle_shift_div_l.
    - apply Qmult_lt_0_compat; lra.
    - rewrite Qmult_0_l. apply Qmult_le_0_compat; lra. }
  set (u := (a - b) / b) in *. set (v := (a - M) / M) in *.
  set (t := a * (M - b) / (b * M)) in *. lra.
Qed.

(** In exact terms the maximum drawdown of positive prices is the worst
    relative decline from a price to a later one. *)
Lemma max_drawdown_decline (prices : Series) :
  prices <> [] -> Forall positive_price prices ->
  exists d : Q,
    represents (calculate_max_drawdown prices) d /\ -1 < d /\ d <= 0 /\
    (exists (k i : nat) (peak trough : float64) (b a : Q),
        (k <= i)%nat /\ prices !! k = Some peak /\ prices !! i = Some trough /\
        represents peak b /\ represents trough a /\ d == (a - b) / b) /\
    (forall (k i : nat) (peak trough : float64) (b a : Q),
        (k <= i)%nat -> prices !! k = Some peak -> prices !! i = Some trough ->
        represents peak b -> represents trough a -> d <= (a - b) / b).
Proof.
  intros Hne0 Hpos.
  assert (Hempty : empty prices = false) by (destruct prices; [congruence|reflexivity]).
  unfold calculate_max_drawdown. rewrite Hempty. clear Hempty.
  set (dd := zip_with fdiv (zip_with fsub prices (expanding_max prices))
               (expanding_max prices)).
  assert (Hlen : length dd = length prices).
  { unfold dd. rewrite !length_zip_with. unfold expanding_max.
    rewrite positions_length. lia. }
  assert (Hdd : forall i d, dd !! i = Some d ->
            exists p M a b, prices !! i = Some p /\
              represents p a /\ represents M b /\ 0 < a /\ a <= b /\
              represents d ((a - b) / b) /\
              (exists k, (k <= i)%nat /\ prices !! k = Some M) /\
              (forall k y, (k <= i)%nat -> prices !! k = Some y -> fle y M = true)).
  { intros i d Hd.
    assert (Hi : (i < length prices)%nat)
      by (rewrite <- Hlen; eapply lookup_lt_Some; eauto).
    destruct (lookup_lt_is_Some_2 prices i Hi) as [p Hp].
    destruct (drawdown_lookup prices i p Hpos Hp)
      as (M & a & b & d' & Hd' & _ & Ha & Hb & Ha0 & Hab & Hrep & Hin & Hub).
    fold dd in Hd'. rewrite Hd in Hd'. injection Hd' as <-.
    exists p, M, a, b. tauto. }
  assert (Hfin : Forall finite dd).
  { apply Forall_lookup_2. intros i d Hd.
    destruct (Hdd i d Hd) as (p & M & a & b & _ & _ & _ & _ & _ & Hrep & _).
    eapply represents_finite; eauto. }
  assert (Hne : dd <> []).
  { intros E. rewrite E in Hlen. destruct prices; [congruence|discriminate]. }
  unfold series_min. rewrite dropna_no_nan
    by (eapply Forall_impl; [exact Hfin|apply finite_not_nan]).
  destruct (min_of_spec dd Hne Hfin) as [Hin Hlb].
  apply list_elem_of_lookup in Hin. destruct Hin as [im Him].
  destruct (Hdd im _ Him)
    as (pm & Mm & am & bm & Hpm & Ham & Hbm & Ham0 & Hamb & Hrm & Hinm & Hubm).
  assert (Hbm0 : 0 < bm) by lra.
  exists ((am - bm) / bm). split; [exact Hrm|].
  split; [now apply Qdrawdown_above|].
  split; [now apply Qdiv_nonpos|].
  split.
  - destruct Hinm as (k & Hk & HkM).
    exists k, im, Mm, pm, bm, am. repeat split; assumption.
  - intros k i peak trough b a Hki Hpeak Htrough Hb Ha.
    assert (Hi : (i < length dd)%nat)
      by (rewrite Hlen; eapply lookup_lt_Some; eauto).
    destruct (lookup_lt_is_Some_2 dd i Hi) as [di Hdi].
    destruct (Hdd i di Hdi)
      as (pi & Mi & ai & bi & Hpi & Hai & Hbi & Hai0 & Haib & Hri & _ & Hubi).
    rewrite Htrough in Hpi. injection Hpi as <-.
    pose proof (represents_unique _ _ _ Ha Hai) as Eai.
    assert (Hle : fle (min_of dd) di = true).
    { apply Hlb. eapply list_elem_of_lookup_2; eauto. }
    apply (fle_represents _ _ _ _ Hrm Hri) in Hle.
    pose proof (Hubi k peak Hki Hpeak) as HpM.
    apply (fle_represents _ _ _ _ Hb Hbi) in HpM.
    assert (Hb0 : 0 < b).
    { assert (Hpp : positive_price peak) by (eapply Forall_lookup_1; eauto).
      destruct (positive_price_represents peak Hpp) as (b' & Hb' & Hb'0).
      pose proof (represents_unique _ _ _ Hb Hb'). lra. }
    assert (Ha0 : 0 < a) by lra.
    pose proof (Qdrawdown_mono a b bi Ha0 Hb0 HpM) as Hmono.
    assert (E : (a - bi) / bi == (ai - bi) / bi) by (rewrite Eai; reflexivity).
    set (u := (a - b) / b) in *. set (v := (a - bi) / bi) in *.
    set (w := (ai - bi) / bi) in *. set (z := (am - bm) / bm) in *. lra.
Qed.

(** X9: on a non-empty series of finite positive prices the maximum
    drawdown is a number between -1 and 0, both ends included: a decline
    from a peak never takes away more than the whole price. *)
Theorem max_drawdown_bounds (prices : Series) :
  prices <> [] -> Forall positive_price prices ->
  isnan (calculate_max_drawdown prices) = false /\
  fle (Fin (-1)) (calculate_max_drawdown prices) = true /\
  fle (calculate_max_drawdown prices) (Fin 0) = true.
Proof.
  intros Hne Hpos.
  destruct (max_drawdown_decline prices Hne Hpos) as (d & Hd & Hlo & Hhi & _).
  split; [eapply represents_not_nan; eauto|]. split.
  - apply (fle_represents _ _ _ _ (represents_Fin (-1)) Hd). lra.
  - apply (fle_represents _ _ _ _ Hd (represents_Fin 0)). exact Hhi.
Qed.

Lemma max_drawdown_bounds_witness :
  isnan (calculate_max_drawdown [Fin 10; Fin 12; Fin 9]) = false /\
  fle (Fin (-1)) (calculate_max_drawdown [Fin 10; Fin 12; Fin 9]) = true /\
  fle (calculate_max_drawdown [Fin 10; Fin 12; Fin 9]) (Fin 0) = true.
Proof.
  apply (max_drawdown_bounds [Fin 10; Fin 12; Fin 9]).
  - discriminate.
  - repeat constructor.
Defined.

End Statistics.

Section Returns.

Lemma removelast_lookup {A} (l : list A) (i : nat) :
  (S i < length l)%nat -> removelast l !! i = l !! i.
Proof.
  intros H. rewrite removelast_firstn_len. apply lookup_take_lt. lia.
Qed.

(** The percentage changes after the first one, position by position. *)
Lemma pct_change_tail (p0 : float64) (rest : Series) :
  pct_change (p0 :: rest) =
    NaN :: zip_with (fun x p => fsub (fdiv x p) (Fin 1)) rest (removelast (p0 :: rest)).
Proof.
  unfold pct_change, shift1. cbn [zip_with]. now rewrite fdiv_nan_r.
Qed.

(** On finite non-zero prices nothing but the first percentage change is
    undefined, so nothing else is dropped. *)
Lemma pct_change_values (p0 : float64) (rest : Series) (qs : list Q) :
  Forall2 represents (p0 :: rest) qs -> Forall (fun q => ~ q == 0) qs ->
  forall (i : nat) (a b : Q),
    qs !! i = Some a -> qs !! S i = Some b ->
    exists r,
      zip_with (fun x p => fsub (fdiv x p) (Fin 1)) rest (removelast (p0 :: rest))
        !! i = Some r /\
      represents r (b / a - 1).
Proof.
  intros Hrep Hnz i a b Ha Hb.
  destruct (Forall2_lookup_r _ _ _ _ _ Hrep Ha) as (x & Hx & Hxa).
  destruct (Forall2_lookup_r _ _ _ _ _ Hrep Hb) as (y & Hy & Hyb).
  assert (Hi : (S i < length (p0 :: rest))%nat)
    by (eapply lookup_lt_Some; eauto).
  exists (fsub (fdiv y x) (Fin 1)). split.
  - rewrite lookup_zip_with.
    change ((p0 :: rest) !! S i) with (rest !! i) in Hy.
    rewrite removelast_lookup by exact Hi. rewrite Hy, Hx. reflexivity.
  - apply represents_sub; [|apply represents_Fin].
    apply represents_div; [assumption..|].
    eapply Forall_lookup_1 in Hnz; eauto.
Qed.

Lemma calculate_returns_tail (p0 : float64) (rest : Series) (qs : list Q) :
  Forall2 represents (p0 :: rest) qs -> Forall (fun q => ~ q == 0) qs ->
  calculate_returns (p0 :: rest) =
    zip_with (fun x p => fsub (fdiv x p) (Fin 1)) rest (removelast (p0 :: rest)).
Proof.
  intros Hrep Hnz. unfold calculate_returns. cbn [empty].
  rewrite pct_change_tail.
  set (tail := zip_with (fun x p => fsub (fdiv x p) (Fin 1)) rest
                 (removelast (p0 :: rest))).
  assert (Hlen : length tail = length rest).
  { unfold tail. rewrite length_zip_with, removelast_firstn_len, length_take.
    simpl. lia. }
  unfold dropna. rewrite filter_cons_False by (simpl; congruence).
  apply dropna_no_nan, Forall_lookup_2. intros i r Hr.
  assert (Hi : (i < length rest)%nat)
    by (rewrite <- Hlen; eapply lookup_lt_Some; eauto).
  pose proof (Forall2_length _ _ _ Hrep) as Hl. simpl in Hl.
  destruct (lookup_lt_is_Some_2 qs i ltac:(lia)) as [a Ha].
  destruct (lookup_lt_is_Some_2 qs (S i) ltac:(lia)) as [b Hb].
  destruct (pct_change_values p0 rest qs Hrep Hnz i a b Ha Hb) as (r' & Hr' & Hrep').
  fold tail in Hr'. rewrite Hr in Hr'. injection Hr' as <-.
  eapply represents_not_nan; eauto.
Qed.

Lemma positive_prices_represented (prices : Series) :
  Forall positive_price prices ->
  exists qs, Forall2 represents prices qs /\ Forall (fun q => 0 < q) qs.
Proof.
  induction 1 as [|x l Hx _ (qs & Hqs & Hpos)].
  - exists []. split; constructor.
  - destruct (positive_price_represents x Hx) as (a & Ha & Ha0).
    exists (a :: qs). split; constructor; assumption.
Qed.

(** The sign of a return is the direction of the price. *)
Lemma return_sign (a b : Q) :
  0 < a -> 0 < b ->
  -1 <= b / a - 1 /\ (0 < b / a - 1 <-> a < b) /\ (b / a - 1 < 0 <-> b < a) /\
  (b / a - 1 == 0 <-> a == b).
Proof.
  intros Ha Hb.
  assert (E : (b / a - 1) * a == b - a) by (field; lra).
  assert (H : 0 < b / a) by (apply Qlt_shift_div_l; lra).
  set (r := b / a - 1) in *. fold r.
  assert (Hr : r == b / a - 1) by reflexivity.
  repeat split; intros; try nra; try lra.
Qed.

(** X10: on finite positive prices [calculate_returns] gives one return for
    every price after the first, in order, and none is missing; a return is
    never below -1, it is positive exactly when the price rose, negative
    exactly when it fell and zero exactly when it stayed. *)
Theorem calculate_returns_follow_prices (prices : Series) :
  Forall positive_price prices ->
  length (calculate_returns prices) = (length prices - 1)%nat /\
  forall (i : nat) (a b : float64),
    prices !! i = Some a -> prices !! S i = Some b ->
    exists r,
      calculate_returns prices !! i = Some r /\
      isnan r = false /\ fle (Fin (-1)) r = true /\
      flt (Fin 0) r = flt a b /\ flt r (Fin 0) = flt b a /\
      is_zero r = feqb a b.
Proof.
  intros Hpos.
  destruct (positive_prices_represented prices Hpos) as (qs & Hrep & Hqs).
  assert (Hnz : Forall (fun q => ~ q == 0) qs)
    by (eapply Forall_impl; [exact Hqs|]; cbv beta; intros q Hq; lra).
  destruct prices as [|p0 rest].
  { split; [reflexivity|]. intros i a b Ha. discriminate. }
  rewrite (calculate_returns_tail p0 rest qs Hrep Hnz). split.
  - rewrite length_zip_with, removelast_firstn_len, length_take. simpl. lia.
  - intros i a b Ha Hb.
    destruct (Forall2_lookup_l _ _ _ _ _ Hrep Ha) as (qa & Hqa & Hra).
    destruct (Forall2_lookup_l _ _ _ _ _ Hrep Hb) as (qb & Hqb & Hrb).
    destruct (pct_change_values p0 rest qs Hrep Hnz i qa qb Hqa Hqb)
      as (r & Hr & Hrr).
    assert (Ha0 : 0 < qa) by (eapply Forall_lookup_1 in Hqs; eauto).
    assert (Hb0 : 0 < qb) by (eapply Forall_lookup_1 in Hqs; eauto).
    destruct (return_sign qa qb Ha0 Hb0) as (Hlow & Hup & Hdown & Hsame).
    exists r. split; [exact Hr|].
    split; [eapply represents_not_nan; eauto|].
    split; [now apply (fle_represents _ _ _ _ (represents_Fin (-1)) Hrr)|].
    split; [|split]; apply eq_iff_eq_true.
    + rewrite (flt_represents _ _ _ _ (represents_Fin 0) Hrr).
      now rewrite (flt_represents _ _ _ _ Hra Hrb).
    + rewrite (flt_represents _ _ _ _ Hrr (represents_Fin 0)).
      now rewrite (flt_represents _ _ _ _ Hrb Hra).
    + rewrite (is_zero_represents _ _ Hrr).
      now rewrite (feqb_represents _ _ _ _ Hra Hrb).
Qed.

Lemma calculate_returns_follow_prices_witness :
  length (calculate_returns [Fin 100; Fin 110; Fin 99]) = (3 - 1)%nat /\
  forall (i : nat) (a b : float64),
    [Fin 100; Fin 110; Fin 99] !! i = Some a ->
    [Fin 100; Fin 110; Fin 99] !! S i = Some b ->
    exists r,
      calculate_returns [Fin 100; Fin 110; Fin 99] !! i = Some r /\
      isnan r = false /\ fle (Fin (-1)) r = true /\
      flt (Fin 0) r = flt a b /\ flt r (Fin 0) = flt b a /\
      is_zero r = feqb a b.
Proof.
  apply (calculate_returns_follow_prices [Fin 100; Fin 110; Fin 99]).
  repeat constructor.
Defined.

End Returns.

Section SharpeRatio.

Variable sqrtQ : Q -> Q.

(** X11: for a [periods] of machine size [calculate_sharpe_ratio] raises
    exactly when the returns are not empty and [periods] is 0, and what it
    raises then is the ZeroDivisionError of [risk_free_rate / periods]. *)
Theorem sharpe_ratio_raises_on_zero_periods
    (returns : Series) (risk_free_rate : float64) (periods : Z) :
  (- 2 ^ 63 <= periods < 2 ^ 63)%Z ->
  match calculate_sharpe_ratio sqrtQ returns risk_free_rate periods with
  | Raise e => e = ZeroDivisionError /\ returns <> [] /\ periods = 0%Z
  | Ok _ => returns = [] \/ periods <> 0%Z
  end.
Proof.
  intros _.
  unfold calculate_sharpe_ratio. destruct returns as [|r rest]; cbn [empty].
  { now left. }
  unfold py_div, of_Z. cbn [is_zero].
  destruct (Qeqb (inject_Z periods) 0) eqn:E.
  - apply Qeqb_true in E.
    assert (Hp : periods = 0%Z) by (unfold Qeq in E; simpl in E; lia).
    simpl. split; [reflexivity|]. split; [discriminate|exact Hp].
  - apply Qeqb_false in E. simpl. right. intros ->. apply E. reflexivity.
Qed.

End SharpeRatio.

Lemma sharpe_ratio_raises_on_zero_periods_witness :
  match calculate_sharpe_ratio Qsqrt_up [Fin (1 # 10); Fin (-1 # 20)]
          (Fin (2 # 100)) 0 with
  | Raise e =>
      e = ZeroDivisionError /\ [Fin (1 # 10); Fin (-1 # 20)] <> [] /\ 0%Z = 0%Z
  | Ok _ => [Fin (1 # 10); Fin (-1 # 20)] = [] \/ 0%Z <> 0%Z
  end.
Proof.
  apply (sharpe_ratio_raises_on_zero_periods Qsqrt_up
           [Fin (1 # 10); Fin (-1 # 20)] (Fin (2 # 100)) 0).
  lia.
Defined.

Section TrendEdges.

Lemma rolling_mean_length (w : nat) (s : Series) :
  length (rolling_mean w s) = length s.
Proof. unfold rolling_mean. apply positions_length. Qed.

(** Before a full window is available the moving average is NaN. *)
Lemma rolling_mean_warm_up (w : nat) (s : Series) (i : nat) :
  (S i < w)%nat -> (i < length s)%nat -> rolling_mean w s !! i = Some NaN.
Proof.
  intros Hw Hi. unfold rolling_mean. rewrite positions_lookup by exact Hi.
  f_equal.
  assert (Hlen : (length (observations (window_slice w s i)) <= S i)%nat).
  { unfold observations. etransitivity; [apply length_filter|].
    unfold window_slice. rewrite length_drop, length_take. lia. }
  replace (w <=? length (observations (window_slice w s i)))%nat with false
    by (symmetry; apply Nat.leb_gt; lia).
  reflexivity.
Qed.

Lemma trend_label_values (cur prev : float64) :
  trend_label cur prev = "Insufficient Data"%string \/
  trend_label cur prev = "Upward"%string \/
  trend_label cur prev = "Downward"%string \/
  trend_label cur prev = "Sideways"%string.
Proof.
  unfold trend_label.
  destruct (isnan cur || isnan prev); [now left|].
  destruct (flt (Fin 2) _); [now right; left|].
  destruct (flt _ (Fin (-2))); [now right; right; left|now right; right; right].
Qed.

Lemma half_window_bounds (window : nat) :
  (1 <= window)%nat -> (1 <= (window + 1) / 2 <= window)%nat.
Proof.
  intros Hw.
  pose proof (Nat.div_mod_eq (window + 1) 2) as Hd.
  pose proof (Nat.mod_upper_bound (window + 1) 2 ltac:(lia)) as Hr.
  lia.
Qed.

Lemma determine_trend_label (prices : Series) (window : nat) :
  (1 <= window)%nat -> (window <= length prices)%nat ->
  exists cur prev,
    rolling_mean window prices !! (length prices - 1)%nat = Some cur /\
    rolling_mean window prices !! (length prices - (window + 1) / 2)%nat
      = Some prev /\
    determine_trend prices window = Ok (trend_label cur prev).
Proof.
  intros Hw Hlen. pose proof (half_window_bounds window Hw) as Hh.
  destruct (lookup_lt_is_Some_2 (rolling_mean window prices)
              (length prices - 1)%nat) as [cur Hcur];
    [rewrite rolling_mean_length; lia|].
  destruct (lookup_lt_is_Some_2 (rolling_mean window prices)
              (length prices - (window + 1) / 2)%nat) as [prev Hprev];
    [rewrite rolling_mean_length; lia|].
  exists cur, prev. split; [exact Hcur|]. split; [exact Hprev|].
  now apply determine_trend_rule.
Qed.

(** X12: with a window of at least 1 [determine_trend] never raises: it
    returns one of its four labels, whatever the prices (NaN and infinite
    entries included).  With window 0 and no prices it raises IndexError. *)
Theorem determine_trend_never_raises (prices : Series) (window : nat) :
  ((1 <= window)%nat ->
   determine_trend prices window = Ok "Insufficient Data"%string \/
   determine_trend prices window = Ok "Upward"%string \/
   determine_trend prices window = Ok "Downward"%string \/
   determine_trend prices window = Ok "Sideways"%string) /\
  determine_trend [] 0 = Raise IndexError.
Proof.
  split; [|reflexivity]. intros Hw.
  destruct (Nat.lt_ge_cases (length prices) window) as [Hs | Hl].
  - left. now apply determine_trend_short.
  - destruct (determine_trend_label prices window Hw Hl)
      as (cur & prev & _ & _ & ->).
    destruct (trend_label_values cur prev) as [-> | [-> | [-> | ->]]]; tauto.
Qed.

(** X13: the label needs more than [window] prices: as long as there are
    fewer than [window - 1 + (window + 1) / 2] of them (29 for the default
    window of 20) the earlier moving average is still NaN and the answer is
    "Insufficient Data", whatever the prices. *)
Theorem determine_trend_warm_up (prices : Series) (window : nat) :
  (1 <= window)%nat ->
  (length prices + 1 < window + (window + 1) / 2)%nat ->
  determine_trend prices window = Ok "Insufficient Data"%string.
Proof.
  intros Hw Hlen.
  destruct (Nat.lt_ge_cases (length prices) window) as [Hs | Hl].
  { now apply determine_trend_short. }
  pose proof (half_window_bounds window Hw) as Hh.
  destruct (determine_trend_label prices window Hw Hl)
    as (cur & prev & _ & Hprev & ->).
  rewrite rolling_mean_warm_up in Hprev by lia. injection Hprev as <-.
  unfold trend_label. simpl. now rewrite orb_true_r.
Qed.

Lemma determine_trend_warm_up_witness :
  determine_trend (rising 1 28) 20 = Ok "Insufficient Data"%string.
Proof.
  apply determine_trend_warm_up.
  - lia.
  - vm_compute. lia.
Defined.

End TrendEdges.

Section Volatility.

Variable sqrtQ : Q -> Q.
Hypothesis sqrtQ_nonneg : forall q, 0 <= q -> 0 <= sqrtQ q.

Lemma fsqrt_nan_or_nonneg (x : float64) :
  nan_or_nonneg (fsqrt sqrtQ x).
Proof using sqrtQ_nonneg.
  unfold nan_or_nonneg. destruct x as [q| | | |]; cbn [fsqrt]; auto.
  destruct (Qltb q 0) eqn:E; [now left|right].
  q_tests. cbn [fle value]. q_tests. apply sqrtQ_nonneg. lra.
Qed.

Lemma nonneg_sign (a : Q) : 0 <= a -> Qltb a 0 = false.
Proof. intros H. q_tests. exact H. Qed.

Lemma fmul_nan_or_nonneg (x y : float64) :
  nan_or_nonneg x -> nan_or_nonneg y -> nan_or_nonneg (fmul x y).
Proof.
  unfold nan_or_nonneg.
  intros [Hx|Hx]; [left; now destruct x, y|].
  intros [Hy|Hy]; [left; now destruct x, y|].
  destruct x as [a| | | |], y as [b| | | |]; try discriminate;
    cbn [fle value] in Hx, Hy; q_tests.
  all: cbn [fmul signbit is_zero].
  all: rewrite ?(nonneg_sign a) by assumption.
  all: rewrite ?(nonneg_sign b) by assumption.
  all: repeat match goal with
           | |- context [if ?c then _ else _] => destruct c eqn:?
           end.
  all: try (left; reflexivity).
  all: try (right; reflexivity).
  right. cbn [fle value]. q_tests. now apply Qmult_le_0_compat.
Qed.

Lemma series_std_nan_or_nonneg (returns : Series) :
  nan_or_nonneg (series_std sqrtQ returns).
Proof using sqrtQ_nonneg.
  unfold series_std. destruct (length (dropna returns) <=? 1)%nat.
  - now left.
  - apply fsqrt_nan_or_nonneg.
Qed.

(** X14: the annualised volatility is never a negative number: for any
    returns and a [periods] of machine size it is NaN or at least zero, and
    for a negative [periods] it is NaN. *)
Theorem volatility_never_negative (returns : Series) (periods : Z) :
  (- 2 ^ 63 <= periods < 2 ^ 63)%Z ->
  nan_or_nonneg (calculate_volatility sqrtQ returns periods) /\
  ((periods < 0)%Z -> isnan (calculate_volatility sqrtQ returns periods) = true).
Proof using sqrtQ_nonneg.
  intros _. unfold calculate_volatility. split.
  - destruct (empty returns); [now left|].
    apply fmul_nan_or_nonneg;
      [apply series_std_nan_or_nonneg|apply fsqrt_nan_or_nonneg].
  - intros Hp. destruct (empty returns); [reflexivity|].
    assert (E : fsqrt sqrtQ (of_Z periods) = NaN).
    { unfold of_Z. cbn [fsqrt].
      replace (Qltb (inject_Z periods) 0) with true; [reflexivity|].
      symmetry. q_tests. change 0 with (inject_Z 0). rewrite <- Zlt_Qlt. lia. }
    rewrite E. now destruct (series_std sqrtQ returns).
Qed.

End Volatility.

Lemma volatility_never_negative_witness :
  nan_or_nonneg (calculate_volatility Qsqrt_up
                   (calculate_returns [Fin 100; Fin 110; Fin 99]) 252) /\
  ((252 < 0)%Z ->
   isnan (calculate_volatility Qsqrt_up
            (calculate_returns [Fin 100; Fin 110; Fin 99]) 252) = true).
Proof.
  apply (volatility_never_negative Qsqrt_up Qsqrt_up_nonneg
           (calculate_returns [Fin 100; Fin 110; Fin 99]) 252).
  lia.
Defined.

(** ** The indicators: warm-up, ranges and alignment *)

Section RSIRange.


Lemma shift1_length (s : Series) : length (shift1 s) = length s.
Proof.
  destruct s as [|x rest]; [reflexivity|].
  unfold shift1. cbn [length]. rewrite removelast_firstn_len, length_take.
  simpl. lia.
Qed.

Lemma diff_length (s : Series) : length (diff s) = length s.
Proof. unfold diff. rewrite length_zip_with, shift1_length. lia. Qed.

Lemma rsi_gain_length (close : Series) : length (rsi_gain close) = length close.
Proof.
  unfold rsi_gain. rewrite rolling_mean_length. unfold where_.
  now rewrite length_map, diff_length.
Qed.

Lemma rsi_loss_length (close : Series) : length (rsi_loss close) = length close.
Proof.
  unfold rsi_loss. rewrite rolling_mean_length. unfold where_.
  now rewrite !length_map, diff_length.
Qed.

Lemma rsi_length (close : Series) : length (rsi close) = length close.
Proof.
  unfold rsi. rewrite length_map, length_zip_with, rsi_gain_length,
    rsi_loss_length. lia.
Qed.


Lemma rsi_of_nan_gain (loss : float64) :
  rsi_of_rs (relative_strength NaN loss) = NaN.
Proof. reflexivity. Qed.




End RSIRange.

Section BollingerWarmUp.

Variable sqrtQ : Q -> Q.

Lemma band_upper_nan (sd : float64) : band_upper NaN sd = NaN.
Proof. reflexivity. Qed.

Lemma band_lower_nan (sd : float64) : band_lower NaN sd = NaN.
Proof. reflexivity. Qed.

Lemma bollinger_upper_length (close : Series) :
  length (bollinger_upper sqrtQ close) = length close.
Proof.
  unfold bollinger_upper.
  rewrite length_zip_with, rolling_mean_length.
  unfold rolling_std. rewrite positions_length. lia.
Qed.

Lemma bollinger_lower_length (close : Series) :
  length (bollinger_lower sqrtQ close) = length close.
Proof.
  unfold bollinger_lower.
  rewrite length_zip_with, rolling_mean_length.
  unfold rolling_std. rewrite positions_length. lia.
Qed.

(** X16: the Bollinger bands have one value per close, and both are NaN at
    each of the first 19 positions, where no 20-period window is full. *)
Theorem bollinger_bands_warm_up (close : Series) :
  length (bollinger_upper sqrtQ close) = length close /\
  length (bollinger_lower sqrtQ close) = length close /\
  forall i : nat, (i < 19)%nat -> (i < length close)%nat ->
    bollinger_upper sqrtQ close !! i = Some NaN /\
    bollinger_lower sqrtQ close !! i = Some NaN.
Proof.
  split; [apply bollinger_upper_length|].
  split; [apply bollinger_lower_length|].
  intros i Hi Hlen.
  assert (Hsd : exists sd, rolling_std sqrtQ 20 close !! i = Some sd).
  { apply lookup_lt_is_Some. unfold rolling_std.
    now rewrite positions_length. }
  destruct Hsd as [sd Hsd].
  unfold bollinger_upper, bollinger_lower.
  rewrite !lookup_zip_with, Hsd.
  rewrite (rolling_mean_warm_up 20 close i) by (try exact Hlen; lia).
  simpl. now rewrite band_upper_nan, band_lower_nan.
Qed.

End BollingerWarmUp.

(** ** Exponential averages and MACD *)

Section EwmBounds.

Lemma prep_values_take (n : nat) (s : Series) :
  prep_values (take n s) = take n (prep_values s).
Proof. unfold prep_values. now rewrite firstn_map. Qed.

Lemma ewm_scan_take (f : float64) (n : nat) : forall (vals : list float64) (st : ewm_state),
  ewm_scan f st (take n vals) = take n (ewm_scan f st vals).
Proof.
  induction n as [|n IH]; intros vals st; [now destruct vals|].
  destruct vals as [|cur rest]; [reflexivity|]. simpl. now rewrite IH.
Qed.

(** An exponential average looks at the past only. *)
Lemma ewm_mean_take (span : Z) (n : nat) (s : Series) :
  ewm_mean span (take n s) = take n (ewm_mean span s).
Proof.
  unfold ewm_mean. rewrite prep_values_take.
  destruct (prep_values s) as [|first rest]; [now destruct n|].
  destruct n as [|n]; [reflexivity|]. cbn [take]. now rewrite ewm_scan_take.
Qed.

Lemma ewm_scan_length (f : float64) : forall (vals : list float64) (st : ewm_state),
  length (ewm_scan f st vals) = length vals.
Proof. induction vals as [|cur rest IH]; intros st; simpl; [|rewrite IH]; reflexivity. Qed.

Lemma ewm_mean_length (span : Z) (s : Series) :
  length (ewm_mean span s) = length s.
Proof.
  unfold ewm_mean.
  assert (Hl : length (prep_values s) = length s)
    by (unfold prep_values; apply length_map).
  destruct (prep_values s) as [|first rest]; [exact Hl|].
  simpl in *. now rewrite ewm_scan_length.
Qed.

(** The recursion reproduces the example of the pandas documentation:
    [ewm(com=0.5)] (a span of 2) of 0, 1, 2, NaN, 4 is 0, 0.75, 1.615385,
    1.615385, 3.670213. *)
Lemma ewm_mean_documented_example :
  Forall2 represents (ewm_mean 2 [Fin 0; Fin 1; Fin 2; NaN; Fin 4])
    [0; 3 # 4; 21 # 13; 21 # 13; 345 # 94].
Proof. vm_compute. repeat constructor. Qed.

Lemma feqb_refl_finite (x : float64) : isfinite x = true -> feqb x x = true.
Proof.
  destruct x as [q| | | |]; try discriminate; intros _; [|reflexivity].
  unfold feqb. cbn [fle value]. rewrite andb_diag. q_tests. lra.
Qed.

Lemma finite_not_inf (x : float64) : isfinite x = true -> isinf x = false.
Proof. now destruct x. Qed.

Lemma finite_is_number (x : float64) : isfinite x = true -> isnan x = false.
Proof. now destruct x. Qed.

Lemma prep_values_repeat (x : float64) (n : nat) :
  isfinite x = true -> prep_values (repeat x n) = repeat x n.
Proof.
  intros Hx. unfold prep_values.
  induction n as [|n IH]; [reflexivity|]. cbn [repeat map].
  now rewrite IH, (finite_not_inf x Hx).
Qed.

(** An observation equal to the average so far leaves it as it is. *)
Lemma ewm_step_same (f : float64) (st : ewm_state) (x : float64) :
  isfinite x = true -> weighted st = x ->
  weighted (ewm_step f st x) = x.
Proof.
  intros Hx Hw. unfold ewm_step.
  rewrite Hw, (finite_is_number x Hx), (feqb_refl_finite x Hx). reflexivity.
Qed.

Lemma ewm_scan_constant (f : float64) (x : float64) (n : nat) :
  isfinite x = true ->
  forall st, weighted st = x -> ewm_scan f st (repeat x n) = repeat x n.
Proof.
  intros Hx. induction n as [|n IH]; intros st Hst; [reflexivity|].
  cbn [repeat ewm_scan]. cbv zeta.
  pose proof (ewm_step_same f st x Hx Hst) as Hs.
  rewrite Hs. f_equal. now apply IH.
Qed.

(** The exponential average of a constant series is the series itself. *)
Lemma ewm_mean_constant (span : Z) (x : float64) (n : nat) :
  isfinite x = true -> ewm_mean span (repeat x n) = repeat x n.
Proof.
  intros Hx. unfold ewm_mean. rewrite (prep_values_repeat x n Hx).
  destruct n as [|n]; [reflexivity|]. cbn [repeat]. f_equal.
  now apply ewm_scan_constant.
Qed.

Lemma ewm_mean_head (span : Z) (x : float64) (rest : Series) :
  ewm_mean span (x :: rest) !! 0%nat = Some (if isinf x then NaN else x).
Proof. reflexivity. Qed.

(** X17: an exponential average starts at the first value (NaN when that
    value is infinite), has one value per close, and on a series that
    repeats one finite value it is that value at every position, for every
    span from 1 on and so for EMA_12 and EMA_26. *)
Theorem ema_of_constant_closes (span : Z) (x : float64) (n : nat) (rest : Series) :
  (1 <= span)%Z -> isfinite x = true ->
  ewm_mean span (x :: rest) !! 0%nat = Some x /\
  length (ewm_mean span (x :: rest)) = S (length rest) /\
  ewm_mean span (repeat x n) = repeat x n /\
  ema_12 (repeat x n) = repeat x n /\ ema_26 (repeat x n) = repeat x n.
Proof.
  intros _ Hx. split; [|split; [|split; [|split]]].
  - rewrite ewm_mean_head. now rewrite (finite_not_inf x Hx).
  - now rewrite ewm_mean_length.
  - now apply ewm_mean_constant.
  - unfold ema_12. now apply ewm_mean_constant.
  - unfold ema_26. now apply ewm_mean_constant.
Qed.

Lemma ema_of_constant_closes_witness :
  ewm_mean 12 [Fin 10; Fin 12] !! 0%nat = Some (Fin 10) /\
  length (ewm_mean 12 [Fin 10; Fin 12]) = 2%nat /\
  ewm_mean 12 (repeat (Fin 10) 30) = repeat (Fin 10) 30 /\
  ema_12 (repeat (Fin 10) 30) = repeat (Fin 10) 30 /\
  ema_26 (repeat (Fin 10) 30) = repeat (Fin 10) 30.
Proof.
  apply (ema_of_constant_closes 12 (Fin 10) 30 [Fin 12]); [lia|reflexivity].
Defined.

Lemma macd_take (n : nat) (close : Series) :
  macd (take n close) = take n (macd close).
Proof.
  unfold macd, ema_12, ema_26. now rewrite !ewm_mean_take, zip_with_take.
Qed.

Lemma macd_signal_take (n : nat) (close : Series) :
  macd_signal (take n close) = take n (macd_signal close).
Proof. unfold macd_signal. now rewrite macd_take, ewm_mean_take. Qed.

Lemma macd_length (close : Series) : length (macd close) = length close.
Proof.
  unfold macd, ema_12, ema_26. rewrite length_zip_with, !ewm_mean_length. lia.
Qed.

Lemma fsub_self_zero (x : float64) :
  isfinite x = true -> is_zero (fsub x x) = true /\ isfinite (fsub x x) = true.
Proof.
  destruct x as [q| | | |]; try discriminate; intros _; [|split; reflexivity].
  unfold fsub. cbn [fneg]. destruct (Qeqb q 0) eqn:E; cbn [fadd is_zero isfinite].
  - split; [exact E|reflexivity].
  - split; [q_tests; ring|reflexivity].
Qed.

Lemma zip_with_repeat {A B C} (f : A -> B -> C) (a : A) (b : B) (n : nat) :
  zip_with f (repeat a n) (repeat b n) = repeat (f a b) n.
Proof. induction n as [|n IH]; [reflexivity|]. cbn [repeat zip_with]. now rewrite IH. Qed.

Lemma Forall_repeated {A} (P : A -> Prop) (a : A) (n : nat) :
  P a -> Forall P (repeat a n).
Proof. intros Ha. induction n; cbn [repeat]; constructor; assumption. Qed.

Lemma macd_constant (x : float64) (n : nat) :
  isfinite x = true -> macd (repeat x n) = repeat (fsub x x) n.
Proof.
  intros Hx. unfold macd, ema_12, ema_26.
  rewrite !ewm_mean_constant by exact Hx. apply zip_with_repeat.
Qed.

Lemma macd_head (x : float64) (rest : Series) :
  isfinite x = true -> macd (x :: rest) !! 0%nat = Some (fsub x x).
Proof.
  intros Hx. unfold macd, ema_12, ema_26. rewrite lookup_zip_with.
  rewrite !ewm_mean_head, (finite_not_inf x Hx). reflexivity.
Qed.

Lemma macd_signal_head (x : float64) (rest : Series) :
  isfinite x = true -> macd_signal (x :: rest) !! 0%nat = Some (fsub x x).
Proof.
  intros Hx. unfold macd_signal.
  pose proof (macd_head x rest Hx) as Hm.
  destruct (macd (x :: rest)) as [|d ds]; [discriminate|].
  cbn [lookup list_lookup] in Hm. injection Hm as ->.
  rewrite ewm_mean_head.
  now rewrite (finite_not_inf _ (proj2 (fsub_self_zero x Hx))).
Qed.

(** X18: on the first row MACD and its signal line are zero, whatever
    follows, and on a series that repeats one finite close both are zero at
    every position. *)
Theorem macd_zero_without_movement (x : float64) (n : nat) (rest : Series) :
  isfinite x = true ->
  (exists d g, macd (x :: rest) !! 0%nat = Some d /\ is_zero d = true /\
               macd_signal (x :: rest) !! 0%nat = Some g /\ is_zero g = true) /\
  length (macd (repeat x n)) = n /\ length (macd_signal (repeat x n)) = n /\
  Forall (fun d => is_zero d = true) (macd (repeat x n)) /\
  Forall (fun g => is_zero g = true) (macd_signal (repeat x n)).
Proof.
  intros Hx. destruct (fsub_self_zero x Hx) as [Hz Hf].
  assert (Hs : macd_signal (repeat x n) = repeat (fsub x x) n).
  { unfold macd_signal. rewrite (macd_constant x n Hx).
    now apply ewm_mean_constant. }
  split; [|split; [|split; [|split]]].
  - exists (fsub x x), (fsub x x).
    rewrite (macd_head x rest Hx), (macd_signal_head x rest Hx). auto.
  - now rewrite macd_length, repeat_length.
  - now rewrite Hs, repeat_length.
  - rewrite (macd_constant x n Hx). now apply Forall_repeated.
  - rewrite Hs. now apply Forall_repeated.
Qed.

Lemma macd_zero_without_movement_witness :
  (exists d g, macd [Fin 10; Fin 12] !! 0%nat = Some d /\ is_zero d = true /\
               macd_signal [Fin 10; Fin 12] !! 0%nat = Some g /\
               is_zero g = true) /\
  length (macd (repeat (Fin 10) 30)) = 30%nat /\
  length (macd_signal (repeat (Fin 10) 30)) = 30%nat /\
  Forall (fun d => is_zero d = true) (macd (repeat (Fin 10) 30)) /\
  Forall (fun g => is_zero g = true) (macd_signal (repeat (Fin 10) 30)).
Proof.
  apply (macd_zero_without_movement (Fin 10) 30 [Fin 12]). reflexivity.
Defined.

End EwmBounds.

(** ** Indicators look back only *)

Section LookBack.

Variable sqrtQ : Q -> Q.

Lemma window_slice_take (w n i : nat) (s : Series) :
  (i < n)%nat -> window_slice w (take n s) i = window_slice w s i.
Proof.
  intros Hi. unfold window_slice. rewrite take_take.
  now replace (S i `min` n)%nat with (S i) by lia.
Qed.

Lemma positions_take (n : nat) (s : Series) :
  positions (take n s) = take n (positions s).
Proof. unfold positions. now rewrite length_take, take_seq. Qed.

Lemma window_map_take {A} (F : Series -> nat -> A) (n : nat) (s : Series) :
  (forall i, (i < n)%nat -> F (take n s) i = F s i) ->
  map (F (take n s)) (positions (take n s)) = take n (map (F s) (positions s)).
Proof.
  intros H. rewrite firstn_map, <- positions_take.
  apply map_ext_in. intros i Hi. apply H.
  unfold positions in Hi. apply in_seq in Hi. rewrite length_take in Hi. lia.
Qed.

Lemma rolling_mean_take (w n : nat) (s : Series) :
  rolling_mean w (take n s) = take n (rolling_mean w s).
Proof.
  unfold rolling_mean.
  apply (window_map_take
           (fun s i =>
              if (w <=? length (observations (window_slice w s i)))%nat
                 && (0 <? length (observations (window_slice w s i)))%nat
              then mean_of (observations (window_slice w s i)) else NaN)).
  intros i Hi. now rewrite window_slice_take.
Qed.

Lemma rolling_std_take (w n : nat) (s : Series) :
  rolling_std sqrtQ w (take n s) = take n (rolling_std sqrtQ w s).
Proof.
  unfold rolling_std.
  apply (window_map_take
           (fun s i =>
              if (w <=? length (observations (window_slice w s i)))%nat
                 && (1 <? length (observations (window_slice w s i)))%nat
              then fsqrt sqrtQ (var_of (observations (window_slice w s i)))
              else NaN)).
  intros i Hi. now rewrite window_slice_take.
Qed.

Lemma removelast_take {A} (n : nat) (l : list A) :
  removelast (take (S n) l) = take n (removelast l).
Proof.
  destruct (Nat.lt_ge_cases n (length l)) as [Hlt | Hge].
  - now rewrite removelast_firstn, firstn_removelast.
  - rewrite (take_ge l (S n)) by lia.
    rewrite take_ge; [reflexivity|].
    rewrite removelast_firstn_len, length_take. lia.
Qed.

Lemma shift1_take (n : nat) (s : Series) :
  shift1 (take n s) = take n (shift1 s).
Proof.
  destruct n as [|n]; [now destruct s|].
  destruct s as [|x rest]; [reflexivity|].
  change (take (S n) (x :: rest)) with (x :: take n rest).
  unfold shift1. cbn [take]. f_equal.
  change (x :: take n rest) with (take (S n) (x :: rest)).
  apply removelast_take.
Qed.

Lemma diff_take (n : nat) (s : Series) : diff (take n s) = take n (diff s).
Proof. unfold diff. now rewrite shift1_take, zip_with_take. Qed.

Lemma where_take (n : nat) (s : Series) (cond : float64 -> bool) (other : float64) :
  where_ (take n s) cond other = take n (where_ s cond other).
Proof. unfold where_. now rewrite firstn_map. Qed.

Lemma rsi_take (n : nat) (close : Series) : rsi (take n close) = take n (rsi close).
Proof.
  unfold rsi, rsi_gain, rsi_loss.
  rewrite diff_take, !where_take, <- firstn_map, !rolling_mean_take.
  now rewrite <- zip_with_take, firstn_map.
Qed.

Lemma bollinger_upper_take (n : nat) (close : Series) :
  bollinger_upper sqrtQ (take n close) = take n (bollinger_upper sqrtQ close).
Proof.
  unfold bollinger_upper.
  now rewrite rolling_mean_take, rolling_std_take, zip_with_take.
Qed.

Lemma bollinger_lower_take (n : nat) (close : Series) :
  bollinger_lower sqrtQ (take n close) = take n (bollinger_lower sqrtQ close).
Proof.
  unfold bollinger_lower.
  now rewrite rolling_mean_take, rolling_std_take, zip_with_take.
Qed.

Lemma close_column_take (n : nat) (history : DataFrame) :
  close_column (take n history) = take n (close_column history).
Proof. unfold close_column. now rewrite firstn_map. Qed.

Lemma ema_12_take (n : nat) (close : Series) :
  ema_12 (take n close) = take n (ema_12 close).
Proof. unfold ema_12. apply ewm_mean_take. Qed.

Lemma ema_26_take (n : nat) (close : Series) :
  ema_26 (take n close) = take n (ema_26 close).
Proof. unfold ema_26. apply ewm_mean_take. Qed.

(** X19: the indicators look back only.  Computed on the first n rows of
    a history (n at least 1), each of the ten entries of the indicator
    dictionary is the first n values of the entry computed on the whole
    history: later rows never change an earlier value. *)
Theorem indicators_look_back_only (history : DataFrame) (n : nat) :
  (1 <= n)%nat ->
  forall (name : string) (s : Series),
    calculate_technical_indicators sqrtQ history !! name = Some s ->
    calculate_technical_indicators sqrtQ (take n history) !! name
      = Some (take n s).
Proof.
  intros Hn name s. unfold calculate_technical_indicators.
  destruct history as [|row rest]; [discriminate|].
  destruct n as [|n]; [lia|].
  change (take (S n) (row :: rest)) with (row :: take n rest).
  cbn [df_empty].
  change (row :: take n rest) with (take (S n) (row :: rest)).
  rewrite close_column_take.
  generalize (close_column (row :: rest)). intros close.
  rewrite bollinger_lower_take, bollinger_upper_take, rsi_take,
    macd_signal_take, macd_take, ema_26_take, ema_12_take, !rolling_mean_take.
  generalize (rsi close) (bollinger_upper sqrtQ close)
    (bollinger_lower sqrtQ close) (macd_signal close) (macd close)
    (ema_26 close) (ema_12 close)
    (rolling_mean 20 close) (rolling_mean 50 close) (rolling_mean 200 close).
  intros r bu bl ms m e26 e12 s20 s50 s200 Hs.
  repeat (apply lookup_insert_Some in Hs;
          destruct Hs as [[<- <-] | [? Hs]]; [by simplify_map_eq|]).
  rewrite lookup_empty in Hs. discriminate.
Qed.

(** X20: each of the ten series of the indicator dictionary has one value
    per row of the history: the indicators line up with the prices. *)
Theorem indicators_aligned (history : DataFrame) (name : string) (s : Series) :
  calculate_technical_indicators sqrtQ history !! name = Some s ->
  length s = length history.
Proof.
  pose proof (close_column_length history) as Hc.
  unfold calculate_technical_indicators.
  destruct (df_empty history); [rewrite lookup_empty; discriminate|].
  intros Hs.
  repeat (apply lookup_insert_Some in Hs; destruct Hs as [[_ <-] | [_ Hs]];
          [first [ rewrite bollinger_lower_length; exact Hc
                 | rewrite bollinger_upper_length; exact Hc
                 | rewrite rolling_mean_length; exact Hc
                 | rewrite rsi_length; exact Hc
                 | unfold macd_signal; rewrite ewm_mean_length, macd_length;
                   exact Hc
                 | rewrite macd_length; exact Hc
                 | unfold ema_12; rewrite ewm_mean_length; exact Hc
                 | unfold ema_26; rewrite ewm_mean_length; exact Hc ]|]).
  rewrite lookup_empty in Hs. discriminate.
Qed.

End LookBack.

Lemma indicators_look_back_only_witness :
  calculate_technical_indicators Qsqrt_up
    (take 1 [sample_row (Fin 10); sample_row (Fin 12)]) !! "EMA_12"%string
  = Some (take 1 (ema_12 (close_column [sample_row (Fin 10); sample_row (Fin 12)]))).
Proof.
  apply (indicators_look_back_only Qsqrt_up
           [sample_row (Fin 10); sample_row (Fin 12)] 1 ltac:(lia) "EMA_12"%string).
  reflexivity.
Defined.

Lemma indicators_aligned_witness :
  length (rolling_mean 20 (close_column [sample_row (Fin 10); sample_row (Fin 12)]))
    = length [sample_row (Fin 10); sample_row (Fin 12)].
Proof.
  apply (indicators_aligned Qsqrt_up
           [sample_row (Fin 10); sample_row (Fin 12)] "SMA_20"%string).
  reflexivity.
Defined.

Section MovingAverage.

Variable sqrtQ : Q -> Q.

Lemma moving_average_entries (history : DataFrame) (name : string) (w : nat) :
  (name, w) ∈ sma_windows -> history <> [] ->
  calculate_technical_indicators sqrtQ history !! name
    = Some (rolling_mean w (close_column history)).
Proof.
  intros Hin Hne. unfold calculate_technical_indicators.
  destruct history as [|row rest]; [congruence|]. cbn [df_empty].
  generalize (close_column (row :: rest)). intros close.
  generalize (rsi close) (bollinger_upper sqrtQ close) (bollinger_lower sqrtQ close)
    (macd_signal close) (macd close) (ema_26 close) (ema_12 close).
  intros. unfold sma_windows in Hin.
  repeat (apply elem_of_cons in Hin; destruct Hin as [Hin|Hin];
          [injection Hin as -> ->; by simplify_map_eq|]).
  now apply elem_of_nil in Hin.
Qed.

(** A full window of ordinary prices has a positive mean. *)
Lemma moving_average_positive (w i : nat) (qs : list Q) :
  ordinary_prices qs -> (1 <= w)%nat -> (w <= S i)%nat -> (i < length qs)%nat ->
  exists m,
    rolling_mean w (map Fin qs) !! i = Some m /\
    isnan m = false /\ flt (Fin 0) m = true.
Proof.
  intros Hord Hw Hwi Hi.
  destruct (ordinary_prices_positive qs Hord) as (lo & hi & Hlo & Hall).
  destruct (rolling_mean_finite w i (map Fin qs) qs (Forall2_represents_Fin qs))
    as (m & Hm & Hrep); try lia; [now rewrite length_map|].
  pose proof (window_mean_lower w qs i lo hi Hw Hwi Hi Hall) as Hmean.
  unfold window_mean in Hmean.
  exists m. split; [exact Hm|]. split; [eapply represents_not_nan; eauto|].
  apply (flt_represents _ _ _ _ (represents_Fin 0) Hrep). lra.
Qed.

(** X21: each of the simple moving averages SMA_20, SMA_50 and SMA_200 of
    the indicator dictionary has one value per row; it is NaN at every
    position before its window is full; and over a full window of prices
    of ordinary size it is a positive number. *)
Theorem moving_averages_warm_up (history : DataFrame) (name : string) (w : nat) :
  (name, w) ∈ sma_windows -> history <> [] ->
  exists s : Series,
    calculate_technical_indicators sqrtQ history !! name = Some s /\
    length s = length history /\
    (forall i : nat, (i < length history)%nat -> (S i < w)%nat ->
       s !! i = Some NaN) /\
    (forall (qs : list Q) (i : nat),
       close_column history = map Fin qs -> ordinary_prices qs ->
       (w <= S i)%nat -> (i < length history)%nat ->
       exists m, s !! i = Some m /\ isnan m = false /\ flt (Fin 0) m = true).
Proof.
  intros Hin Hne.
  assert (Hw : (1 <= w)%nat).
  { unfold sma_windows in Hin.
    repeat (apply elem_of_cons in Hin; destruct Hin as [Hin|Hin];
            [injection Hin as _ ->; lia|]).
    now apply elem_of_nil in Hin. }
  pose proof (close_column_length history) as Hc.
  exists (rolling_mean w (close_column history)).
  split; [now apply moving_average_entries|].
  split; [now rewrite rolling_mean_length|]. split.
  - intros i Hi Hiw. apply rolling_mean_warm_up; [exact Hiw|now rewrite Hc].
  - intros qs i Hqs Hord Hwi Hi. rewrite Hqs.
    apply moving_average_positive; try assumption.
    rewrite <- Hc, Hqs, length_map in Hi. exact Hi.
Qed.

End MovingAverage.

Lemma moving_averages_warm_up_witness :
  exists s : Series,
    calculate_technical_indicators Qsqrt_up
      [sample_row (Fin 10); sample_row (Fin 12)] !! "SMA_20"%string = Some s /\
    length s = length [sample_row (Fin 10); sample_row (Fin 12)] /\
    (forall i : nat,
       (i < length [sample_row (Fin 10); sample_row (Fin 12)])%nat ->
       (S i < 20)%nat -> s !! i = Some NaN) /\
    (forall (qs : list Q) (i : nat),
       close_column [sample_row (Fin 10); sample_row (Fin 12)] = map Fin qs ->
       ordinary_prices qs -> (20 <= S i)%nat ->
       (i < length [sample_row (Fin 10); sample_row (Fin 12)])%nat ->
       exists m, s !! i = Some m /\ isnan m = false /\ flt (Fin 0) m = true).
Proof.
  apply (moving_averages_warm_up Qsqrt_up
           [sample_row (Fin 10); sample_row (Fin 12)] "SMA_20"%string 20).
  - apply elem_of_cons. left. reflexivity.
  - discriminate.
Defined.

(** ** The fetches of stock_analyzer.py *)

Section FinancialData.

(** X22: what [_get_financial_data] stores.  A statement is stored under
    its key exactly when its query and every query before it returned and
    its table is not empty; nothing else is stored.  So a query that raises
    hides the statements read after it, and the call itself never fails. *)
Theorem financial_data_entries (ticker : Ticker) (key : string) (t : Table) :
  _get_financial_data ticker !! key = Some t <->
  table_empty t = false /\
  ((key = "quarterly_financials"%string /\ quarterly_financials ticker = Ok t) \/
   (key = "balance_sheet"%string /\
    (exists qf, quarterly_financials ticker = Ok qf) /\
    balance_sheet ticker = Ok t) \/
   (key = "cashflow"%string /\
    (exists qf, quarterly_financials ticker = Ok qf) /\
    (exists bs, balance_sheet ticker = Ok bs) /\
    cashflow ticker = Ok t)).
Proof.
  unfold _get_financial_data.
  destruct (quarterly_financials ticker) as [qf|e1].
  2:{ rewrite lookup_empty. split; [discriminate|].
      intros (_ & [[_ H] | [(_ & [? H] & _) | (_ & [? H] & _)]]); discriminate. }
  destruct (balance_sheet ticker) as [bs|e2].
  2:{ destruct (table_empty qf) eqn:Eq.
      - rewrite lookup_empty. split; [discriminate|].
        intros (Ht & [[_ H] | [(_ & _ & H) | (_ & _ & [? H] & _)]]);
          try discriminate. congruence.
      - split.
        + intros H. apply lookup_insert_Some in H.
          destruct H as [[<- <-] | [_ H]]; [|now rewrite lookup_empty in H].
          split; [exact Eq|]. now left.
        + intros (Ht & [[-> H] | [(_ & _ & H) | (_ & _ & [? H] & _)]]);
            try discriminate. injection H as <-. now simplify_map_eq. }
  destruct (cashflow ticker) as [cf|e3];
    destruct (table_empty qf) eqn:Eq, (table_empty bs) eqn:Eb;
    try destruct (table_empty cf) eqn:Ec;
    (split;
     [ intros H;
       repeat (apply lookup_insert_Some in H;
               destruct H as [[<- <-] | [? H]];
               [split; [assumption|]; eauto 10|]);
       try (rewrite lookup_empty in H); try discriminate
     | intros (Ht & [[-> H] | [(-> & _ & H) | (-> & _ & _ & H)]]);
       try discriminate; injection H as <-;
       first [congruence | by simplify_map_eq] ]).
Qed.

End FinancialData.

Section StockDataSuccess.

Variable unicode_upper : N -> list N.

Lemma fetch_bundle_some
    (yf : YFinance) (symbol period : str) (bundle : StockBundle) :
  fetch_bundle unicode_upper yf symbol period = Ok (Some bundle) ->
  bundle_symbol bundle = upper unicode_upper symbol /\
  bundle_history bundle <> [] /\
  is_Some (bundle_info bundle !! "symbol"%string) /\
  exists t,
    yf symbol = Ok t /\
    info t = Ok (Some (bundle_info bundle)) /\
    history t period = Ok (bundle_history bundle) /\
    bundle_financials bundle = _get_financial_data t.
Proof.
  unfold fetch_bundle.
  destruct (yf symbol) as [t|e] eqn:Ht; cbn [bind]; [|discriminate].
  destruct (info t) as [[d|]|e] eqn:Hi; cbn [bind]; try discriminate.
  destruct (_ || _) eqn:Hd; [discriminate|].
  destruct (history t period) as [[|row rest]|e] eqn:Hh; cbn [bind df_empty];
    try discriminate.
  intros H. injection H as <-. cbn.
  split; [reflexivity|]. split; [discriminate|].
  split.
  - apply orb_false_iff in Hd. destruct Hd as [_ Hd].
    apply negb_false_iff, bool_decide_eq_true in Hd. exact Hd.
  - exists t. repeat split; assumption.
Qed.

(** A bundle is returned only when the [try] body ran to its end. *)
Lemma get_stock_data_fetched
    (yf : YFinance) (symbol period : str) (bundle : StockBundle) :
  (get_stock_data unicode_upper yf symbol period).1 = Some bundle ->
  fetch_bundle unicode_upper yf symbol period = Ok (Some bundle).
Proof.
  unfold get_stock_data.
  destruct (fetch_bundle unicode_upper yf symbol period) as [r|e]; cbn [fst].
  - now intros ->.
  - discriminate.
Qed.

(** X23: what a successful [get_stock_data] hands back.  The bundle holds
    the info and the history the provider returned for the symbol as given,
    the info has a symbol field, the history is not empty, the recorded
    symbol is the upper-cased input, the statements are those of
    [_get_financial_data], and no message is shown. *)
Theorem get_stock_data_success
    (yf : YFinance) (symbol period : str) (bundle : StockBundle) :
  (get_stock_data unicode_upper yf symbol period).1 = Some bundle ->
  (get_stock_data unicode_upper yf symbol period).2 = [] /\
  bundle_symbol bundle = upper unicode_upper symbol /\
  bundle_history bundle <> [] /\
  is_Some (bundle_info bundle !! "symbol"%string) /\
  exists t,
    yf symbol = Ok t /\
    info t = Ok (Some (bundle_info bundle)) /\
    history t period = Ok (bundle_history bundle) /\
    bundle_financials bundle = _get_financial_data t.
Proof.
  intros H. pose proof (get_stock_data_fetched yf symbol period bundle H) as Hf.
  split.
  - unfold get_stock_data. now rewrite Hf.
  - now apply fetch_bundle_some.
Qed.

End StockDataSuccess.

Lemma get_stock_data_success_witness :
  exists bundle,
    (get_stock_data latin1_upper (sample_provider (Ok [sample_row (Fin 100)]))
       (py "aapl") (py "1y")).1 = Some bundle /\
    bundle_symbol bundle = py "AAPL" /\
    bundle_history bundle <> [].
Proof.
  eexists. split; [reflexivity|].
  destruct (get_stock_data_success latin1_upper
              (sample_provider (Ok [sample_row (Fin 100)])) (py "aapl") (py "1y")
              _ eq_refl) as (_ & Hs & Hh & _).
  split; [exact Hs|exact Hh].
Defined.

Section RealTimePrice.

Lemma last_cons_default {A} (rest : list A) : forall (r d : A),
  List.last (r :: rest) d = List.last rest r.
Proof.
  induction rest as [|a l IH]; intros r d; [reflexivity|].
  change (List.last (r :: a :: l) d) with (List.last (a :: l) d).
  now rewrite !IH.
Qed.

Lemma last_lookup {A} (rows : list A) : forall (row : A),
  (row :: rows) !! length rows = Some (List.last rows row).
Proof.
  induction rows as [|r rest IH]; intros row; [reflexivity|].
  cbn [length lookup list_lookup]. rewrite IH. now rewrite last_cons_default.
Qed.

Lemma iloc_last {A} (f : A -> float64) (rows : list A) (row : A) :
  iloc (map f (row :: rows)) (-1) = Ok (f (List.last rows row)).
Proof.
  change (-1)%Z with (- Z.of_nat 1)%Z.
  rewrite iloc_from_end by (try rewrite length_map; simpl; lia).
  rewrite length_map, map_fmap, list_lookup_fmap.
  replace (length (row :: rows) - 1)%nat with (length rows) by (simpl; lia).
  now rewrite last_lookup.
Qed.

(** X24: [get_real_time_price] never raises.  With a non-empty one-day
    history it returns the fields of the last row and shows nothing; with
    an empty history it returns None silently; when a query raises it
    returns None and shows one error message. *)
Theorem get_real_time_price_last_row (yf : YFinance) (symbol : str) :
  get_real_time_price yf symbol =
    match (let* ticker := yf symbol in history ticker (py "1d")) with
    | Raise e =>
        (None,
         [StError (py "Error fetching real-time data for " ++ symbol ++ py ": "
                   ++ exn_message e)])
    | Ok [] => (None, [])
    | Ok (row :: rows) =>
        let final := List.last rows row in
        (Some {| current_price := Close final; open_price := Open final;
                 high_price := High final; low_price := Low final;
                 volume := Volume final |}, [])
    end.
Proof.
  unfold get_real_time_price, real_time_quote.
  destruct (yf symbol) as [t|e]; cbn [bind]; [|reflexivity].
  destruct (history t (py "1d")) as [[|row rows]|e]; cbn [bind df_empty negb];
    try reflexivity.
  rewrite !iloc_last. reflexivity.
Qed.

End RealTimePrice.

Section News.

Context {Item : Type}.
Variable news : Ticker -> result (option (list Item)).

(** X25: [get_company_news] never raises and never returns more than five
    items: they are the first items of the provider's list, in its order,
    and all of them when there are at most five.  A warning is shown
    exactly when a query raised, and the result is then empty. *)
Theorem get_company_news_top_five (yf : YFinance) (symbol : str) :
  (length (get_company_news news yf symbol).1 <= 5)%nat /\
  get_company_news news yf symbol =
    match (let* ticker := yf symbol in news ticker) with
    | Ok (Some l) => (take 5 l, [])
    | Ok None => ([], [])
    | Raise e =>
        ([], [StWarning (py "Error fetching news for " ++ symbol ++ py ": "
                         ++ exn_message e)])
    end.
Proof.
  unfold get_company_news.
  destruct (let* ticker := yf symbol in news ticker) as [[[|item l]|]|e];
    cbn [fst]; (split; [|reflexivity]); try (simpl; lia).
  rewrite length_take. lia.
Qed.

End News.

Section CompareStocks.

Variable unicode_upper : N -> list N.

Lemma compare_stocks_fold (yf : YFinance) (period : str) (symbols : list str) :
  forall (acc : gmap str StockBundle) (shown : list st_event),
    let step := fun '(comparison_data, shown) symbol =>
      let '(stock_data, events) := get_stock_data unicode_upper yf symbol period in
      (match stock_data with
       | Some bundle => <[symbol := bundle]> comparison_data
       | None => comparison_data
       end, shown ++ events) in
    forall (s : str),
      (foldl step (acc, shown) symbols).1 !! s =
        if bool_decide (s ∈ symbols)
        then match (get_stock_data unicode_upper yf s period).1 with
             | Some b => Some b
             | None => acc !! s
             end
        else acc !! s.
Proof.
  induction symbols as [|x rest IH]; intros acc shown step s.
  { reflexivity. }
  cbn [foldl]. unfold step at 2.
  destruct (get_stock_data unicode_upper yf x period) as [r ev] eqn:Ex.
  subst step. rewrite IH. clear IH.
  destruct (decide (s = x)) as [-> | Hne].
  - rewrite (bool_decide_eq_true_2 (x ∈ x :: rest)) by left.
    rewrite Ex. cbn [fst].
    destruct r as [b|].
    + rewrite lookup_insert_eq. now destruct (bool_decide (x ∈ rest)).
    + now destruct (bool_decide (x ∈ rest)).
  - assert (E : bool_decide (s ∈ x :: rest) = bool_decide (s ∈ rest)).
    { apply bool_decide_ext. rewrite elem_of_cons. tauto. }
    rewrite E.
    assert (El : (match r with
                  | Some bundle => <[x := bundle]> acc
                  | None => acc
                  end) !! s = acc !! s).
    { destruct r; [now rewrite lookup_insert_ne|reflexivity]. }
    now rewrite El.
Qed.

(** X26: [compare_stocks] holds a bundle under a symbol exactly when the
    symbol is among those asked for and its fetch succeeded, and the bundle
    is the one [get_stock_data] returns for it: a symbol that fails is left
    out and does not stop the comparison. *)
Theorem compare_stocks_entries
    (yf : YFinance) (symbols : list str) (period : str) (s : str) (b : StockBundle) :
  (compare_stocks unicode_upper yf symbols period).1 !! s = Some b <->
  s ∈ symbols /\ (get_stock_data unicode_upper yf s period).1 = Some b.
Proof.
  unfold compare_stocks.
  rewrite (compare_stocks_fold yf period symbols ∅ [] s).
  rewrite lookup_empty. destruct (bool_decide (s ∈ symbols)) eqn:E.
  - apply bool_decide_eq_true in E.
    destruct ((get_stock_data unicode_upper yf s period).1); split;
      intros H; try tauto; try discriminate; destruct H; discriminate.
  - apply bool_decide_eq_false in E. split; [discriminate|tauto].
Qed.

End CompareStocks.

(** ** The session state of app.py *)

Section Session.

Variable unicode_upper : N -> list N.
Variable yf : YFinance.
Variable display_analysis : StockBundle -> chart -> result unit.

Lemma analyze_stock_state (symbol period : str) (c : chart) (st : SessionState) :
  (analyze_stock unicode_upper yf display_analysis symbol period c st).1 =
    match (get_stock_data unicode_upper yf symbol period).1 with
    | Some bundle =>
        {| stock_data := Some bundle; current_symbol := current_symbol st |}
    | None => st
    end.
Proof.
  unfold analyze_stock.
  destruct (get_stock_data unicode_upper yf symbol period) as [[bundle|] shown];
    [|reflexivity].
  cbn [fst]. now destruct (display_analysis bundle c).
Qed.

Lemma analyze_stock_ok (symbol period : str) (c : chart) (st : SessionState) :
  cached_ok st ->
  cached_ok (analyze_stock unicode_upper yf display_analysis symbol period c st).1.
Proof.
  intros Hok. rewrite analyze_stock_state.
  destruct ((get_stock_data unicode_upper yf symbol period).1) as [bundle|] eqn:E;
    [|exact Hok].
  destruct (fetch_bundle_some unicode_upper yf symbol period bundle
              (get_stock_data_fetched unicode_upper yf symbol period bundle E))
    as (_ & Hh & Hi & _).
  split; assumption.
Qed.

Lemma welcome_ok (inp : Inputs) (st : SessionState) :
  cached_ok st ->
  cached_ok (welcome unicode_upper yf display_analysis inp st).1.
Proof.
  unfold welcome. generalize popular_stocks.
  generalize [Info (pointing_up
                    ++ py " Enter a stock symbol in the sidebar to begin analysis")].
  intros events stocks. revert st events.
  induction stocks as [|stock rest IH]; intros st events Hok; [exact Hok|].
  cbn [foldl]. destruct (popular_button inp stock); [|now apply IH].
  pose proof (analyze_stock_ok stock (py "1y") LineChart
                {| stock_data := stock_data st; current_symbol := stock |} Hok)
    as Hok'.
  destruct (analyze_stock unicode_upper yf display_analysis stock (py "1y")
              LineChart {| stock_data := stock_data st; current_symbol := stock |})
    as [st' more].
  now apply IH.
Qed.

(** X27: the cached bundle stays readable.  Starting from the initial
    state, whatever the widgets return and whatever the provider answers,
    a bundle held in the session state after a run of [main] has a symbol
    in its info and a history with rows. *)
Theorem main_keeps_cache_readable (inp : Inputs) (st : SessionState) :
  cached_ok initial_state /\
  (cached_ok st -> cached_ok (main unicode_upper yf display_analysis inp st).1).
Proof.
  split; [exact I|]. intros Hok. unfold main.
  destruct (analyze_button inp
            && negb (bool_decide (upper unicode_upper (text inp) = []))).
  - destruct (validate_symbol unicode_upper (PyStr (upper unicode_upper (text inp)))).
    + pose proof (analyze_stock_ok (upper unicode_upper (text inp))
                    (timeframe_period (selected_timeframe inp)) (chart_type inp)
                    {| stock_data := stock_data st;
                       current_symbol := upper unicode_upper (text inp) |} Hok)
        as Hok'.
      destruct (analyze_stock _ _ _ _ _ _ _) as [st' content]. exact Hok'.
    + exact Hok.
  - destruct (stock_data st) as [bundle|] eqn:E.
    + destruct (display_analysis bundle (chart_type inp)); exact Hok.
    + pose proof (welcome_ok inp st Hok) as Hok'.
      destruct (welcome _ _ _ _ _) as [st' content]. exact Hok'.
Qed.

(** X28: an invalid symbol changes nothing.  When the button is pressed
    with a text that does not validate, the run leaves the session state
    as it was and shows one error; the provider is not consulted. *)
Theorem invalid_symbol_changes_nothing (inp : Inputs) (st : SessionState) :
  analyze_button inp = true ->
  upper unicode_upper (text inp) <> [] ->
  validate_symbol unicode_upper (PyStr (upper unicode_upper (text inp))) = false ->
  main unicode_upper yf display_analysis inp st =
    (st,
     match stock_data st with
     | Some bundle => [Download (current_symbol st) bundle]
     | None => []
     end ++
     [Shown (StError (cross_mark ++ py " Please enter a valid stock symbol "
                      ++ py "(e.g., AAPL, MSFT, GOOGL)"))]).
Proof.
  intros Hb Hne Hv. unfold main. rewrite Hb, Hv.
  rewrite bool_decide_eq_false_2 by exact Hne. reflexivity.
Qed.

Lemma validated_symbol_nonempty (symbol : str) :
  validate_symbol unicode_upper (PyStr symbol) = true -> symbol <> [].
Proof. intros H ->. discriminate. Qed.

Lemma main_analyzes (inp : Inputs) (st : SessionState) :
  analyze_button inp = true ->
  validate_symbol unicode_upper (PyStr (upper unicode_upper (text inp))) = true ->
  (main unicode_upper yf display_analysis inp st).1 =
    match (get_stock_data unicode_upper yf (upper unicode_upper (text inp))
             (timeframe_period (selected_timeframe inp))).1 with
    | Some bundle =>
        {| stock_data := Some bundle;
           current_symbol := upper unicode_upper (text inp) |}
    | None =>
        {| stock_data := stock_data st;
           current_symbol := upper unicode_upper (text inp) |}
    end.
Proof.
  intros Hb Hv. unfold main. rewrite Hb, Hv.
  rewrite bool_decide_eq_false_2 by now apply validated_symbol_nonempty.
  cbn [andb negb].
  pose proof (analyze_stock_state (upper unicode_upper (text inp))
                (timeframe_period (selected_timeframe inp)) (chart_type inp)
                {| stock_data := stock_data st;
                   current_symbol := upper unicode_upper (text inp) |}) as Hs.
  destruct (analyze_stock _ _ _ _ _ _ _) as [st' content].
  cbn [fst] in *. rewrite Hs.
  now destruct ((get_stock_data _ _ _ _).1).
Qed.

(** X29: a failed fetch leaves a stale download.  When a valid symbol is
    analysed and its fetch returns None, the session keeps the bundle
    cached before but already carries the new symbol; the next run, whatever
    its inputs, offers a download named after the new symbol that holds the
    old bundle. *)
Theorem failed_fetch_leaves_stale_download
    (inp next : Inputs) (st : SessionState) (old : StockBundle) :
  stock_data st = Some old ->
  analyze_button inp = true ->
  validate_symbol unicode_upper (PyStr (upper unicode_upper (text inp))) = true ->
  (get_stock_data unicode_upper yf (upper unicode_upper (text inp))
     (timeframe_period (selected_timeframe inp))).1 = None ->
  stock_data (main unicode_upper yf display_analysis inp st).1 = Some old /\
  current_symbol (main unicode_upper yf display_analysis inp st).1
    = upper unicode_upper (text inp) /\
  exists content,
    (main unicode_upper yf display_analysis next
       (main unicode_upper yf display_analysis inp st).1).2 =
      Download (upper unicode_upper (text inp)) old :: content.
Proof.
  intros Hold Hb Hv Hf.
  set (st1 := (main unicode_upper yf display_analysis inp st).1).
  assert (E : st1 = {| stock_data := Some old;
                       current_symbol := upper unicode_upper (text inp) |}).
  { unfold st1. rewrite (main_analyzes inp st Hb Hv), Hf, Hold. reflexivity. }
  rewrite E. cbn [stock_data current_symbol].
  split; [reflexivity|]. split; [reflexivity|].
  unfold main. cbn [stock_data current_symbol].
  destruct (if analyze_button next && _ then _ else _) as [st2 content].
  exists content. reflexivity.
Qed.

(** X30: after a successful analysis the session is consistent: the cached
    bundle is the one fetched for the symbol the session now carries. *)
Theorem successful_analysis_is_consistent
    (inp : Inputs) (st : SessionState) (bundle : StockBundle) :
  analyze_button inp = true ->
  validate_symbol unicode_upper (PyStr (upper unicode_upper (text inp))) = true ->
  (get_stock_data unicode_upper yf (upper unicode_upper (text inp))
     (timeframe_period (selected_timeframe inp))).1 = Some bundle ->
  stock_data (main unicode_upper yf display_analysis inp st).1 = Some bundle /\
  current_symbol (main unicode_upper yf display_analysis inp st).1
    = upper unicode_upper (text inp) /\
  bundle_symbol bundle
    = upper unicode_upper
        (current_symbol (main unicode_upper yf display_analysis inp st).1).
Proof.
  intros Hb Hv Hf.
  rewrite (main_analyzes inp st Hb Hv), Hf. cbn [stock_data current_symbol].
  split; [reflexivity|]. split; [reflexivity|].
  now destruct (fetch_bundle_some unicode_upper yf _ _ bundle
                  (get_stock_data_fetched unicode_upper yf _ _ bundle Hf))
    as (Hs & _).
Qed.

End Session.

Lemma invalid_symbol_changes_nothing_witness :
  main latin1_upper (sample_provider (Ok [])) sample_display
    (sample_inputs (py "123")) initial_state =
    (initial_state,
     [] ++
     [Shown (StError (cross_mark ++ py " Please enter a valid stock symbol "
                      ++ py "(e.g., AAPL, MSFT, GOOGL)"))]).
Proof.
  apply (invalid_symbol_changes_nothing latin1_upper (sample_provider (Ok []))
           sample_display (sample_inputs (py "123")) initial_state).
  - reflexivity.
  - discriminate.
  - vm_compute. reflexivity.
Defined.

Lemma failed_fetch_leaves_stale_download_witness :
  stock_data
    (main latin1_upper (sample_provider (Ok [])) sample_display
       (sample_inputs (py "msft"))
       {| stock_data := Some sample_bundle; current_symbol := py "X" |}).1
    = Some sample_bundle /\
  current_symbol
    (main latin1_upper (sample_provider (Ok [])) sample_display
       (sample_inputs (py "msft"))
       {| stock_data := Some sample_bundle; current_symbol := py "X" |}).1
    = upper latin1_upper (py "msft") /\
  exists content,
    (main latin1_upper (sample_provider (Ok [])) sample_display
       (sample_inputs (py "aapl"))
       (main latin1_upper (sample_provider (Ok [])) sample_display
          (sample_inputs (py "msft"))
          {| stock_data := Some sample_bundle; current_symbol := py "X" |}).1).2 =
      Download (upper latin1_upper (py "msft")) sample_bundle :: content.
Proof.
  apply (failed_fetch_leaves_stale_download latin1_upper (sample_provider (Ok []))
           sample_display (sample_inputs (py "msft")) (sample_inputs (py "aapl"))
           {| stock_data := Some sample_bundle; current_symbol := py "X" |}
           sample_bundle).
  - reflexivity.
  - reflexivity.
  - vm_compute. reflexivity.
  - vm_compute. reflexivity.
Defined.

Lemma successful_analysis_is_consistent_witness :
  exists bundle,
    stock_data
      (main latin1_upper (sample_provider (Ok [sample_row (Fin 100)]))
         sample_display (sample_inputs (py "aapl")) initial_state).1
      = Some bundle /\
    current_symbol
      (main latin1_upper (sample_provider (Ok [sample_row (Fin 100)]))
         sample_display (sample_inputs (py "aapl")) initial_state).1
      = upper latin1_upper (py "aapl") /\
    bundle_symbol bundle
      = upper latin1_upper
          (current_symbol
             (main latin1_upper (sample_provider (Ok [sample_row (Fin 100)]))
                sample_display (sample_inputs (py "aapl")) initial_state).1).
Proof.
  eexists.
  apply (successful_analysis_is_consistent latin1_upper
           (sample_provider (Ok [sample_row (Fin 100)])) sample_display
           (sample_inputs (py "aapl")) initial_state).
  - reflexivity.
  - vm_compute. reflexivity.
  - vm_compute. reflexivity.
Defined.
